(* ===== verification/_CoqProject ===== *)
-Q . S2P
Prelude.v
Word.v
Philox.v
Transforms.v
Descriptor.v
Catalog.v
Elementwise.v
Launch.v
Bench.v
NormalR.v
