(* ===== verification/Prelude.v ===== *)
(** * A verification development for gpgpu-rs: the kernel catalog, its
      kernels and the random-number benchmark

    The repository (DricomDragon/gpgpu-rs) describes GPU kernels.
    - [src/src/kernels.rs] builds the catalog [kernels()]: thirty
      [Kernel] descriptors, each with a name, ordered arguments, an
      OpenCL body held as a string, and the shared device functions it
      needs, collected into a [HashMap].
    - The nine Philox bodies come from the [random!] macro.  It glues
      one of three round cores (philox2x64_10, philox4x64_10,
      philox4x32_10) to an output suffix: raw, unit-interval or normal.
    - The other twenty-one bodies are one-statement elementwise,
      slice-move and complex kernels.
    - [SKernel] is the owned mirror of a descriptor, for persistence.
    - [src/examples/random.rs] builds a [Handler] (gpgpu crate, outside
      src/), loads the three normal kernels and launches them
      repeatedly on shared buffers.

    What is modelled is the behaviour the kernel texts describe.  Each
    OpenCL body is a Rocq function on the buffers it reads and writes,
    with the reads and writes in the order of the text.  Integers are
    kept at their OpenCL width ([uint] = 32 bits, [ulong] = 64 bits),
    with the wrap-around written out.  Code outside src/ that src/
    calls is modelled from the spec, and the manifest marks it so:
    - the argument and dependency constructors (descriptors.rs,
      functions.rs) and the serde wire form;
    - the catalog query API;
    - the Handler's builder, kernel loading and argument binder.

    Files, in dependency order:
    - [Prelude] (this file): the [word_scope] notation for xor; the
      [err_scope] notation [let?] of the error monad used for Rust's
      [?]; the [words] hint databases; lemmas on buffers
      ([slice]/[splice]) and on scattered writes ([scatter]); the
      counting loop [for_up] with its fuel lemma.
    - [Word]: [uint]/[ulong] arithmetic ([wrap], [add], [mul],
      [mul_hi]), range lemmas, truncation as a ring morphism
      ([wrap_norm]), and the inverse of an odd multiplier modulo [2^w].
    - [Philox] (kernels.rs 34-90): [keyed_round], a record of
      operations with laws that is the interface between a round and
      the generic ten-round loop and its inverse.  [lane_codec] reads
      and writes a thread's slice.  Module [P2x64] and the modules
      [P4], [P4x32], [P4x64] give the three in-place kernel bodies.
      [launch] runs the threads of a launch one after the other.
    - [Transforms] (kernels.rs 101-173): the unit and normal suffixes
      ([to_unit], [join32], Box-Muller against a record [float_ops] of
      double operations), and the six kernels as core then suffix.
    - [Descriptor] (kernels.rs 1-32): [Kernel], [S.SKernel], the
      conversion [skernel_of], and the serde wire form of spec section
      6: an encoder to a JSON object and a decoder that reads the
      fields by name, in any order, ignoring unknown fields, as
      serde's derived struct visitor does.
    - [Catalog] (kernels.rs 34-305): the bodies copied verbatim, the
      [random!] concatenation, [collect] as successive map inserts, and
      lookup and resolution of [needed] against a function table.
    - [Elementwise] (kernels.rs 178-302): the one-dimensional kernels on
      a store of named buffers (so [dst] may be an input), the move
      kernels on a three-dimensional launch with [uint] indices, and
      the complex conversions.
    - [Launch] (random.rs): the Handler as the spec describes it
      (buffers, loaded kernels, bound arguments; the binder matches
      [Buffer] by position, [BufArg] and [Param] by name, and checks
      element types), the setup of [main] (lines 8-27) in the error
      monad, and the thread counts of its three launches.
    - [Bench] (random.rs 29-65): the three benchmark loops on a state
      [bench_state] of the buffers [src], [num], [dst].  An iteration
      ([bench_iter]) runs a kernel, then the moments algorithm, a
      parameter [moments], then the accumulation [accumulate], where
      the panic of [moms[i]] is [None].  The loop is [bench_loop].
      [random_benchmarks] chains the three benchmarks, each starting
      from the buffers the previous one left.  The 4x32 kernel reads
      the [ulong] buffer [src] through its [uint] view ([u32_view],
      little-endian).  The record [launch_laws] states what the loop
      needs of a launch; the three launches discharge it.
    - [NormalR]: the Box-Muller lines read in the real numbers
      ([real_ops]: [sqrt], [ln], [cos], [sin], [PI] of the Standard
      Library).

    Theorems, by claim:
    - C1-C3 (Philox, refinement): each in-place Philox body is the
      lane-level ten-round permutation of its thread's slice.  C4: the
      launch order does not matter.  C5: the ten rounds are a
      bijection on word states, at 32-bit lanes for 4x32 and 64-bit
      lanes for the others.
    - C6-C10 (Transforms): unit outputs lie in [0,1); the 32-bit pair
      reconstruction round-trips; each unit and normal kernel writes
      exactly its output cells, [l] per thread for 64-bit lanes and
      [l/2] for 4x32; for every thread some seed makes a normal kernel
      evaluate [log] at [u1 = 0].
    - C11 (Descriptor): a descriptor converted to [SKernel], encoded
      and decoded (fields in any order, unknown fields added) comes
      back with its name, source, arguments and dependencies.
    - C12-C14 (Catalog): names are distinct and lookups return the
      entry of that name; each body calls exactly the shared functions
      it declares; argument names are distinct and used.
    - C15-C20 (Elementwise): the pointwise kernels compute the pointwise
      operation on the first [n] cells, also in place; the complex
      conversions invert each other; [move] fills a contiguous block;
      [dmove] and [rdmove] write distinct cells under their extent
      conditions; [smove] undoes [move].
    - C21 (Launch): the thread counts of random.rs make every launch
      write every cell of [num].
    - C22-C24 (Bench): the benchmarks equal a reference iteration of
      launch-then-accumulate on the chained buffers (equivalence); the
      accumulation panics exactly when [dst] is longer than [moms]
      (error); the results do not depend on the initial [num] and
      [dst] (safety).
    - C25 (NormalR): each pair written by a normal kernel has squared
      norm [-2 ln u1] when its lane is at least [2^11].

    Bounds and fuel.
    - The Philox loop [for(int i = 0;i<10;i++)] is a structural
      recursion on the remaining rounds.
    - The suffix loops are [for_up] with fuel equal to their bound [l]
      (at most 4).  [for_up_enough] shows that more fuel changes
      nothing, so the loop has terminated; with [l <= 4] the [uint]
      counter never wraps.
    - The benchmark loop [for _ in 0..n] is a structural recursion on
      [n] ([bench_loop]); [random_n = 2^11] and [random_len = 2^17] are
      kept symbolic in the theorems (any [n], any [len = 4q]).
    - Launches are folds over the list of thread indices.
    - Buffer reads use [!!!] (0 out of range) and writes use stdpp's list
      insert (no effect out of range).  In OpenCL an out-of-range access
      is undefined, so every theorem about a kernel assumes that the
      cells it touches lie inside the buffer.  Where a [uint] index
      could wrap, the theorems assume that it stays below [2^32].

    Not modelled:
    - GPU memory allocation, program compilation, the command queue
      and dispatch ([gpu.run], [run_algorithm], [gpu.get]) of the
      Handler: the benchmark model takes the launch as a function on
      the buffers;
    - the kernel prologue that the gpgpu crate prepends to each body
      (outside src/), which declares the thread index [x].  It is
      taken as a 64-bit [get_global_id] value, so that the 4x32 key
      [{x>>32,x}] is the spec's [{0, x}] for thread indices below
      [2^32] ([P4x32.key_of]); were [x] a [uint], OpenCL would reduce
      the shift count modulo 32 and [key[0]] would be [x];
    - the moments algorithm of random.rs (outside src/), which the
      benchmark model takes as a parameter, [moments_to_cumulants],
      timing and printing;
    - the rounding of double arithmetic, which every theorem leaves
      abstract ([float_ops], [double_ops]) except the exact unit
      transform. *)

From Stdlib Require Import ZArith Lia.
From stdpp Require Import base list.

(** ** Notation *)

Declare Scope word_scope.
Delimit Scope word_scope with word.

(** OpenCL's [^] on unsigned integers. *)
Notation "a ⊕ b" := (Z.lxor a b) (at level 40, left associativity) : word_scope.

(** ** Hint databases *)

Create HintDb words discriminated.
Create Rewrite HintDb words_rw.

(** ** Generic lemmas on buffers (lists updated in place)

    A kernel thread owns a slice of a buffer: [slice base n l] reads it
    and [splice base vs l] writes it back (stdpp's [list_inserts], which
    leaves cells past the end untouched). *)

Section Buffers.
Context {A : Type}.
Implicit Types (l vs us : list A) (base i j n : nat).

Definition slice base n l : list A := take n (drop base l).
Definition splice base vs l : list A := list_inserts base vs l.

Lemma lookup_splice base vs l j :
  splice base vs l !! j =
    if decide (base <= j < base + length vs /\ j < length l)%nat
    then vs !! (j - base)%nat else l !! j.
Proof.
  unfold splice. case_decide as Hin.
  - destruct Hin. by apply list_lookup_inserts.
  - destruct (decide (j < base \/ base + length vs <= j))%nat as [Hout|Hout].
    + destruct Hout.
      * by apply list_lookup_inserts_lt.
      * by apply list_lookup_inserts_ge.
    + rewrite !lookup_ge_None_2; rewrite ?length_inserts; done || lia.
Qed.

Lemma lookup_slice base n l i :
  slice base n l !! i = if decide (i < n)%nat then l !! (base + i)%nat else None.
Proof.
  unfold slice. case_decide.
  - by rewrite lookup_take_lt, lookup_drop.
  - by rewrite lookup_take_ge by lia.
Qed.

Lemma length_splice base vs l : length (splice base vs l) = length l.
Proof. apply length_inserts. Qed.

Lemma lookup_total_slice `{Inhabited A} base n l i :
  (i < n)%nat -> slice base n l !!! i = l !!! (base + i)%nat.
Proof.
  intros Hi. rewrite !list_lookup_total_alt, lookup_slice.
  by case_decide; [|lia].
Qed.

Lemma length_slice base n l :
  (base + n <= length l)%nat -> length (slice base n l) = n.
Proof. intros. unfold slice. rewrite length_take, length_drop. lia. Qed.
End Buffers.

#[export] Hint Rewrite @length_splice @length_insert @length_inserts : words_rw.

(** [buffer_ext] turns a buffer equation into a pointwise one and
    resolves every [splice] and [slice] lookup by cases. *)
Ltac buffer_ext :=
  apply list_eq; intros ?j;
  repeat first [ rewrite lookup_splice | rewrite lookup_slice
               | rewrite list_lookup_insert ];
  autorewrite with words_rw; cbn [length];
  repeat case_decide; try done; try lia.

(** [lane_cases] finishes a [buffer_ext] goal about a slice of a few
    lanes: it substitutes the cell index and computes the lane. *)
Ltac lane_cases :=
  repeat match goal with
         | H : _ /\ _ |- _ => destruct H
         | H : ?b = ?j |- _ => is_var j; subst j
         end;
  rewrite ?Nat.sub_diag, ?Nat.add_simpl_l; simpl; try done; try lia.

Section BufferLaws.
Context {A : Type}.
Implicit Types (l vs us : list A) (n : nat).

(** Reading back a slice just written gives what was written. *)
Lemma slice_splice base vs l :
  (base + length vs <= length l)%nat -> slice base (length vs) (splice base vs l) = vs.
Proof.
  intros Hle. buffer_ext.
  - f_equal. lia.
  - by rewrite lookup_ge_None_2 by lia.
Qed.

(** A second write of the same slice hides the first. *)
Lemma splice_splice base vs us l :
  length vs = length us -> splice base vs (splice base us l) = splice base vs l.
Proof. intros Hlen. buffer_ext. Qed.

(** Writing back what was read changes nothing. *)
Lemma splice_slice base n l :
  (base + n <= length l)%nat -> splice base (slice base n l) l = l.
Proof.
  intros Hle. buffer_ext; rewrite length_slice in * by lia; try lia.
  f_equal. lia.
Qed.

(** Disjoint slices: writing one leaves the other as it was. *)
Lemma slice_splice_other base base' n vs l :
  (base' + n <= base \/ base + length vs <= base')%nat ->
  slice base' n (splice base vs l) = slice base' n l.
Proof. intros Hdis. buffer_ext. Qed.

(** Writes to disjoint slices commute. *)
Lemma splice_comm base base' vs us l :
  (base' + length us <= base \/ base + length vs <= base')%nat ->
  splice base vs (splice base' us l) = splice base' us (splice base vs l).
Proof. intros Hdis. buffer_ext. Qed.

(** A cell of the slice just written holds the written value. *)
Lemma lookup_total_splice_in `{Inhabited A} base vs l i :
  (base + i < length l)%nat -> (i < length vs)%nat ->
  splice base vs l !!! (base + i)%nat = vs !!! i.
Proof.
  intros H1 H2. rewrite !list_lookup_total_alt, lookup_splice.
  case_decide; [by rewrite Nat.add_simpl_l | lia].
Qed.

(** The first cell of a spliced block. *)
Lemma lookup_total_splice_base `{Inhabited A} base vs l :
  (base < length l)%nat -> (0 < length vs)%nat -> splice base vs l !!! base = vs !!! 0%nat.
Proof. intros. rewrite <- (lookup_total_splice_in base vs l 0) by lia. by rewrite Nat.add_0_r. Qed.

(** Cells outside the slice are untouched. *)
Lemma splice_outside base vs l j :
  (j < base \/ base + length vs <= j)%nat -> splice base vs l !! j = l !! j.
Proof. intros Hout. rewrite lookup_splice. case_decide; [lia | done]. Qed.
End BufferLaws.

(** A splice that fits is a concatenation. *)
Lemma splice_app {A : Type} base (vs l : list A) :
  (base + length vs <= length l)%nat ->
  splice base vs l = take base l ++ vs ++ drop (base + length vs) l.
Proof.
  intros Hfit. apply list_eq. intros j. rewrite lookup_splice.
  case_decide as Hin.
  - rewrite lookup_app_r, lookup_app_l; rewrite ?length_take; [f_equal|..]; lia.
  - destruct (decide (j < base)%nat).
    + by rewrite lookup_app_l, lookup_take_lt by (rewrite ?length_take; lia).
    + rewrite !lookup_app_r, lookup_drop by (rewrite ?length_take; lia).
      rewrite length_take. f_equal. lia.
Qed.

(** [by_compute] proves a decidable proposition about concrete data by
    evaluating its decision procedure. *)
Ltac by_compute := apply (bool_decide_unpack _); vm_compute; exact I.

(** ** Counting loops

    [for_up fuel i stop step body a] runs the C loop
    [for(i = i0; i < stop; i += step) body(i)] on the state [a], for at
    most [fuel] iterations.  [for_up_enough] shows that once [fuel]
    covers [stop - i0] the result no longer depends on it: the loop has
    terminated. *)

Fixpoint for_up {A : Type} (fuel i stop step : nat) (body : nat -> A -> A) (a : A) : A :=
  match fuel with
  | O => a
  | S fuel =>
      if decide (i < stop)%nat then for_up fuel (i + step) stop step body (body i a) else a
  end.

Lemma for_up_enough {A : Type} (fuel fuel' i stop step : nat) (body : nat -> A -> A) (a : A) :
  (0 < step)%nat -> (stop - i <= fuel)%nat -> (fuel <= fuel')%nat ->
  for_up fuel' i stop step body a = for_up fuel i stop step body a.
Proof.
  intros Hstep. revert fuel' i a.
  induction fuel as [|fuel IH]; intros [|fuel'] i a Hi Hle; simpl; [done | | lia |].
  - by case_decide; [lia|].
  - case_decide; [|done]. apply IH; lia.
Qed.

(** ** Scattered writes

    A launch in which thread [p] writes [val p] into cell [idx p] of one
    buffer.  When two threads may hit the same cell they must write the
    same value; then each target cell holds its thread's value and the
    other cells are untouched, whatever the order of the threads. *)

Section Scatter.
Context {P A : Type} (idx : P -> nat) (val : P -> A).

Definition scatter (ps : list P) (l : list A) : list A :=
  foldl (fun l p => <[idx p := val p]> l) l ps.

Lemma length_scatter ps l : length (scatter ps l) = length l.
Proof.
  unfold scatter. revert l. induction ps as [|p ps IH]; intros l; [done|].
  simpl. by rewrite IH, length_insert.
Qed.

Lemma scatter_miss ps l j :
  (forall p, p ∈ ps -> idx p <> j) -> scatter ps l !! j = l !! j.
Proof.
  unfold scatter. revert l. induction ps as [|p ps IH]; intros l Hps; [done|].
  simpl. rewrite IH.
  - apply list_lookup_insert_ne, Hps. constructor.
  - intros q Hq. apply Hps. by constructor.
Qed.

Lemma scatter_hit ps l p :
  p ∈ ps -> (forall q, q ∈ ps -> idx q = idx p -> val q = val p) -> (idx p < length l)%nat ->
  scatter ps l !! idx p = Some (val p).
Proof.
  unfold scatter. induction ps as [|q ps IH] using rev_ind; intros Hp Hval Hlen.
  - by apply elem_of_nil in Hp.
  - rewrite foldl_app. cbn [foldl].
    destruct (decide (idx q = idx p)) as [E|E].
    + rewrite <- E, list_lookup_insert_eq
        by (fold (scatter ps l); rewrite length_scatter; lia).
      f_equal. apply Hval; [apply elem_of_app; right; constructor | done].
    + rewrite list_lookup_insert_ne by done.
      apply elem_of_app in Hp as [Hp|Hp%list_elem_of_singleton]; [|by subst].
      apply IH; [done| |done]. intros r Hr. apply Hval, elem_of_app. by left.
Qed.

(** Writing back the values a buffer already holds changes nothing. *)
Lemma scatter_id `{Inhabited A} ps l :
  (forall p, p ∈ ps -> val p = l !!! idx p /\ (idx p < length l)%nat) -> scatter ps l = l.
Proof.
  unfold scatter. induction ps as [|p ps IH]; intros Hps; [done|]. simpl.
  destruct (Hps p) as [-> Hlt]; [constructor|].
  rewrite list_insert_id by (by apply list_lookup_lookup_total_lt).
  apply IH. intros q Hq. apply Hps. by constructor.
Qed.
End Scatter.

(** [foldl] respects pointwise equal step functions. *)
Lemma foldl_ext {A B : Type} (f g : A -> B -> A) (a : A) (l : list B) :
  (forall a b, f a b = g a b) -> foldl f a l = foldl g a l.
Proof. intros Hfg. revert a. induction l as [|b l IH]; intros a; simpl; [done|]. by rewrite Hfg. Qed.

(** ** A small error monad

    Fallible steps return [E + A]: [inl] is the error that stops the
    sequence, like Rust's [?]. *)

Definition err_bind {E A B : Type} (m : E + A) (k : A -> E + B) : E + B :=
  match m with inl e => inl e | inr a => k a end.

Declare Scope err_scope.
Delimit Scope err_scope with err.
Notation "'let?' x ':=' m 'in' k" := (err_bind m (fun x => k))
  (at level 10, x name, m at level 100, k at level 200) : err_scope.
