(* ===== verification/Word.v ===== *)
(** * OpenCL unsigned integers at width [w]

    The Philox cores of kernels.rs compute on [uint] (w = 32) and
    [ulong] (w = 64) values.  A value is a Z in [0, 2^w).  Every operation
    the kernel text uses is written out at its width: [+] and [*] wrap
    modulo [2^w]; [mul_hi(a,b)] is the high half of the full product; [^]
    is [Z.lxor]; a conversion to a narrower type keeps the low bits.

    Besides the range lemmas, this file proves that multiplying by an odd
    constant is invertible modulo [2^w].  The inverse constant is
    computed by Newton iteration.  This is what makes each Philox round a
    bijection. *)

From Stdlib Require Import ZArith Lia.
From S2P Require Import Prelude.

Local Open Scope Z_scope.
Local Open Scope word_scope.

(** ** Operations *)

Section Width.
Context (w : Z).

(** Truncation to [w] bits: the C conversion to an unsigned type. *)
Definition wrap (z : Z) : Z := z mod 2 ^ w.

(** [a + b] and [a * b] on unsigned [w]-bit operands. *)
Definition add (a b : Z) : Z := wrap (a + b).
Definition mul (a b : Z) : Z := wrap (a * b).

(** OpenCL [mul_hi(a, b)]: the high [w] bits of the [2w]-bit product. *)
Definition mul_hi (a b : Z) : Z := Z.shiftr (a * b) w.

(** The range of an unsigned [w]-bit value. *)
Definition word (z : Z) : Prop := 0 <= z < 2 ^ w.
End Width.

(** Inverse of an odd [m] modulo [2^w] by Newton's iteration
    [y := y * (2 - m * y)], which doubles the number of correct low bits
    at each step; [m * m = 1 mod 8] for odd [m], so six steps reach
    [3 * 2^6 = 192 >= 64] bits. *)
Fixpoint newton_inv (w : Z) (n : nat) (m y : Z) : Z :=
  match n with
  | O => y
  | S n => newton_inv w n m (wrap w (y * (2 - m * y)))
  end.

Definition mul_inv (w m : Z) : Z := newton_inv w 6 m m.

(** ** Range lemmas *)

Section Range.
Context (w : Z) (Hw : 0 < w).

Lemma pow2_pos : 0 < 2 ^ w.
Proof. apply Z.pow_pos_nonneg; lia. Qed.

Lemma word_wrap z : word w (wrap w z).
Proof. unfold word, wrap. apply Z.mod_pos_bound, pow2_pos. Qed.

Lemma word_add a b : word w (add w a b).
Proof. apply word_wrap. Qed.

Lemma word_mul a b : word w (mul w a b).
Proof. apply word_wrap. Qed.

Lemma mul_hi_spec a b : mul_hi w a b = (a * b) / 2 ^ w.
Proof. unfold mul_hi. apply Z.shiftr_div_pow2. lia. Qed.

Lemma word_mul_hi a b : word w a -> word w b -> word w (mul_hi w a b).
Proof.
  unfold word. intros Ha Hb. rewrite mul_hi_spec. pose proof pow2_pos.
  split.
  - apply Z.div_pos; nia.
  - apply Z.div_lt_upper_bound; nia.
Qed.

Lemma word_lxor a b : word w a -> word w b -> word w (a ⊕ b).
Proof.
  unfold word. intros Ha Hb. split.
  - apply Z.lxor_nonneg. lia.
  - destruct (Z.eq_dec (a ⊕ b) 0) as [E|E]; [rewrite E; apply pow2_pos|].
    apply Z.log2_lt_pow2; [pose proof (proj2 (Z.lxor_nonneg a b)); lia|].
    eapply Z.le_lt_trans; [apply Z.log2_lxor; lia|].
    apply Z.max_lub_lt;
      match goal with
      | |- Z.log2 ?c < w =>
          destruct (Z.eq_dec c 0) as [->|]; [simpl; lia|apply Z.log2_lt_pow2; lia]
      end.
Qed.

Lemma lxor_cancel_l x a : x ⊕ (x ⊕ a) = a.
Proof. rewrite <- Z.lxor_assoc, Z.lxor_nilpotent, Z.lxor_0_l. reflexivity. Qed.

(** Multiplying by [m] and then by an inverse of [m] is the identity on
    [w]-bit values. *)
Lemma mul_inv_cancel m m' s :
  (m' * m) mod 2 ^ w = 1 -> word w s -> mul w m' (mul w m s) = s.
Proof.
  intros Hinv Hs. unfold mul, wrap.
  rewrite Z.mul_mod_idemp_r by (pose proof pow2_pos; lia).
  rewrite Z.mul_assoc, <- Z.mul_mod_idemp_l by (pose proof pow2_pos; lia).
  rewrite Hinv, Z.mul_1_l. apply Z.mod_small. exact Hs.
Qed.
End Range.

(** Truncation commutes with [+] and [*]: a C expression on unsigned
    operands equals the exact expression truncated once.  (For [w < 0],
    [2^w = 0] and [wrap] is the identity, so no hypothesis on [w] is
    needed.) *)
Section Wrap.
Context (w : Z).

Lemma wrap_small z : word w z -> wrap w z = z.
Proof. apply Z.mod_small. Qed.

(** [case_pow2] separates [2^w = 0], where [wrap] is the identity. *)
Ltac case_pow2 :=
  unfold wrap; destruct (Z.eq_dec (2 ^ w) 0) as [E|E]; [rewrite E, !Z.mod_0_r; reflexivity|].

Lemma wrap_add_l a b : wrap w (wrap w a + b) = wrap w (a + b).
Proof. case_pow2. now apply Z.add_mod_idemp_l. Qed.

Lemma wrap_add_r a b : wrap w (a + wrap w b) = wrap w (a + b).
Proof. case_pow2. now apply Z.add_mod_idemp_r. Qed.

Lemma wrap_mul_l a b : wrap w (wrap w a * b) = wrap w (a * b).
Proof. case_pow2. now apply Z.mul_mod_idemp_l. Qed.

Lemma wrap_mul_r a b : wrap w (a * wrap w b) = wrap w (a * b).
Proof. case_pow2. now apply Z.mul_mod_idemp_r. Qed.
End Wrap.

Create HintDb word_range discriminated.
#[export] Hint Resolve word_wrap word_add word_mul word_mul_hi word_lxor : word_range.
#[export] Hint Extern 1 (0 < _) => lia : word_range.

Create Rewrite HintDb wrap_rw.
#[export] Hint Rewrite wrap_add_l wrap_add_r wrap_mul_l wrap_mul_r : wrap_rw.

(** [wrap_norm] pushes the truncations of a nested unsigned expression
    out to the root, innermost first. *)
Ltac wrap_norm := unfold add, mul; rewrite_strat (bottomup (hints wrap_rw)).

(** [word_range] proves that an expression built from the operations
    above is a [w]-bit value. *)
Ltac word_range := solve [ eauto with word_range ].

(** [split_words] splits a conjunction of range facts without unfolding
    [word]. *)
Ltac split_words := repeat match goal with |- _ /\ _ => split end.
