(* ===== verification/Philox.v ===== *)
(** * The Philox round cores of the [random!] macro (kernels.rs 34-90)

    The macro has three arms, [philox2x64_10], [philox4x64_10] and
    [philox4x32_10].  Each is an OpenCL text that permutes, in place, the
    [l] consecutive state words [src[x*l .. x*l+l)] of thread [x] by ten
    keyed rounds.

    The file is organised as follows.
    - [keyed_round] is the interface between a round and the generic
      machinery: a record of operations (round, its inverse, the key
      step, well-formedness of states and keys) with laws.  From an
      instance, [rounds] builds the [n]-round permutation and
      [unrounds] its inverse; [unrounds_rounds] and [rounds_unrounds]
      are proved once, against the laws.
    - [lane_codec] reads and writes a thread's slice of the buffer as a
      lane record.  [kernel_loop] is the [for(int i = 0;i<10;i++)] loop
      of the kernel text.  [kernel_loop_spec] proves that the in-place
      loop refines [rounds], given that one in-place round body refines
      one round.
    - [launch] runs the threads of an NDRange one after the other.
      [launch_perm] shows that the order does not matter for kernels that
      touch only their own slice.
    - Modules [P2x64] and [P4] hold the three round cores.  Each has the
      source's in-place body ([*_round_buf]), its lane-level reading
      ([round*]), the inverse, and the kernel ([philox*_kernel]). *)

From Stdlib Require Import ZArith Lia.
From stdpp Require Import base list.
From S2P Require Import Prelude Word.

Local Open Scope Z_scope.
Local Open Scope word_scope.

(** ** The keyed-round interface *)

Record keyed_round (K St : Type) := {
  kr_round : K -> St -> St;
  kr_unround : K -> St -> St;
  kr_bump : K -> K;
  kr_state_ok : St -> Prop;
  kr_key_ok : K -> Prop;
}.
Arguments kr_round {K St}.
Arguments kr_unround {K St}.
Arguments kr_bump {K St}.
Arguments kr_state_ok {K St}.
Arguments kr_key_ok {K St}.

(** The laws a round must satisfy: it keeps states well formed, and
    [kr_unround] inverts it on well-formed states under a well-formed
    key. *)
Record keyed_round_laws {K St} (R : keyed_round K St) : Prop := {
  law_round_ok k s : R.(kr_key_ok) k -> R.(kr_state_ok) s -> R.(kr_state_ok) (R.(kr_round) k s);
  law_unround_ok k s : R.(kr_key_ok) k -> R.(kr_state_ok) s -> R.(kr_state_ok) (R.(kr_unround) k s);
  law_bump_ok k : R.(kr_key_ok) k -> R.(kr_key_ok) (R.(kr_bump) k);
  law_unround_round k s : R.(kr_key_ok) k -> R.(kr_state_ok) s -> R.(kr_unround) k (R.(kr_round) k s) = s;
  law_round_unround k s : R.(kr_key_ok) k -> R.(kr_state_ok) s -> R.(kr_round) k (R.(kr_unround) k s) = s;
}.

Section Rounds.
Context {K St : Type} (R : keyed_round K St).

(** [n] rounds; the key is bumped after each round, as at the end of
    the loop body. *)
Fixpoint rounds (n : nat) (k : K) (s : St) : St :=
  match n with
  | O => s
  | S n => rounds n (R.(kr_bump) k) (R.(kr_round) k s)
  end.

(** The inverse: undo the last round first. *)
Fixpoint unrounds (n : nat) (k : K) (s : St) : St :=
  match n with
  | O => s
  | S n => R.(kr_unround) k (unrounds n (R.(kr_bump) k) s)
  end.

Context (HR : keyed_round_laws R).

Lemma rounds_ok n k s :
  R.(kr_key_ok) k -> R.(kr_state_ok) s -> R.(kr_state_ok) (rounds n k s).
Proof.
  revert k s; induction n as [|n IH]; intros k s Hk Hs; simpl; [done|].
  apply IH; [by apply HR | by apply HR].
Qed.

Lemma unrounds_ok n k s :
  R.(kr_key_ok) k -> R.(kr_state_ok) s -> R.(kr_state_ok) (unrounds n k s).
Proof.
  revert k s; induction n as [|n IH]; intros k s Hk Hs; simpl; [done|].
  apply HR; [done|]. apply IH; [by apply HR | done].
Qed.

Lemma unrounds_rounds n k s :
  R.(kr_key_ok) k -> R.(kr_state_ok) s -> unrounds n k (rounds n k s) = s.
Proof.
  revert k s; induction n as [|n IH]; intros k s Hk Hs; simpl; [done|].
  rewrite IH; [by apply HR | by apply HR | by apply HR].
Qed.

Lemma rounds_unrounds n k s :
  R.(kr_key_ok) k -> R.(kr_state_ok) s -> rounds n k (unrounds n k s) = s.
Proof.
  revert k s; induction n as [|n IH]; intros k s Hk Hs; simpl; [done|].
  rewrite (law_round_unround _ HR); [| done | apply unrounds_ok; by try apply HR].
  apply IH; [by apply HR | done].
Qed.

Lemma rounds_inj n k s s' :
  R.(kr_key_ok) k -> R.(kr_state_ok) s -> R.(kr_state_ok) s' ->
  rounds n k s = rounds n k s' -> s = s'.
Proof.
  intros Hk Hs Hs' E.
  rewrite <- (unrounds_rounds n k s), <- (unrounds_rounds n k s'); congruence.
Qed.
End Rounds.

(** ** Slices of the state buffer as lane records *)

Record lane_codec (St : Type) := {
  lc_n : nat;
  lc_to : St -> list Z;
  lc_of : list Z -> St;
  lc_len s : length (lc_to s) = lc_n;
  lc_of_to s : lc_of (lc_to s) = s;
  lc_to_of l : length l = lc_n -> lc_to (lc_of l) = l;
}.
Arguments lc_n {St}.
Arguments lc_to {St}.
Arguments lc_of {St}.

Section Codec.
Context {St : Type} (C : lane_codec St).

(** Thread state at [base]: [src[base .. base+n)]. *)
Definition get_lanes (base : nat) (src : list Z) : St :=
  C.(lc_of) (slice base C.(lc_n) src).
Definition put_lanes (base : nat) (s : St) (src : list Z) : list Z :=
  splice base (C.(lc_to) s) src.

Lemma length_put_lanes base s src : length (put_lanes base s src) = length src.
Proof. apply length_splice. Qed.

Lemma get_put_lanes base s src :
  (base + C.(lc_n) <= length src)%nat -> get_lanes base (put_lanes base s src) = s.
Proof.
  intros H. unfold get_lanes, put_lanes. rewrite <- (lc_len _ C s), slice_splice.
  - apply lc_of_to.
  - by rewrite lc_len.
Qed.

Lemma put_put_lanes base s s' src :
  put_lanes base s' (put_lanes base s src) = put_lanes base s' src.
Proof. unfold put_lanes. apply splice_splice. by rewrite !lc_len. Qed.

Lemma put_lanes_lookup base s src i :
  (base + C.(lc_n) <= length src)%nat -> (i < C.(lc_n))%nat ->
  put_lanes base s src !!! (base + i)%nat = C.(lc_to) s !!! i.
Proof.
  intros H1 H2. apply lookup_total_splice_in; [lia|]. by rewrite lc_len.
Qed.

Lemma put_lanes_lookup0 base s src :
  (base + C.(lc_n) <= length src)%nat -> (0 < C.(lc_n))%nat ->
  put_lanes base s src !!! base = C.(lc_to) s !!! 0%nat.
Proof. intros. rewrite <- (put_lanes_lookup base s src 0) by done. by rewrite Nat.add_0_r. Qed.

Lemma Forall_put_lanes (P : Z -> Prop) base s src :
  Forall P src -> Forall P (C.(lc_to) s) -> Forall P (put_lanes base s src).
Proof. intros. by apply Forall_inserts. Qed.

Lemma Forall_get_lanes (P : Z -> Prop) base src :
  (base + C.(lc_n) <= length src)%nat ->
  Forall P src -> Forall P (C.(lc_to) (get_lanes base src)).
Proof.
  intros Hlen HP. unfold get_lanes. rewrite lc_to_of by (by apply length_slice).
  unfold slice. by apply Forall_take, Forall_drop.
Qed.
End Codec.

(** ** The kernel loop [for(int i = 0;i<10;i++){ body; key += C; }] *)

Fixpoint kernel_loop {K : Type} (body : K -> list Z -> list Z) (next : K -> K)
    (i : nat) (k : K) (src : list Z) : list Z :=
  match i with
  | O => src
  | S i => kernel_loop body next i (next k) (body k src)
  end.

Section LoopRefinement.
Context {K St : Type} (R : keyed_round K St) (C : lane_codec St).
Context (body : nat -> K -> list Z -> list Z).

(** One in-place round body refines one lane-level round. *)
Definition body_refines : Prop :=
  forall base k src, (base + C.(lc_n) <= length src)%nat ->
    body base k src = put_lanes C base (R.(kr_round) k (get_lanes C base src)) src.

Lemma kernel_loop_spec (Hbody : body_refines) i base k src :
  (base + C.(lc_n) <= length src)%nat ->
  kernel_loop (body base) R.(kr_bump) i k src =
    put_lanes C base (rounds R i k (get_lanes C base src)) src.
Proof.
  revert k src; induction i as [|i IH]; intros k src Hlen; simpl.
  - unfold put_lanes, get_lanes. rewrite lc_to_of by (by apply length_slice).
    by rewrite splice_slice.
  - rewrite Hbody by done. rewrite IH by (by rewrite length_put_lanes).
    by rewrite get_put_lanes, put_put_lanes.
Qed.
End LoopRefinement.

(** ** Launching a kernel over an NDRange

    The GPU runs the threads of a launch concurrently.  [launch] runs
    them one after another in the order [xs].  When each thread reads and
    writes only its own slice, every order gives the same buffer
    ([launch_perm]). *)

Definition launch (kernel : nat -> list Z -> list Z) (xs : list nat) (src : list Z) : list Z :=
  foldl (fun s x => kernel x s) src xs.

Section Launch.
Context {St : Type} (C : lane_codec St).
Context (F : nat -> St -> St) (kernel : nat -> list Z -> list Z).

Definition fits (src : list Z) (x : nat) : Prop :=
  (x * C.(lc_n) + C.(lc_n) <= length src)%nat.

(** Thread [x] replaces its slice [x*n .. x*n+n) by [F x] of it. *)
Definition slice_local : Prop :=
  forall x src, fits src x ->
    kernel x src = put_lanes C (x * C.(lc_n)) (F x (get_lanes C (x * C.(lc_n)) src)) src.

Context (Hloc : slice_local).

Lemma get_put_lanes_other base base' s src :
  (base' + C.(lc_n) <= base \/ base + C.(lc_n) <= base')%nat ->
  get_lanes C base' (put_lanes C base s src) = get_lanes C base' src.
Proof.
  intros Hd. unfold get_lanes, put_lanes. rewrite slice_splice_other; [done|].
  by rewrite lc_len.
Qed.

Lemma kernel_length x src : fits src x -> length (kernel x src) = length src.
Proof. intros H. rewrite Hloc by done. apply length_put_lanes. Qed.

Lemma kernel_outside x src j :
  fits src x -> (j < x * C.(lc_n) \/ x * C.(lc_n) + C.(lc_n) <= j)%nat ->
  kernel x src !! j = src !! j.
Proof. intros H Hj. rewrite Hloc by done. apply splice_outside. by rewrite lc_len. Qed.

(** A property of single cells that [F] preserves on a thread's lanes
    holds of the whole buffer after the thread runs. *)
Lemma kernel_Forall (P : Z -> Prop) x src :
  (forall s, Forall P (C.(lc_to) s) -> Forall P (C.(lc_to) (F x s))) ->
  fits src x -> Forall P src -> Forall P (kernel x src).
Proof.
  intros HF Hfit HP. rewrite Hloc by done.
  apply Forall_put_lanes; [done|]. apply HF, Forall_get_lanes; [|done]. apply Hfit.
Qed.

Lemma kernel_comm x y src :
  fits src x -> fits src y -> kernel x (kernel y src) = kernel y (kernel x src).
Proof.
  intros Hx Hy. destruct (decide (x = y)) as [->|Hxy]; [done|].
  assert (Hd : forall a b, a <> b ->
    (a * C.(lc_n) + C.(lc_n) <= b * C.(lc_n) \/ b * C.(lc_n) + C.(lc_n) <= a * C.(lc_n))%nat).
  { intros a b Hab. destruct (decide (a < b)%nat); [left|right]; nia. }
  rewrite (Hloc y src), (Hloc x src) by done.
  rewrite !Hloc by (unfold fits; by rewrite length_put_lanes).
  rewrite !get_put_lanes_other by (apply Hd; congruence).
  unfold put_lanes. apply splice_comm. rewrite !lc_len. by apply Hd.
Qed.

Lemma launch_perm xs ys src :
  Forall (fits src) xs -> xs ≡ₚ ys -> launch kernel xs src = launch kernel ys src.
Proof.
  intros Hfit Hp. revert src Hfit.
  induction Hp as [|x l l' _ IH|x y l|l l' l'' Hp1 IH1 _ IH2]; intros src Hfit; simpl.
  - done.
  - apply Forall_cons in Hfit as [Hx Hl]. apply IH.
    eapply Forall_impl; [done|]. intros z. unfold fits. by rewrite kernel_length.
  - apply Forall_cons in Hfit as [Hy Hfit]. apply Forall_cons in Hfit as [Hx _].
    by rewrite kernel_comm.
  - rewrite IH1 by done. apply IH2. by rewrite <- Hp1.
Qed.
End Launch.

(** ** [random!(philox2x64_10)]: two [ulong] lanes (kernels.rs 55-67) *)

Module P2x64.
Record lanes := Lanes { s0 : Z; s1 : Z }.

(** [const uint l = 2;], [const ulong M = 0xD2B74407B1CE6E93;] and the
    key increment [0x9E3779B97F4A7C15]. *)
Definition l : nat := 2.
Definition M : Z := 0xD2B74407B1CE6E93.
Definition W : Z := 0x9E3779B97F4A7C15.

(** [key += 0x9E3779B97F4A7C15;] *)
Definition bump (key : Z) : Z := add 64 key W.

(** The loop body read as one simultaneous update of the two lanes. *)
Definition round (key : Z) (s : lanes) : lanes :=
  Lanes (mul_hi 64 M (s0 s) ⊕ key ⊕ s1 s) (mul 64 M (s0 s)).

(** Its inverse: lane 0 from the low product, then lane 1 by
    unmasking. *)
Definition unround (key : Z) (s : lanes) : lanes :=
  let x0 := mul 64 (mul_inv 64 M) (s1 s) in
  Lanes x0 (mul_hi 64 M x0 ⊕ key ⊕ s0 s).

Definition R : keyed_round Z lanes := {|
  kr_round := round; kr_unround := unround; kr_bump := bump;
  kr_state_ok s := word 64 (s0 s) /\ word 64 (s1 s);
  kr_key_ok := word 64;
|}.

Lemma M_inv : (mul_inv 64 M * M) mod 2 ^ 64 = 1.
Proof. vm_compute. reflexivity. Qed.

Lemma M_word : word 64 M.
Proof. unfold word, M. lia. Qed.
#[local] Hint Resolve M_word : word_range.

Lemma M_inv' : (M * mul_inv 64 M) mod 2 ^ 64 = 1.
Proof. rewrite Z.mul_comm. apply M_inv. Qed.

Lemma R2x64_laws : keyed_round_laws R.
Proof.
  split; cbn [kr_round kr_unround kr_state_ok kr_key_ok kr_bump R];
    [| | intros k Hk; unfold bump; word_range | |];
    intros k [a b] Hk [Ha Hb]; unfold round, unround; cbn [s0 s1].
  - split; word_range.
  - split; word_range.
  - rewrite (mul_inv_cancel 64) by (lia || apply M_inv || done).
    by rewrite lxor_cancel_l.
  - rewrite (mul_inv_cancel 64) by (lia || apply M_inv' || done).
    by rewrite lxor_cancel_l.
Qed.

Definition codec : lane_codec lanes.
Proof.
  refine {| lc_n := l; lc_to s := [s0 s; s1 s]; lc_of v := Lanes (v !!! 0%nat) (v !!! 1%nat) |}.
  - done.
  - by intros [].
  - intros [|a [|b [|c v]]] Hv; by simplify_eq/=.
Defined.

(** kernels.rs 60-63, in place: both products read [src[x*l+0]] before
    it is overwritten; the new lane 0 reads the old [src[x*l+1]]. *)
Definition round_buf (base : nat) (key : Z) (src : list Z) : list Z :=
  let hi := mul_hi 64 M (src !!! base) in
  let lo := mul 64 M (src !!! base) in
  let src := <[base := hi ⊕ key ⊕ src !!! (base + 1)%nat]> src in
  <[(base + 1)%nat := lo]> src.

(** kernels.rs 56-66 for thread [x]: [ulong key = x;] then ten rounds. *)
Definition kernel (x : nat) (src : list Z) : list Z :=
  kernel_loop (round_buf (x * l)) bump 10 (wrap 64 (Z.of_nat x)) src.

Lemma state2_ok_Forall s : kr_state_ok R s <-> Forall (word 64) (lc_to codec s).
Proof. destruct s. cbn. rewrite !Forall_cons. naive_solver. Qed.

Lemma round_buf2_refines : body_refines R codec round_buf.
Proof.
  intros base k src Hlen. cbn [lc_n codec] in Hlen |- *. unfold l in *.
  unfold round_buf, put_lanes, get_lanes. cbn [lc_to lc_of lc_n codec R kr_round round s0 s1]. unfold l.
  rewrite !lookup_total_slice by lia. rewrite Nat.add_0_r.
  buffer_ext; lane_cases.
Qed.

(** The thread's key: [ulong key = x;]. *)
Definition key_of (x : nat) : Z := wrap 64 (Z.of_nat x).

(** The permutation a thread applies to its two state words. *)
Definition philox (x : nat) (s : lanes) : lanes := rounds R 10 (key_of x) s.

Lemma kernel2x64_local : slice_local codec philox kernel.
Proof.
  intros x src Hfit. apply (kernel_loop_spec R codec round_buf round_buf2_refines).
  exact Hfit.
Qed.
End P2x64.

(** ** The four-lane round shared by [philox4x32_10] and [philox4x64_10]

    The two arms of the macro have the same text up to the width of
    [uint]/[ulong] and the constants (kernels.rs 36-52 and 69-85).
    Both are instances of the definitions below, at [w = 32] and
    [w = 64]. *)

Module P4.
Record lanes := Lanes { s0 : Z; s1 : Z; s2 : Z; s3 : Z }.

Definition l : nat := 4.

Section Width.
Context (w M M2 C0 C1 : Z).

(** [key[0] += C0; key[1] += C1;] *)
Definition bump (key : Z * Z) : Z * Z :=
  (add w key.1 C0, add w key.2 C1).

(** The loop body read as one simultaneous update.  As in the text,
    [hi1] multiplies lane 2 by [M], while [lo1] multiplies it by
    [M2]. *)
Definition round (key : Z * Z) (s : lanes) : lanes :=
  let hi0 := mul_hi w M (s0 s) in
  let lo0 := mul w M (s0 s) in
  let hi1 := mul_hi w M (s2 s) in
  let lo1 := mul w M2 (s2 s) in
  Lanes (hi1 ⊕ key.2 ⊕ s3 s) lo0 (hi0 ⊕ key.1 ⊕ s1 s) lo1.

Definition unround (key : Z * Z) (s : lanes) : lanes :=
  let x0 := mul w (mul_inv w M) (s1 s) in
  let x2 := mul w (mul_inv w M2) (s3 s) in
  Lanes x0 (mul_hi w M x0 ⊕ key.1 ⊕ s2 s) x2 (mul_hi w M x2 ⊕ key.2 ⊕ s0 s).

Definition R : keyed_round (Z * Z) lanes := {|
  kr_round := round; kr_unround := unround; kr_bump := bump;
  kr_state_ok s := word w (s0 s) /\ word w (s1 s) /\ word w (s2 s) /\ word w (s3 s);
  kr_key_ok k := word w k.1 /\ word w k.2;
|}.

(** kernels.rs 41-50 (and 74-83), in place: the four products read
    the old lanes 0 and 2; the new lane 0 reads the old lane 3 and
    the new lane 2 reads the old lane 1, because lanes 1 and 3 are
    written last. *)
Definition round_buf (base : nat) (key : Z * Z) (src : list Z) : list Z :=
  let hi0 := mul_hi w M (src !!! base) in
  let lo0 := mul w M (src !!! base) in
  let hi1 := mul_hi w M (src !!! (base + 2)%nat) in
  let lo1 := mul w M2 (src !!! (base + 2)%nat) in
  let src := <[base := hi1 ⊕ key.2 ⊕ src !!! (base + 3)%nat]> src in
  let src := <[(base + 2)%nat := hi0 ⊕ key.1 ⊕ src !!! (base + 1)%nat]> src in
  let src := <[(base + 1)%nat := lo0]> src in
  <[(base + 3)%nat := lo1]> src.

Context (Hw : 0 < w) (HM : word w M) (HM2 : word w M2).
Context (HMi : (mul_inv w M * M) mod 2 ^ w = 1).
Context (HM2i : (mul_inv w M2 * M2) mod 2 ^ w = 1).
#[local] Hint Resolve HM HM2 : word_range.

Lemma R4_laws : keyed_round_laws R.
Proof.
  assert (HMi' : (M * mul_inv w M) mod 2 ^ w = 1) by (by rewrite Z.mul_comm).
  assert (HM2i' : (M2 * mul_inv w M2) mod 2 ^ w = 1) by (by rewrite Z.mul_comm).
  split; cbn [kr_round kr_unround kr_state_ok kr_key_ok kr_bump R];
    [| | intros k [Hk0 Hk1]; unfold bump; split; word_range | |];
    intros [k0 k1] [a b c d] [Hk0 Hk1] (Ha & Hb & Hc & Hd);
    unfold round, unround; cbn [s0 s1 s2 s3 fst snd] in *.
  - split_words; word_range.
  - split_words; word_range.
  - rewrite !(mul_inv_cancel w) by done. by rewrite !lxor_cancel_l.
  - rewrite !(mul_inv_cancel w) by done. by rewrite !lxor_cancel_l.
Qed.
End Width.

Definition codec : lane_codec lanes.
Proof.
  refine {| lc_n := l; lc_to s := [s0 s; s1 s; s2 s; s3 s];
            lc_of v := Lanes (v !!! 0%nat) (v !!! 1%nat) (v !!! 2%nat) (v !!! 3%nat) |}.
  - done.
  - by intros [].
  - intros [|a [|b [|c [|d [|e v]]]]] Hv; by simplify_eq/=.
Defined.

Lemma state4_ok_Forall w M M2 C0 C1 s :
  kr_state_ok (R w M M2 C0 C1) s <-> Forall (word w) (lc_to codec s).
Proof. destruct s. cbn. rewrite !Forall_cons. naive_solver. Qed.

Lemma round_buf4_refines w M M2 C0 C1 :
  body_refines (R w M M2 C0 C1) codec (round_buf w M M2).
Proof.
  intros base k src Hlen. cbn [lc_n codec] in Hlen |- *. unfold l in *.
  unfold round_buf, put_lanes, get_lanes.
  cbn [lc_to lc_of lc_n codec R kr_round round s0 s1 s2 s3]. unfold l.
  rewrite !lookup_total_slice by lia. rewrite Nat.add_0_r.
  rewrite !list_lookup_total_insert_ne by lia.
  buffer_ext; lane_cases.
Qed.
End P4.

(** ** [random!(philox4x32_10)] (kernels.rs 35-53) *)

Module P4x32.
(** [const uint M = 0xD2511F53;], [const uint M2 = 0xCD9E8D57;] and the
    key increments. *)
Definition M : Z := 0xD2511F53.
Definition M2 : Z := 0xCD9E8D57.
Definition C0 : Z := 0x9E3779B9.
Definition C1 : Z := 0xBB67AE85.

Definition R : keyed_round (Z * Z) P4.lanes := P4.R 32 M M2 C0 C1.

Lemma R4x32_laws : keyed_round_laws R.
Proof.
  apply P4.R4_laws; unfold word, M, M2; try lia; vm_compute; reflexivity.
Qed.

(** [uint key[2] = {x>>32,x};]: both halves truncated to [uint]. *)
Definition key_of (x : nat) : Z * Z :=
  (wrap 32 (Z.shiftr (Z.of_nat x) 32), wrap 32 (Z.of_nat x)).

Definition kernel (x : nat) (src : list Z) : list Z :=
  kernel_loop (P4.round_buf 32 M M2 (x * P4.l)) (P4.bump 32 C0 C1) 10 (key_of x) src.

Definition philox (x : nat) (s : P4.lanes) : P4.lanes := rounds R 10 (key_of x) s.

Lemma kernel4x32_local : slice_local P4.codec philox kernel.
Proof.
  intros x src Hfit.
  apply (kernel_loop_spec R P4.codec _ (P4.round_buf4_refines _ _ _ _ _)). exact Hfit.
Qed.
End P4x32.

(** ** [random!(philox4x64_10)] (kernels.rs 68-86) *)

Module P4x64.
Definition M : Z := 0xD2B74407B1CE6E93.
Definition M2 : Z := 0xCA5A826395121157.
Definition C0 : Z := 0x9E3779B97F4A7C15.
Definition C1 : Z := 0xBB67AE8584CAA73B.

Definition R : keyed_round (Z * Z) P4.lanes := P4.R 64 M M2 C0 C1.

Lemma R4x64_laws : keyed_round_laws R.
Proof.
  apply P4.R4_laws; unfold word, M, M2; try lia; vm_compute; reflexivity.
Qed.

(** [ulong key[2] = {0,x};] *)
Definition key_of (x : nat) : Z * Z := (0, wrap 64 (Z.of_nat x)).

Definition kernel (x : nat) (src : list Z) : list Z :=
  kernel_loop (P4.round_buf 64 M M2 (x * P4.l)) (P4.bump 64 C0 C1) 10 (key_of x) src.

Definition philox (x : nat) (s : P4.lanes) : P4.lanes := rounds R 10 (key_of x) s.

Lemma kernel4x64_local : slice_local P4.codec philox kernel.
Proof.
  intros x src Hfit.
  apply (kernel_loop_spec R P4.codec _ (P4.round_buf4_refines _ _ _ _ _)). exact Hfit.
Qed.
End P4x64.

(** ** Properties of the three kernels *)

Lemma key_ok_4x32 x : kr_key_ok P4x32.R (P4x32.key_of x).
Proof. split; apply word_wrap; lia. Qed.

Lemma key_ok_4x64 x : kr_key_ok P4x64.R (P4x64.key_of x).
Proof. split; [cbn; unfold word; lia | apply word_wrap; lia]. Qed.

Lemma key_ok_2x64 x : kr_key_ok P2x64.R (P2x64.key_of x).
Proof. apply word_wrap. lia. Qed.

(** C1. The in-place [philox4x32_10] body run by thread [x] replaces the
    four state words [src[4x .. 4x+4)] by the ten-round Philox-4x32
    permutation of them under the thread's key; every other cell of
    [src] is unchanged. *)
Theorem philox4x32_kernel_refines x src :
  (x * 4 + 4 <= length src)%nat ->
  P4x32.kernel x src =
    put_lanes P4.codec (x * 4) (P4x32.philox x (get_lanes P4.codec (x * 4) src)) src.
Proof. intros H. by apply P4x32.kernel4x32_local. Qed.

Lemma philox4x32_kernel_refines_witness :
  (1 * 4 + 4 <= length [1; 2; 3; 4; 5; 6; 7; 8; 9])%nat /\
  P4x32.kernel 1 [1; 2; 3; 4; 5; 6; 7; 8; 9] =
    put_lanes P4.codec 4 (P4x32.philox 1 (get_lanes P4.codec 4 [1; 2; 3; 4; 5; 6; 7; 8; 9]))
      [1; 2; 3; 4; 5; 6; 7; 8; 9].
Proof. split; [simpl; lia | apply (philox4x32_kernel_refines 1); simpl; lia]. Defined.

(** C2. The same for [philox2x64_10]: thread [x] permutes [src[2x],
    src[2x+1]] by ten Philox-2x64 rounds keyed by [x]. *)
Theorem philox2x64_kernel_refines x src :
  (x * 2 + 2 <= length src)%nat ->
  P2x64.kernel x src =
    put_lanes P2x64.codec (x * 2) (P2x64.philox x (get_lanes P2x64.codec (x * 2) src)) src.
Proof. intros H. by apply P2x64.kernel2x64_local. Qed.

Lemma philox2x64_kernel_refines_witness :
  (1 * 2 + 2 <= length [7; 8; 9; 10])%nat /\
  P2x64.kernel 1 [7; 8; 9; 10] =
    put_lanes P2x64.codec 2 (P2x64.philox 1 (get_lanes P2x64.codec 2 [7; 8; 9; 10])) [7; 8; 9; 10].
Proof. split; [simpl; lia | apply (philox2x64_kernel_refines 1); simpl; lia]. Defined.

(** C3. The same for [philox4x64_10]. *)
Theorem philox4x64_kernel_refines x src :
  (x * 4 + 4 <= length src)%nat ->
  P4x64.kernel x src =
    put_lanes P4.codec (x * 4) (P4x64.philox x (get_lanes P4.codec (x * 4) src)) src.
Proof. intros H. by apply P4x64.kernel4x64_local. Qed.

Lemma philox4x64_kernel_refines_witness :
  (0 * 4 + 4 <= length [1; 2; 3; 4])%nat /\
  P4x64.kernel 0 [1; 2; 3; 4] =
    put_lanes P4.codec 0 (P4x64.philox 0 (get_lanes P4.codec 0 [1; 2; 3; 4])) [1; 2; 3; 4].
Proof. split; [simpl; lia | apply (philox4x64_kernel_refines 0); simpl; lia]. Defined.


(** A kernel preserves the cell type of its buffer: if every cell is a
    word, every cell stays a word. *)
Lemma kernel_words {K St} (R : keyed_round K St) (HR : keyed_round_laws R)
    (C : lane_codec St) (w : Z) (key : nat -> K) kernel x src :
  (forall s, kr_state_ok R s <-> Forall (word w) (lc_to C s)) ->
  (forall x, kr_key_ok R (key x)) ->
  slice_local C (fun x => rounds R 10 (key x)) kernel ->
  fits C src x -> Forall (word w) src -> Forall (word w) (kernel x src).
Proof.
  intros Hok Hkey Hloc. apply (kernel_Forall C _ _ Hloc). intros s Hs.
  apply Hok, rounds_ok; [done | done | by apply Hok].
Qed.

(** Each variant keeps the length of the buffer. *)
Lemma kernel4x32_length x src :
  (x * 4 + 4 <= length src)%nat -> length (P4x32.kernel x src) = length src.
Proof.
  intros. apply (kernel_length P4.codec _ _ P4x32.kernel4x32_local). unfold fits. cbn. unfold P4.l. lia.
Qed.

Lemma kernel4x64_length x src :
  (x * 4 + 4 <= length src)%nat -> length (P4x64.kernel x src) = length src.
Proof.
  intros. apply (kernel_length P4.codec _ _ P4x64.kernel4x64_local). unfold fits. cbn. unfold P4.l. lia.
Qed.

Lemma kernel2x64_length x src :
  (x * 2 + 2 <= length src)%nat -> length (P2x64.kernel x src) = length src.
Proof.
  intros. apply (kernel_length P2x64.codec _ _ P2x64.kernel2x64_local). unfold fits. cbn. unfold P2x64.l. lia.
Qed.

(** Each variant keeps its cells words of its lane width. *)
Lemma kernel4x32_words x src :
  (x * 4 + 4 <= length src)%nat -> Forall (word 32) src -> Forall (word 32) (P4x32.kernel x src).
Proof.
  intros Hlen. apply (kernel_words P4x32.R P4x32.R4x32_laws P4.codec 32 P4x32.key_of);
    [apply P4.state4_ok_Forall | apply key_ok_4x32 | apply P4x32.kernel4x32_local | done].
Qed.

Lemma kernel4x64_words x src :
  (x * 4 + 4 <= length src)%nat -> Forall (word 64) src -> Forall (word 64) (P4x64.kernel x src).
Proof.
  intros Hlen. apply (kernel_words P4x64.R P4x64.R4x64_laws P4.codec 64 P4x64.key_of);
    [apply P4.state4_ok_Forall | apply key_ok_4x64 | apply P4x64.kernel4x64_local | done].
Qed.

Lemma kernel2x64_words x src :
  (x * 2 + 2 <= length src)%nat -> Forall (word 64) src -> Forall (word 64) (P2x64.kernel x src).
Proof.
  intros Hlen. apply (kernel_words P2x64.R P2x64.R2x64_laws P2x64.codec 64 P2x64.key_of);
    [apply P2x64.state2_ok_Forall | apply key_ok_2x64 | apply P2x64.kernel2x64_local |].
  unfold fits. cbn. unfold P2x64.l. lia.
Qed.



(** C4. Launch-order independence: the threads of a launch write
    disjoint slices, so running them in the order [xs] or in any
    permutation [ys] of it gives the same buffer, for each of the three
    kernels, whenever each thread's slice ([4x .. 4x+4) for the 4-lane
    kernels, [2x .. 2x+2) for 2x64) lies in the buffer. *)
Theorem philox_launch_order_independent xs ys src :
  xs ≡ₚ ys ->
  (Forall (fun x => x * 4 + 4 <= length src)%nat xs ->
   launch P4x32.kernel xs src = launch P4x32.kernel ys src /\
   launch P4x64.kernel xs src = launch P4x64.kernel ys src) /\
  (Forall (fun x => x * 2 + 2 <= length src)%nat xs ->
   launch P2x64.kernel xs src = launch P2x64.kernel ys src).
Proof.
  intros Hp. split; [intros Hfit; split|intros Hfit].
  - by apply (launch_perm P4.codec _ _ P4x32.kernel4x32_local).
  - by apply (launch_perm P4.codec _ _ P4x64.kernel4x64_local).
  - apply (launch_perm P2x64.codec _ _ P2x64.kernel2x64_local); [|done].
    eapply Forall_impl; [done|]. intros x. unfold fits. cbn. unfold P2x64.l. lia.
Qed.

Lemma philox_launch_order_independent_witness :
  let src := map Z.of_nat (seq 0 8) in
  [0; 1; 2; 3]%nat ≡ₚ [3; 2; 1; 0]%nat /\
  Forall (fun x => x * 2 + 2 <= length src)%nat [0; 1; 2; 3]%nat /\
  launch P2x64.kernel [0; 1; 2; 3]%nat src = launch P2x64.kernel [3; 2; 1; 0]%nat src.
Proof.
  intros src.
  assert (Hp : [0; 1; 2; 3]%nat ≡ₚ [3; 2; 1; 0]%nat) by (apply Permutation_rev).
  assert (Hf : Forall (fun x => x * 2 + 2 <= length src)%nat [0; 1; 2; 3]%nat)
    by (repeat constructor; simpl; lia).
  split; [exact Hp|]. split; [exact Hf|].
  exact (proj2 (philox_launch_order_independent _ _ src Hp) Hf).
Defined.

(** C5. Each kernel's ten rounds form a bijection on the states of
    its own lane width: for every thread [x], [unrounds] under [x]'s key
    undoes [philox x], and [philox x] undoes [unrounds], on states of
    four [uint]s (4x32), four [ulong]s (4x64) and two [ulong]s (2x64). *)
Theorem philox_bijective x (s32 s64 : P4.lanes) (t : P2x64.lanes) :
  kr_state_ok P4x32.R s32 -> kr_state_ok P4x64.R s64 -> kr_state_ok P2x64.R t ->
  unrounds P4x32.R 10 (P4x32.key_of x) (P4x32.philox x s32) = s32 /\
  P4x32.philox x (unrounds P4x32.R 10 (P4x32.key_of x) s32) = s32 /\
  unrounds P4x64.R 10 (P4x64.key_of x) (P4x64.philox x s64) = s64 /\
  P4x64.philox x (unrounds P4x64.R 10 (P4x64.key_of x) s64) = s64 /\
  unrounds P2x64.R 10 (P2x64.key_of x) (P2x64.philox x t) = t /\
  P2x64.philox x (unrounds P2x64.R 10 (P2x64.key_of x) t) = t.
Proof.
  intros H32 H64 H2.
  pose proof (key_ok_4x32 x). pose proof (key_ok_4x64 x). pose proof (key_ok_2x64 x).
  split_and!.
  - by apply (unrounds_rounds P4x32.R P4x32.R4x32_laws).
  - by apply (rounds_unrounds P4x32.R P4x32.R4x32_laws).
  - by apply (unrounds_rounds P4x64.R P4x64.R4x64_laws).
  - by apply (rounds_unrounds P4x64.R P4x64.R4x64_laws).
  - by apply (unrounds_rounds P2x64.R P2x64.R2x64_laws).
  - by apply (rounds_unrounds P2x64.R P2x64.R2x64_laws).
Qed.

Lemma philox_bijective_witness :
  let s32 := P4.Lanes 1 2 3 4 in
  let s64 := P4.Lanes 1712345678901 (2 ^ 64 - 1) (2 ^ 40) 7 in
  let t := P2x64.Lanes 1712345678901 (2 ^ 63) in
  kr_state_ok P4x32.R s32 /\ kr_state_ok P4x64.R s64 /\ kr_state_ok P2x64.R t /\
  unrounds P4x64.R 10 (P4x64.key_of 3) (P4x64.philox 3 s64) = s64 /\
  unrounds P2x64.R 10 (P2x64.key_of 3) (P2x64.philox 3 t) = t.
Proof.
  intros s32 s64 t.
  assert (A : kr_state_ok P4x32.R s32) by (cbn; unfold word; lia).
  assert (B : kr_state_ok P4x64.R s64) by (cbn; unfold word; lia).
  assert (D : kr_state_ok P2x64.R t) by (cbn; unfold word; lia).
  destruct (philox_bijective 3 s32 s64 t A B D) as (_ & _ & E64 & _ & E2 & _).
  split_and!; [exact A | exact B | exact D | exact E64 | exact E2].
Defined.

