(* ===== verification/Transforms.v ===== *)
(** * The output suffixes of the Philox kernels (kernels.rs 101-173)

    [random!(name, suffix)] is [concat!(random!(name), suffix)].  The
    kernel first runs the round core on [src] in place, then runs the
    suffix, which reads the new [src] and writes [dst].  Here the
    concatenation is the sequential composition of the two buffer
    functions.

    - The unit suffix computes [(double)(w>>11)/(1l << 53)].  Here
      [w>>11 < 2^53] is exact in a double and the division by a power of
      two is exact too.  So the double is exactly the rational
      [(w>>11)/2^53]: [to_unit] gives it as a [Q].
    - The 4x32 suffixes first rebuild a 64-bit value from two [uint]
      lanes, [(((ulong)a)<<32)+b] ([join32]).
    - The normal suffix is the Box-Muller transform
      [sqrt(-2*log(u1))*cos(2*M_PI*u2)] and its [sin] twin.  It is
      written against [float_ops], a record of the double operations the
      text uses, so it is modelled exactly as written, whatever the
      arithmetic.
    - Loops [for(uint i = 0;i<l;i++)] and [for(uint i = 0;i<l;i+=2)] are
      [for_up] with fuel [l], enough by [for_up_enough].

    The theorems give each kernel's effect on [dst] as a splice of its
    outputs.  This fixes which cells a thread writes and how many: [l]
    for the 64-bit variants, [l/2] for 4x32.  They also show that unit
    outputs lie in [0,1), and that for every thread of each normal
    kernel some seed buffer makes the kernel write
    [sqrt(-2*log(u1))*cos(2*M_PI*u2)] with [u1 = 0] into its first cell
    ([philox_seed] inverts the ten rounds to build that seed). *)

From Stdlib Require Import ZArith QArith Lia.
From stdpp Require Import base list.
From S2P Require Import Prelude Word Philox.

Local Open Scope Z_scope.

(** ** Scalar transforms *)

(** [(double)(w>>11)/(1l << 53)] *)
Definition to_unit (w : Z) : Q := Z.shiftr w 11 # Pos.pow 2 53.

(** [(((ulong)a)<<32)+b] on [ulong]. *)
Definition join32 (a b : Z) : Z := add 64 (wrap 64 (Z.shiftl a 32)) b.

(** The double operations of the Box-Muller lines. *)
Record float_ops (F : Type) := {
  f_of_Q : Q -> F;          (** the exact double [(w>>11)/2^53] *)
  f_lit : Z -> F;           (** an integer literal: [-2], [2] *)
  f_pi : F;                 (** [M_PI] *)
  f_mul : F -> F -> F;
  f_sqrt : F -> F;
  f_log : F -> F;
  f_cos : F -> F;
  f_sin : F -> F;
}.
Arguments f_of_Q {F}. Arguments f_lit {F}. Arguments f_pi {F}.
Arguments f_mul {F}. Arguments f_sqrt {F}. Arguments f_log {F}.
Arguments f_cos {F}. Arguments f_sin {F}.

Section BoxMuller.
Context {F : Type} (o : float_ops F).

(** [sqrt(-2*log(u1))] *)
Definition bm_radius (u1 : F) : F := o.(f_sqrt) (o.(f_mul) (o.(f_lit) (-2)) (o.(f_log) u1)).
(** [2*M_PI*u2] *)
Definition bm_angle (u2 : F) : F := o.(f_mul) (o.(f_mul) (o.(f_lit) 2) o.(f_pi)) u2.
Definition bm_cos (u1 u2 : F) : F := o.(f_mul) (bm_radius u1) (o.(f_cos) (bm_angle u2)).
Definition bm_sin (u1 u2 : F) : F := o.(f_mul) (bm_radius u1) (o.(f_sin) (bm_angle u2)).
End BoxMuller.

(** The free implementation: a double is the expression that computes
    it.  Running a normal kernel on it shows the formula each cell
    receives, and it computes by [vm_compute]. *)
Inductive fexpr :=
  | FQ (q : Q) | FLit (z : Z) | FPi | FMul (a b : fexpr)
  | FSqrt (a : fexpr) | FLog (a : fexpr) | FCos (a : fexpr) | FSin (a : fexpr).

Definition fexpr_ops : float_ops fexpr :=
  {| f_of_Q := FQ; f_lit := FLit; f_pi := FPi; f_mul := FMul;
     f_sqrt := FSqrt; f_log := FLog; f_cos := FCos; f_sin := FSin |}.

#[export] Instance fexpr_inhabited : Inhabited fexpr := populate (FLit 0).

(** ** The suffixes, on [dst] after the core has run on [src] *)

(** 64-bit unit suffix (lines 104-105, 130-131):
    [for(uint i = 0;i<l;i++) dst[x*l+i] = (double)(src[x*l+i]>>11)/(1l << 53);] *)
Definition unit64_suffix (l x : nat) (src : list Z) (dst : list Q) : list Q :=
  for_up l 0 l 1 (fun i dst => <[(x * l + i)%nat := to_unit (src !!! (x * l + i)%nat)]> dst) dst.

(** 4x32 unit suffix (lines 156-158), with [l2 = l/2]. *)
Definition unit32_suffix (l x : nat) (src : list Z) (dst : list Q) : list Q :=
  let l2 := (l / 2)%nat in
  for_up l2 0 l2 1
    (fun i dst =>
       <[(x * l2 + i)%nat :=
           to_unit (join32 (src !!! (x * l + i * 2)%nat) (src !!! (x * l + i * 2 + 1)%nat))]> dst)
    dst.

(** 64-bit normal suffix (lines 112-117, 138-143). *)
Definition normal64_suffix {F} (o : float_ops F) (l x : nat) (src : list Z) (dst : list F) : list F :=
  for_up l 0 l 2
    (fun i dst =>
       let u1 := o.(f_of_Q) (to_unit (src !!! (x * l + i)%nat)) in
       let u2 := o.(f_of_Q) (to_unit (src !!! (x * l + i + 1)%nat)) in
       let dst := <[(x * l + i)%nat := bm_cos o u1 u2]> dst in
       <[(x * l + i + 1)%nat := bm_sin o u1 u2]> dst)
    dst.

(** 4x32 normal suffix (lines 165-171): [i] steps by 2 below [l2], and
    [u1], [u2] are rebuilt from [src[x*l+i..x*l+i+3]]. *)
Definition normal32_suffix {F} (o : float_ops F) (l x : nat) (src : list Z) (dst : list F) : list F :=
  let l2 := (l / 2)%nat in
  for_up l2 0 l2 2
    (fun i dst =>
       let u1 := o.(f_of_Q) (to_unit (join32 (src !!! (x * l + i)%nat) (src !!! (x * l + i + 1)%nat))) in
       let u2 := o.(f_of_Q) (to_unit (join32 (src !!! (x * l + i + 2)%nat) (src !!! (x * l + i + 3)%nat))) in
       let dst := <[(x * l2 + i)%nat := bm_cos o u1 u2]> dst in
       <[(x * l2 + i + 1)%nat := bm_sin o u1 u2]> dst)
    dst.

(** ** The six kernels: core, then suffix *)

Definition philox2x64_unit (x : nat) (b : list Z * list Q) : list Z * list Q :=
  let src := P2x64.kernel x b.1 in (src, unit64_suffix P2x64.l x src b.2).
Definition philox4x64_unit (x : nat) (b : list Z * list Q) : list Z * list Q :=
  let src := P4x64.kernel x b.1 in (src, unit64_suffix P4.l x src b.2).
Definition philox4x32_unit (x : nat) (b : list Z * list Q) : list Z * list Q :=
  let src := P4x32.kernel x b.1 in (src, unit32_suffix P4.l x src b.2).

Definition philox2x64_normal {F} (o : float_ops F) (x : nat) (b : list Z * list F) : list Z * list F :=
  let src := P2x64.kernel x b.1 in (src, normal64_suffix o P2x64.l x src b.2).
Definition philox4x64_normal {F} (o : float_ops F) (x : nat) (b : list Z * list F) : list Z * list F :=
  let src := P4x64.kernel x b.1 in (src, normal64_suffix o P4.l x src b.2).
Definition philox4x32_normal {F} (o : float_ops F) (x : nat) (b : list Z * list F) : list Z * list F :=
  let src := P4x32.kernel x b.1 in (src, normal32_suffix o P4.l x src b.2).

(** ** Lemmas *)

(** [run_loop] unrolls a [for_up] loop with constant bounds. *)
Ltac run_loop :=
  repeat (cbn [for_up]; first [ rewrite decide_True by lia | rewrite decide_False by lia ]);
  cbn [for_up]; rewrite <- ?Nat.add_assoc; cbn [Nat.add Nat.mul].

(** [read_lanes] replaces each read of the thread's slice, after the
    core has written it, by the lane of the permutation's result. *)
Ltac read_lanes :=
  rewrite ?Nat.add_0_r;
  rewrite ?put_lanes_lookup0, ?put_lanes_lookup by (cbn; unfold P2x64.l, P4.l; lia).

Lemma shiftr11_bound w : word 64 w -> 0 <= Z.shiftr w 11 < 2 ^ 53.
Proof.
  unfold word. intros Hw. rewrite Z.shiftr_div_pow2 by lia.
  split; [apply Z.div_pos; lia | apply Z.div_lt_upper_bound; lia].
Qed.

Lemma join32_value a b : word 32 a -> word 32 b -> join32 a b = a * 2 ^ 32 + b.
Proof.
  unfold word, join32, add, wrap. intros Ha Hb.
  rewrite Z.shiftl_mul_pow2 by lia.
  rewrite (Z.mod_small (a * 2 ^ 32)) by lia. apply Z.mod_small. lia.
Qed.

(** ** Properties *)

(** C6. [(double)(w>>11)/(1l << 53)] lies in [0,1) for every [ulong]
    [w], and it is 0 exactly when [w < 2^11]. *)
Theorem to_unit_range w :
  word 64 w -> (0 <= to_unit w < 1)%Q /\ (to_unit w == 0 <-> w < 2 ^ 11).
Proof.
  intros Hw. pose proof (shiftr11_bound w Hw) as Hb.
  unfold to_unit, Qle, Qlt, Qeq. cbn [Qnum Qden]. rewrite Pos2Z.inj_pow.
  rewrite Z.shiftr_div_pow2 in * by lia. unfold word in Hw.
  split; [lia|]. split; intros H.
  - assert (w / 2 ^ 11 = 0) by lia. apply Z.div_small_iff in H0; lia.
  - rewrite Z.div_small by lia. lia.
Qed.

Lemma to_unit_range_witness :
  word 64 5 /\ ((0 <= to_unit 5 < 1)%Q /\ (to_unit 5 == 0 <-> 5 < 2 ^ 11)).
Proof.
  assert (H : word 64 5) by (unfold word; lia).
  split; [exact H | exact (to_unit_range 5 H)].
Defined.

(** The high and low halves of a rebuilt value are the two lanes. *)
Lemma join32_halves a b :
  word 32 a -> word 32 b -> Z.shiftr (join32 a b) 32 = a /\ wrap 32 (join32 a b) = b.
Proof.
  intros Ha Hb. rewrite join32_value by done. unfold word, wrap in *. split.
  - rewrite Z.shiftr_div_pow2 by lia. rewrite Z.div_add_l by lia.
    rewrite Z.div_small by lia. lia.
  - rewrite Z.add_comm, Z.mod_add by lia. by apply Z.mod_small.
Qed.

(** Splitting a 64-bit word into its halves and rebuilding it gives it back. *)
Lemma join32_split w : word 64 w -> join32 (wrap 32 (Z.shiftr w 32)) (wrap 32 w) = w.
Proof.
  intros Hw. rewrite join32_value by eauto with word_range. unfold word, wrap in *.
  rewrite Z.shiftr_div_pow2 by lia.
  rewrite (Z.mod_small (w / 2 ^ 32)) by (split; [apply Z.div_pos | apply Z.div_lt_upper_bound]; lia).
  pose proof (Z.div_mod w (2 ^ 32)). lia.
Qed.

(** C7. Rebuilding a 64-bit value from two [uint] lanes,
    [(((ulong)a)<<32)+b], does not wrap: it is [a * 2^32 + b], and its
    high and low halves give back [a] and [b]. *)
Theorem join32_roundtrip a b :
  word 32 a -> word 32 b ->
  join32 a b = a * 2 ^ 32 + b /\ Z.shiftr (join32 a b) 32 = a /\ wrap 32 (join32 a b) = b.
Proof.
  intros Ha Hb. split; [by apply join32_value | by apply join32_halves].
Qed.

Lemma join32_roundtrip_witness :
  word 32 7 /\ word 32 9 /\
  (join32 7 9 = 7 * 2 ^ 32 + 9 /\ Z.shiftr (join32 7 9) 32 = 7 /\ wrap 32 (join32 7 9) = 9).
Proof.
  assert (Ha : word 32 7) by (unfold word; lia).
  assert (Hb : word 32 9) by (unfold word; lia).
  split; [exact Ha|]. split; [exact Hb|]. exact (join32_roundtrip 7 9 Ha Hb).
Defined.

(** [core_then_suffix] rewrites the core of a kernel by its slice-local
    reading and unrolls the suffix loop. *)
Ltac core_then_suffix local :=
  cbn [fst snd]; f_equal;
  rewrite local by (unfold fits; cbn; unfold P2x64.l, P4.l; lia);
  cbn [lc_n P2x64.codec P4.codec]; unfold P2x64.l, P4.l;
  cbv zeta; try change (4 / 2)%nat with 2%nat;
  run_loop; read_lanes.

(** One thread of each kernel: the core, then the suffix. *)
Lemma unit2x64_thread x src dst :
  (x * 2 + 2 <= length src)%nat -> (x * 2 + 2 <= length dst)%nat ->
  philox2x64_unit x (src, dst) =
    (P2x64.kernel x src,
     splice (x * 2)
       (map to_unit (lc_to P2x64.codec (P2x64.philox x (get_lanes P2x64.codec (x * 2) src)))) dst).
Proof.
  intros Hs Hd. unfold philox2x64_unit, unit64_suffix. core_then_suffix P2x64.kernel2x64_local.
  destruct (P2x64.philox x _). cbn. buffer_ext; lane_cases.
Qed.

Lemma unit4x64_thread x src dst :
  (x * 4 + 4 <= length src)%nat -> (x * 4 + 4 <= length dst)%nat ->
  philox4x64_unit x (src, dst) =
    (P4x64.kernel x src,
     splice (x * 4)
       (map to_unit (lc_to P4.codec (P4x64.philox x (get_lanes P4.codec (x * 4) src)))) dst).
Proof.
  intros Hs Hd. unfold philox4x64_unit, unit64_suffix. core_then_suffix P4x64.kernel4x64_local.
  destruct (P4x64.philox x _). cbn. buffer_ext; lane_cases.
Qed.

Lemma unit4x32_thread x src dst :
  (x * 4 + 4 <= length src)%nat -> (x * 2 + 2 <= length dst)%nat ->
  philox4x32_unit x (src, dst) =
    (P4x32.kernel x src,
     let s := P4x32.philox x (get_lanes P4.codec (x * 4) src) in
     splice (x * 2)
       [to_unit (join32 (P4.s0 s) (P4.s1 s)); to_unit (join32 (P4.s2 s) (P4.s3 s))] dst).
Proof.
  intros Hs Hd. unfold philox4x32_unit, unit32_suffix. core_then_suffix P4x32.kernel4x32_local.
  destruct (P4x32.philox x _). cbn. buffer_ext; lane_cases.
Qed.

Lemma normal2x64_thread {F} (o : float_ops F) x src dst :
  (x * 2 + 2 <= length src)%nat -> (x * 2 + 2 <= length dst)%nat ->
  philox2x64_normal o x (src, dst) =
    (P2x64.kernel x src,
     let s := P2x64.philox x (get_lanes P2x64.codec (x * 2) src) in
     let u1 := o.(f_of_Q) (to_unit (P2x64.s0 s)) in
     let u2 := o.(f_of_Q) (to_unit (P2x64.s1 s)) in
     splice (x * 2) [bm_cos o u1 u2; bm_sin o u1 u2] dst).
Proof.
  intros Hs Hd. unfold philox2x64_normal, normal64_suffix. core_then_suffix P2x64.kernel2x64_local.
  destruct (P2x64.philox x _). cbn. buffer_ext; lane_cases.
Qed.

Lemma normal4x64_thread {F} (o : float_ops F) x src dst :
  (x * 4 + 4 <= length src)%nat -> (x * 4 + 4 <= length dst)%nat ->
  philox4x64_normal o x (src, dst) =
    (P4x64.kernel x src,
     let s := P4x64.philox x (get_lanes P4.codec (x * 4) src) in
     let u := fun w => o.(f_of_Q) (to_unit w) in
     splice (x * 4)
       [bm_cos o (u (P4.s0 s)) (u (P4.s1 s)); bm_sin o (u (P4.s0 s)) (u (P4.s1 s));
        bm_cos o (u (P4.s2 s)) (u (P4.s3 s)); bm_sin o (u (P4.s2 s)) (u (P4.s3 s))] dst).
Proof.
  intros Hs Hd. unfold philox4x64_normal, normal64_suffix. core_then_suffix P4x64.kernel4x64_local.
  destruct (P4x64.philox x _). cbn. buffer_ext; lane_cases.
Qed.

Lemma normal4x32_thread {F} (o : float_ops F) x src dst :
  (x * 4 + 4 <= length src)%nat -> (x * 2 + 2 <= length dst)%nat ->
  philox4x32_normal o x (src, dst) =
    (P4x32.kernel x src,
     let s := P4x32.philox x (get_lanes P4.codec (x * 4) src) in
     let u1 := o.(f_of_Q) (to_unit (join32 (P4.s0 s) (P4.s1 s))) in
     let u2 := o.(f_of_Q) (to_unit (join32 (P4.s2 s) (P4.s3 s))) in
     splice (x * 2) [bm_cos o u1 u2; bm_sin o u1 u2] dst).
Proof.
  intros Hs Hd. unfold philox4x32_normal, normal32_suffix. core_then_suffix P4x32.kernel4x32_local.
  destruct (P4x32.philox x _). cbn. buffer_ext; lane_cases.
Qed.

(** C8. The unit kernels.  Thread [x] of [philox2x64_10_unit] and
    [philox4x64_10_unit] runs the core, then writes the [l] cells
    [dst[x*l .. x*l+l)] with [to_unit] of the permuted lanes, one per
    lane.  [philox4x32_10_unit] writes the [l/2 = 2] cells
    [dst[2x], dst[2x+1]] from the lane pairs (0,1) and (2,3).  No other
    cell of [dst] changes.  Each variant needs only its own cells to lie
    in the buffers: [2x+2] of both for 2x64, [4x+4] of both for 4x64,
    [4x+4] of [src] and [2x+2] of [dst] for 4x32. *)
Theorem philox_unit_kernels_spec x src dst :
  ((x * 2 + 2 <= length src)%nat -> (x * 2 + 2 <= length dst)%nat ->
  philox2x64_unit x (src, dst) =
    (P2x64.kernel x src,
     splice (x * 2)
       (map to_unit (lc_to P2x64.codec (P2x64.philox x (get_lanes P2x64.codec (x * 2) src)))) dst)) /\
  ((x * 4 + 4 <= length src)%nat -> (x * 4 + 4 <= length dst)%nat ->
  philox4x64_unit x (src, dst) =
    (P4x64.kernel x src,
     splice (x * 4)
       (map to_unit (lc_to P4.codec (P4x64.philox x (get_lanes P4.codec (x * 4) src)))) dst)) /\
  ((x * 4 + 4 <= length src)%nat -> (x * 2 + 2 <= length dst)%nat ->
  philox4x32_unit x (src, dst) =
    (P4x32.kernel x src,
     let s := P4x32.philox x (get_lanes P4.codec (x * 4) src) in
     splice (x * 2)
       [to_unit (join32 (P4.s0 s) (P4.s1 s)); to_unit (join32 (P4.s2 s) (P4.s3 s))] dst)).
Proof.
  split_and!; intros Hs Hd;
    [apply unit2x64_thread | apply unit4x64_thread | apply unit4x32_thread]; lia.
Qed.

Lemma philox_unit_kernels_spec_witness :
  let src := [1; 2; 3; 4] in
  let dst := [0; 0]%Q in
  (0 * 2 + 2 <= length src)%nat /\ (0 * 2 + 2 <= length dst)%nat /\ (0 * 4 + 4 <= length src)%nat /\
  philox2x64_unit 0 (src, dst) =
    (P2x64.kernel 0 src,
     splice (0 * 2)
       (map to_unit (lc_to P2x64.codec (P2x64.philox 0 (get_lanes P2x64.codec (0 * 2) src)))) dst) /\
  philox4x32_unit 0 (src, dst) =
    (P4x32.kernel 0 src,
     let s := P4x32.philox 0 (get_lanes P4.codec (0 * 4) src) in
     splice (0 * 2)
       [to_unit (join32 (P4.s0 s) (P4.s1 s)); to_unit (join32 (P4.s2 s) (P4.s3 s))] dst).
Proof.
  intros src dst.
  assert (H2 : (0 * 2 + 2 <= length src)%nat) by (simpl; lia).
  assert (H2' : (0 * 2 + 2 <= length dst)%nat) by (simpl; lia).
  assert (H4 : (0 * 4 + 4 <= length src)%nat) by (simpl; lia).
  destruct (philox_unit_kernels_spec 0 src dst) as (A & _ & C).
  split_and!; [exact H2 | exact H2' | exact H4 | exact (A H2 H2') | exact (C H4 H2')].
Defined.

(** C9. The normal kernels, for any implementation [o] of the double
    operations.  Thread [x] of [philox2x64_10_normal] writes
    [dst[2x], dst[2x+1]] with the Box-Muller pair of its two uniforms.
    [philox4x64_10_normal] writes the four cells [dst[4x .. 4x+4)] with
    the pairs of lanes (0,1) and (2,3).  [philox4x32_10_normal] writes the
    [l/2 = 2] cells [dst[2x], dst[2x+1]] with one pair, whose uniforms
    are rebuilt from lanes (0,1) and (2,3).  No other cell changes.
    Each variant needs only its own cells to lie in the buffers, as
    for the unit kernels. *)
Theorem philox_normal_kernels_spec {F} (o : float_ops F) x src dst :
  ((x * 2 + 2 <= length src)%nat -> (x * 2 + 2 <= length dst)%nat ->
  philox2x64_normal o x (src, dst) =
    (P2x64.kernel x src,
     let s := P2x64.philox x (get_lanes P2x64.codec (x * 2) src) in
     let u1 := o.(f_of_Q) (to_unit (P2x64.s0 s)) in
     let u2 := o.(f_of_Q) (to_unit (P2x64.s1 s)) in
     splice (x * 2) [bm_cos o u1 u2; bm_sin o u1 u2] dst)) /\
  ((x * 4 + 4 <= length src)%nat -> (x * 4 + 4 <= length dst)%nat ->
  philox4x64_normal o x (src, dst) =
    (P4x64.kernel x src,
     let s := P4x64.philox x (get_lanes P4.codec (x * 4) src) in
     let u := fun w => o.(f_of_Q) (to_unit w) in
     splice (x * 4)
       [bm_cos o (u (P4.s0 s)) (u (P4.s1 s)); bm_sin o (u (P4.s0 s)) (u (P4.s1 s));
        bm_cos o (u (P4.s2 s)) (u (P4.s3 s)); bm_sin o (u (P4.s2 s)) (u (P4.s3 s))] dst)) /\
  ((x * 4 + 4 <= length src)%nat -> (x * 2 + 2 <= length dst)%nat ->
  philox4x32_normal o x (src, dst) =
    (P4x32.kernel x src,
     let s := P4x32.philox x (get_lanes P4.codec (x * 4) src) in
     let u1 := o.(f_of_Q) (to_unit (join32 (P4.s0 s) (P4.s1 s))) in
     let u2 := o.(f_of_Q) (to_unit (join32 (P4.s2 s) (P4.s3 s))) in
     splice (x * 2) [bm_cos o u1 u2; bm_sin o u1 u2] dst)).
Proof.
  split_and!; intros Hs Hd;
    [apply normal2x64_thread | apply normal4x64_thread | apply normal4x32_thread]; lia.
Qed.

Lemma philox_normal_kernels_spec_witness :
  let src := [1; 2; 3; 4; 5; 6; 7; 8] in
  let dst := repeat (FLit 0) 4 in
  (1 * 2 + 2 <= length src)%nat /\ (1 * 2 + 2 <= length dst)%nat /\ (1 * 4 + 4 <= length src)%nat /\
  philox2x64_normal fexpr_ops 1 (src, dst) =
    (P2x64.kernel 1 src,
     let s := P2x64.philox 1 (get_lanes P2x64.codec (1 * 2) src) in
     let u1 := fexpr_ops.(f_of_Q) (to_unit (P2x64.s0 s)) in
     let u2 := fexpr_ops.(f_of_Q) (to_unit (P2x64.s1 s)) in
     splice (1 * 2) [bm_cos fexpr_ops u1 u2; bm_sin fexpr_ops u1 u2] dst) /\
  philox4x32_normal fexpr_ops 1 (src, dst) =
    (P4x32.kernel 1 src,
     let s := P4x32.philox 1 (get_lanes P4.codec (1 * 4) src) in
     let u1 := fexpr_ops.(f_of_Q) (to_unit (join32 (P4.s0 s) (P4.s1 s))) in
     let u2 := fexpr_ops.(f_of_Q) (to_unit (join32 (P4.s2 s) (P4.s3 s))) in
     splice (1 * 2) [bm_cos fexpr_ops u1 u2; bm_sin fexpr_ops u1 u2] dst).
Proof.
  intros src dst.
  assert (H2 : (1 * 2 + 2 <= length src)%nat) by (simpl; lia).
  assert (H2' : (1 * 2 + 2 <= length dst)%nat) by (simpl; lia).
  assert (H4 : (1 * 4 + 4 <= length src)%nat) by (simpl; lia).
  destruct (philox_normal_kernels_spec fexpr_ops 1 src dst) as (A & _ & C).
  split_and!; [exact H2 | exact H2' | exact H4 | exact (A H2 H2') | exact (C H4 H2')].
Defined.

(** A seed for any permuted state: the buffer of zeros with thread
    [base]'s slice set to the inverse rounds of [t]. *)
Lemma philox_seed {K St} (R : keyed_round K St) (HR : keyed_round_laws R) (C : lane_codec St)
    (w : Z) (key : K) base n t :
  (0 <= w)%Z -> (forall s, kr_state_ok R s <-> Forall (word w) (lc_to C s)) ->
  kr_key_ok R key -> kr_state_ok R t -> (base + lc_n C <= n)%nat ->
  let src := put_lanes C base (unrounds R 10 key t) (repeat 0%Z n) in
  Forall (word w) src /\ length src = n /\ rounds R 10 key (get_lanes C base src) = t.
Proof.
  intros Hw Hok Hk Ht Hn src. unfold src. split_and!.
  - apply Forall_put_lanes; [apply List.Forall_forall; intros z Hz; apply repeat_spec in Hz as ->; unfold word; split; [lia | apply Z.pow_pos_nonneg; lia]|].
    apply Hok, unrounds_ok; done.
  - by rewrite length_put_lanes, repeat_length.
  - rewrite get_put_lanes by (rewrite repeat_length; lia). by apply rounds_unrounds.
Qed.

(** C10. The normal kernels evaluate [log(0)] for some seeds.  For every
    thread [x] of each normal kernel and every [dst] holding its cells,
    there is a seed buffer of words (of [ulong]s, or of [uint]s for
    4x32) on which the kernel writes into its first cell
    [sqrt(-2*log(u1))*cos(2*M_PI*u2)] with [u1] the double of
    [(double)(0>>11)/(1l << 53)], which is 0.  The suffix has no guard
    against [u1 = 0] (the spec's open question). *)
Theorem normal_log_zero {F} `{Inhabited F} (o : float_ops F) x (dst : list F) :
  to_unit 0 == 0 /\
  ((x * 2 + 2 <= length dst)%nat -> exists src u2,
     Forall (word 64) src /\ length src = (x * 2 + 2)%nat /\
     (philox2x64_normal o x (src, dst)).2 !!! (x * 2)%nat = bm_cos o (o.(f_of_Q) (to_unit 0)) u2) /\
  ((x * 4 + 4 <= length dst)%nat -> exists src u2,
     Forall (word 64) src /\ length src = (x * 4 + 4)%nat /\
     (philox4x64_normal o x (src, dst)).2 !!! (x * 4)%nat = bm_cos o (o.(f_of_Q) (to_unit 0)) u2) /\
  ((x * 2 + 2 <= length dst)%nat -> exists src u2,
     Forall (word 32) src /\ length src = (x * 4 + 4)%nat /\
     (philox4x32_normal o x (src, dst)).2 !!! (x * 2)%nat = bm_cos o (o.(f_of_Q) (to_unit 0)) u2).
Proof.
  split_and!; [reflexivity| | |]; intros Hd.
  - destruct (philox_seed P2x64.R P2x64.R2x64_laws P2x64.codec 64 (P2x64.key_of x) (x * 2) (x * 2 + 2)
      (P2x64.Lanes 0 0)) as (Hw & Hl & Hp);
      [lia | apply P2x64.state2_ok_Forall | apply key_ok_2x64 | cbn; unfold word; lia | cbn; unfold P2x64.l; lia |].
    eexists _, _. split_and!; [exact Hw | exact Hl |].
    rewrite normal2x64_thread by lia. cbn [snd]. unfold P2x64.philox. rewrite Hp.
    by rewrite lookup_total_splice_base by (cbn; lia).
  - destruct (philox_seed P4x64.R P4x64.R4x64_laws P4.codec 64 (P4x64.key_of x) (x * 4) (x * 4 + 4)
      (P4.Lanes 0 0 0 0)) as (Hw & Hl & Hp);
      [lia | apply P4.state4_ok_Forall | apply key_ok_4x64 | cbn; unfold word; lia | cbn; unfold P4.l; lia |].
    eexists _, _. split_and!; [exact Hw | exact Hl |].
    rewrite normal4x64_thread by lia. cbn [snd]. unfold P4x64.philox. rewrite Hp.
    by rewrite lookup_total_splice_base by (cbn; lia).
  - destruct (philox_seed P4x32.R P4x32.R4x32_laws P4.codec 32 (P4x32.key_of x) (x * 4) (x * 4 + 4)
      (P4.Lanes 0 0 0 0)) as (Hw & Hl & Hp);
      [lia | apply P4.state4_ok_Forall | apply key_ok_4x32 | cbn; unfold word; lia | cbn; unfold P4.l; lia |].
    eexists _, _. split_and!; [exact Hw | exact Hl |].
    rewrite normal4x32_thread by lia. cbn [snd]. unfold P4x32.philox. rewrite Hp.
    by rewrite lookup_total_splice_base by (cbn; lia).
Qed.

Lemma normal_log_zero_witness :
  let dst := repeat (FLit 0) 4 in
  (0 * 2 + 2 <= length dst)%nat /\ (0 * 4 + 4 <= length dst)%nat /\
  (exists src u2, Forall (word 64) src /\ length src = (0 * 2 + 2)%nat /\
     (philox2x64_normal fexpr_ops 0 (src, dst)).2 !!! (0 * 2)%nat =
       bm_cos fexpr_ops (fexpr_ops.(f_of_Q) (to_unit 0)) u2) /\
  (exists src u2, Forall (word 64) src /\ length src = (0 * 4 + 4)%nat /\
     (philox4x64_normal fexpr_ops 0 (src, dst)).2 !!! (0 * 4)%nat =
       bm_cos fexpr_ops (fexpr_ops.(f_of_Q) (to_unit 0)) u2).
Proof.
  intros dst.
  assert (H2 : (0 * 2 + 2 <= length dst)%nat) by (simpl; lia).
  assert (H4 : (0 * 4 + 4 <= length dst)%nat) by (simpl; lia).
  destruct (normal_log_zero fexpr_ops 0 dst) as (_ & A & B & _).
  split_and!; [exact H2 | exact H4 | exact (A H2) | exact (B H4)].
Defined.
