(* ===== verification/Descriptor.v ===== *)
(** * Kernel descriptors and their owned, serializable mirror (kernels.rs 1-32)

    [Kernel] describes one GPU kernel: its name, its ordered arguments
    (buffers and scalar parameters, each with an element-type tag), its
    OpenCL body, and the shared device functions it needs.  [SKernel] is
    the owned copy used for persistence.  [From<&Kernel> for SKernel]
    copies every field and converts the arguments and dependencies one
    by one.

    The element types, argument constructors and dependency
    declarations ([ConstructorTypes], [KernelConstructor], [Needed] and
    their owned forms) live in descriptors.rs and functions.rs, which
    are not under src/.  They are modelled from the constructors
    kernels.rs uses and from the spec.  So is the JSON wire form of spec
    section 6, which is generated by serde's derive.  Rust's borrowed
    [&'a str] and owned [String] are both Rocq strings.

    The decoder reads a struct the way serde's derived [Deserialize]
    does: fields by key, in any order, unknown keys ignored, a missing
    or repeated key an error.  Malformed input is a
    [SerializationError], never a default value.

    Theorem: the wire object of the owned form of any descriptor, with
    its fields in any order and unknown fields added, decodes back to
    that owned form, which keeps the descriptor's name, source, argument
    sequence (kind, name, type, order) and dependency sequence. *)

From stdpp Require Import base list strings sets.
From S2P Require Import Prelude.

Local Open Scope string_scope.

(** ** Data *)

(** [ConstructorTypes]: the element-type tags kernels.rs uses. *)
Inductive ConstructorTypes := CU32 | CU64 | CF64 | CU32_4 | CF64_2.

#[export] Instance ConstructorTypes_eq_dec : EqDecision ConstructorTypes.
Proof. solve_decision. Defined.

(** [KernelConstructor]: one kernel argument. *)
Inductive KernelConstructor :=
  | KCBuffer (name : string) (ty : ConstructorTypes)
  | KCParam (name : string) (ty : ConstructorTypes).

#[export] Instance KernelConstructor_eq_dec : EqDecision KernelConstructor.
Proof. solve_decision. Defined.

(** [Needed]: a shared device function the body calls. *)
Inductive Needed := FuncName (f : string).

#[export] Instance Needed_eq_dec : EqDecision Needed.
Proof. solve_decision. Defined.

(** [pub struct Kernel<'a>] (lines 8-13). *)
Record Kernel := {
  name : string;
  args : list KernelConstructor;
  src : string;
  needed : list Needed;
}.

#[export] Instance Kernel_eq_dec : EqDecision Kernel.
Proof. solve_decision. Defined.

(** The owned mirrors. *)
Inductive SKernelConstructor :=
  | SKCBuffer (name : string) (ty : ConstructorTypes)
  | SKCParam (name : string) (ty : ConstructorTypes).

Inductive SNeeded := SFuncName (f : string).

(** [pub struct SKernel] (lines 16-21). *)
Module S.
Record SKernel := {
  name : string;
  args : list SKernelConstructor;
  src : string;
  needed : list SNeeded;
}.
End S.

(** ** The conversion [From<&Kernel<'a>> for SKernel] *)

(** [i.into()] on an argument and on a dependency. *)
Definition skc_of (c : KernelConstructor) : SKernelConstructor :=
  match c with
  | KCBuffer n t => SKCBuffer n t
  | KCParam n t => SKCParam n t
  end.

Definition sneeded_of (d : Needed) : SNeeded :=
  match d with FuncName f => SFuncName f end.

(** Lines 23-31. *)
Definition skernel_of (f : Kernel) : S.SKernel := {|
  S.name := name f;
  S.args := skc_of <$> args f;
  S.src := src f;
  S.needed := sneeded_of <$> needed f;
|}.

(** ** The wire form of spec section 6 *)

Inductive json :=
  | JStr (s : string)
  | JArr (l : list json)
  | JObj (fields : list (string * json)).

Definition tag_name (t : ConstructorTypes) : string :=
  match t with
  | CU32 => "u32" | CU64 => "u64" | CF64 => "f64" | CU32_4 => "u32x4" | CF64_2 => "f64x2"
  end.

Definition tag_of_name (s : string) : option ConstructorTypes :=
  match s with
  | "u32" => Some CU32 | "u64" => Some CU64 | "f64" => Some CF64
  | "u32x4" => Some CU32_4 | "f64x2" => Some CF64_2
  | _ => None
  end.

Definition arg_to_json (c : SKernelConstructor) : json :=
  match c with
  | SKCBuffer n t => JObj [("kind", JStr "buffer"); ("name", JStr n); ("type", JStr (tag_name t))]
  | SKCParam n t => JObj [("kind", JStr "parameter"); ("name", JStr n); ("type", JStr (tag_name t))]
  end.

Definition needed_to_json (d : SNeeded) : json :=
  match d with
  | SFuncName f => JObj [("kind", JStr "function_name"); ("value", JStr f)]
  end.

(** The four fields of the wire object, in serde's field order. *)
Definition wire_fields (k : S.SKernel) : list (string * json) :=
  [("name", JStr (S.name k));
   ("args", JArr (arg_to_json <$> S.args k));
   ("src", JStr (S.src k));
   ("needed", JArr (needed_to_json <$> S.needed k))].

Definition skernel_to_json (k : S.SKernel) : json := JObj (wire_fields k).

(** Decoding reports the first malformed value. *)
Inductive SerializationError :=
  | SerializationError_at (what : string)
  | MissingField (key : string)
  | DuplicateField (key : string).

Local Open Scope err_scope.

(** A struct field, as serde's derived [Deserialize] reads it: by key,
    in any order, other keys ignored, an error when the key is absent
    or repeated. *)
Definition field (key : string) (fs : list (string * json)) : SerializationError + json :=
  match filter (fun p => p.1 = key) fs with
  | [] => inl (MissingField key)
  | [(_, v)] => inr v
  | _ => inl (DuplicateField key)
  end.

Definition str_field (key : string) (fs : list (string * json)) : SerializationError + string :=
  let? v := field key fs in
  match v with JStr s => inr s | _ => inl (SerializationError_at key) end.

Definition arr_field (key : string) (fs : list (string * json)) : SerializationError + list json :=
  let? v := field key fs in
  match v with JArr l => inr l | _ => inl (SerializationError_at key) end.

Definition arg_of_json (j : json) : SerializationError + SKernelConstructor :=
  match j with
  | JObj fs =>
      let? k := str_field "kind" fs in
      let? n := str_field "name" fs in
      let? t := str_field "type" fs in
      match tag_of_name t with
      | None => inl (SerializationError_at "type")
      | Some ty =>
          if decide (k = "buffer") then inr (SKCBuffer n ty)
          else if decide (k = "parameter") then inr (SKCParam n ty)
          else inl (SerializationError_at "kind")
      end
  | _ => inl (SerializationError_at "argument")
  end.

Definition needed_of_json (j : json) : SerializationError + SNeeded :=
  match j with
  | JObj fs =>
      let? k := str_field "kind" fs in
      let? f := str_field "value" fs in
      if decide (k = "function_name") then inr (SFuncName f) else inl (SerializationError_at "kind")
  | _ => inl (SerializationError_at "needed")
  end.

Fixpoint mapM_err {A B} (f : A -> SerializationError + B) (l : list A)
    : SerializationError + list B :=
  match l with
  | [] => inr []
  | a :: l =>
      match f a with
      | inl e => inl e
      | inr b => match mapM_err f l with inl e => inl e | inr bs => inr (b :: bs) end
      end
  end.

Definition skernel_of_json (j : json) : SerializationError + S.SKernel :=
  match j with
  | JObj fs =>
      let? n := str_field "name" fs in
      let? a := arr_field "args" fs in
      let? s := str_field "src" fs in
      let? d := arr_field "needed" fs in
      let? a' := mapM_err arg_of_json a in
      let? d' := mapM_err needed_of_json d in
      inr {| S.name := n; S.args := a'; S.src := s; S.needed := d' |}
  | _ => inl (SerializationError_at "kernel")
  end.

(** ** The spec's reading of an argument and a dependency

    Spec section 6 compares arguments by kind, name and type, and
    dependencies by the function name. *)

Definition kc_view (c : KernelConstructor) : string * string * ConstructorTypes :=
  match c with KCBuffer n t => ("buffer", n, t) | KCParam n t => ("parameter", n, t) end.

Definition skc_view (c : SKernelConstructor) : string * string * ConstructorTypes :=
  match c with SKCBuffer n t => ("buffer", n, t) | SKCParam n t => ("parameter", n, t) end.

Definition needed_fn (d : Needed) : string := match d with FuncName f => f end.

Definition sneeded_fn (d : SNeeded) : string := match d with SFuncName f => f end.

(** ** Lemmas *)

Lemma mapM_err_map {A B} (f : A -> SerializationError + B) (g : B -> A) (l : list B) :
  (forall b, b ∈ l -> f (g b) = inr b) -> mapM_err f (g <$> l) = inr l.
Proof.
  induction l as [|b l IH]; intros Hl; [done|].
  rewrite fmap_cons. cbn [mapM_err]. rewrite Hl by set_solver. rewrite IH; [done|]. intros b' Hb'. apply Hl. set_solver.
Qed.

Lemma tag_of_name_tag t : tag_of_name (tag_name t) = Some t.
Proof. by destruct t. Qed.

Lemma arg_json_roundtrip c : arg_of_json (arg_to_json c) = inr c.
Proof. by destruct c as [? []|? []]. Qed.

Lemma needed_json_roundtrip d : needed_of_json (needed_to_json d) = inr d.
Proof. by destruct d. Qed.

(** A field does not depend on the order of the fields. *)
Lemma field_perm key fs fs' : fs ≡ₚ fs' -> field key fs = field key fs'.
Proof.
  intros Hp. unfold field.
  assert (Hf : filter (fun p => p.1 = key) fs ≡ₚ filter (fun p => p.1 = key) fs') by by rewrite Hp.
  destruct (filter _ fs) as [|p1 [|p2 l1]], (filter _ fs') as [|q1 [|q2 l2]]; try reflexivity;
    pose proof (Permutation_length Hf) as Hl; cbn in Hl; try lia;
    [apply Permutation_length_1 in Hf as ->; by destruct q1 | by destruct p1, q1].
Qed.

(** Fields with other keys do not change a field. *)
Lemma field_app_other key fs extra :
  Forall (fun p => p.1 <> key) extra -> field key (fs ++ extra) = field key fs.
Proof.
  intros He. unfold field. rewrite filter_app.
  assert (filter (fun p : string * json => p.1 = key) extra = []) as ->.
  { induction He as [|[k v] e Hk _ IH]; [done|]. rewrite filter_cons. case_decide; [done | exact IH]. }
  by rewrite app_nil_r.
Qed.

(** The decoder reads the top-level object only through [field]. *)
Lemma skernel_of_json_fields fs fs' :
  (forall key, key = "name" \/ key = "args" \/ key = "src" \/ key = "needed" -> field key fs = field key fs') ->
  skernel_of_json (JObj fs) = skernel_of_json (JObj fs').
Proof.
  intros Hk. unfold skernel_of_json, str_field, arr_field.
  rewrite (Hk "name"), (Hk "args"), (Hk "src"), (Hk "needed"); naive_solver.
Qed.

(** The four fields of a wire object. *)
Lemma field_wire k :
  field "name" (wire_fields k) = inr (JStr (S.name k)) /\
  field "args" (wire_fields k) = inr (JArr (arg_to_json <$> S.args k)) /\
  field "src" (wire_fields k) = inr (JStr (S.src k)) /\
  field "needed" (wire_fields k) = inr (JArr (needed_to_json <$> S.needed k)).
Proof. split_and!; reflexivity. Qed.

Lemma skernel_json_canonical k : skernel_of_json (skernel_to_json k) = inr k.
Proof.
  destruct (field_wire k) as (E1 & E2 & E3 & E4).
  unfold skernel_to_json, skernel_of_json, str_field, arr_field. rewrite E1, E2, E3, E4. cbn [err_bind].
  rewrite !mapM_err_map; [by destruct k| |]; intros; [apply needed_json_roundtrip | apply arg_json_roundtrip].
Qed.



(** ** Properties *)

(** C11. The wire form of spec section 6 reproduces the descriptor.
    Take the owned form [skernel_of k] of a descriptor and its wire
    object, with the four fields in any order and any fields of other
    names added.  Decoding it gives [skernel_of k] back, and that owned
    form has the descriptor's name and source text, its arguments in
    order with their kinds, names and types, and its dependencies in
    order. *)
Theorem kernel_wire_roundtrip (k : Kernel) (extra fs : list (string * json)) :
  Forall (fun p => p.1 <> "name" /\ p.1 <> "args" /\ p.1 <> "src" /\ p.1 <> "needed") extra ->
  fs ≡ₚ (wire_fields (skernel_of k) ++ extra)%list ->
  skernel_of_json (JObj fs) = inr (skernel_of k) /\
  S.name (skernel_of k) = name k /\ S.src (skernel_of k) = src k /\
  skc_view <$> S.args (skernel_of k) = kc_view <$> args k /\
  sneeded_fn <$> S.needed (skernel_of k) = needed_fn <$> needed k.
Proof.
  intros He Hp. split_and!; [| done | done | |].
  - rewrite <- skernel_json_canonical. apply skernel_of_json_fields. intros key Hkey.
    rewrite (field_perm key _ _ Hp), field_app_other; [done|].
    eapply Forall_impl; [exact He|]. intros [k' v] (? & ? & ? & ?); cbn in *. naive_solver.
  - cbn. rewrite <- list_fmap_compose. apply list_fmap_ext. intros _ c _. by destruct c.
  - cbn. rewrite <- list_fmap_compose. apply list_fmap_ext. intros _ d _. by destruct d.
Qed.

Lemma kernel_wire_roundtrip_witness :
  let k := {| name := "plus"; args := [KCBuffer "a" CF64; KCParam "c" CF64];
              src := "dst[x] = a[x]+c;"; needed := [FuncName "f"] |} in
  let extra := [("version", JStr "1")] in
  let fs := (extra ++ rev (wire_fields (skernel_of k)))%list in
  Forall (fun p => p.1 <> "name" /\ p.1 <> "args" /\ p.1 <> "src" /\ p.1 <> "needed") extra /\
  fs ≡ₚ (wire_fields (skernel_of k) ++ extra)%list /\
  skernel_of_json (JObj fs) = inr (skernel_of k).
Proof.
  intros k extra fs.
  assert (He : Forall (fun p => p.1 <> "name" /\ p.1 <> "args" /\ p.1 <> "src" /\ p.1 <> "needed") extra)
    by (repeat constructor; cbn; discriminate).
  assert (Hp : fs ≡ₚ (wire_fields (skernel_of k) ++ extra)%list)
    by (unfold fs; etransitivity; [apply Permutation_app_comm|];
        apply Permutation_app_tail; symmetry; apply Permutation_rev).
  split; [exact He|]. split; [exact Hp|]. exact (proj1 (kernel_wire_roundtrip k extra fs He Hp)).
Defined.
