(* ===== verification/Catalog.v ===== *)
(** * The kernel catalog [kernels()] (kernels.rs 34-305)

    [kernels()] builds a vector of thirty [Kernel] descriptors and
    collects it into a [HashMap] keyed by name.  The nine Philox
    descriptors take their bodies from the [random!] macro.  A plain
    arm gives a round core; the two-argument arm
    [random!($name, $more)] is [concat!(random!($name), $more)].  The
    other twenty-one descriptors are elementwise, slice-move and complex
    kernels, with literal bodies.

    The bodies are copied verbatim as strings.  [collect] is the
    [HashMap]'s [FromIterator]: it inserts the pairs in order, so a
    later entry replaces an earlier one with the same key.

    Modelled from the spec (not under src/): [lookup_kernel], the query
    API of spec 4.1 and 6 with its [UnknownKernelName] error; the
    shared-function table of functions.rs, by the names the catalog
    uses; and [program_source], the Handler's resolution of [needed]
    (spec 3 and 7): resolved sources are concatenated ahead of the body,
    and a missing one is an [UnresolvedDependency].

    Theorems: the catalog's names are distinct and each lookup returns
    the descriptor of that name; each body calls exactly the shared
    functions its entry declares; argument names are distinct and each
    is used in the body. *)

From stdpp Require Import base list strings gmap sets.
From S2P Require Import Prelude Descriptor.

Local Open Scope string_scope.

(** ** The [random!] macro *)

(** [random!(philox4x32_10)] *)
Definition random_philox4x32_10 : string :=
"    uint key[2] = {x>>32,x};
    const uint l = 4;
    const uint M = 0xD2511F53;
    const uint M2 = 0xCD9E8D57;
    for(int i = 0;i<10;i++){
        uint hi0 = mul_hi(M,src[x*l+0]);
        uint lo0 = M * src[x*l+0];
        uint hi1 = mul_hi(M,src[x*l+2]);
        uint lo1 = M2 * src[x*l+2];
        src[x*l+0] = hi1^key[1]^src[x*l+3];
        src[x*l+2] = hi0^key[0]^src[x*l+1];
        src[x*l+1] = lo0;
        src[x*l+3] = lo1;
        key[0] += 0x9E3779B9;
        key[1] += 0xBB67AE85;
    }
".

(** [random!(philox2x64_10)] *)
Definition random_philox2x64_10 : string :=
"    ulong key = x;
    const uint l = 2;
    const ulong M = 0xD2B74407B1CE6E93;
    for(int i = 0;i<10;i++){
        ulong hi = mul_hi(M,src[x*l+0]);
        ulong lo = M * src[x*l+0];
        src[x*l+0] = hi^key^src[x*l+1];
        src[x*l+1] = lo;
        key += 0x9E3779B97F4A7C15;
    }
".

(** [random!(philox4x64_10)] *)
Definition random_philox4x64_10 : string :=
"    ulong key[2] = {0,x};
    const uint l = 4;
    const ulong M = 0xD2B74407B1CE6E93;
    const ulong M2 = 0xCA5A826395121157;
    for(int i = 0;i<10;i++){
        ulong hi0 = mul_hi(M,src[x*l+0]);
        ulong lo0 = M * src[x*l+0];
        ulong hi1 = mul_hi(M,src[x*l+2]);
        ulong lo1 = M2 * src[x*l+2];
        src[x*l+0] = hi1^key[1]^src[x*l+3];
        src[x*l+2] = hi0^key[0]^src[x*l+1];
        src[x*l+1] = lo0;
        src[x*l+3] = lo1;
        key[0] += 0x9E3779B97F4A7C15;
        key[1] += 0xBB67AE8584CAA73B;
    }
".


(** [random!($name:ident, $more:literal) => concat!(random!($name),$more)] *)
Definition random (core more : string) : string := core +:+ more.

(** ** [kernels()] *)

(** The nine Philox descriptors (lines 94-174). *)
Definition random_kernels : list Kernel := [
  {| name := "philox2x64_10";
     args := [KCBuffer "src" CU64];
     src := random_philox2x64_10;
     needed := [] |};
  {| name := "philox2x64_10_unit";
     args := [KCBuffer "src" CU64; KCBuffer "dst" CF64];
     src := random random_philox2x64_10
      "    for(uint i = 0;i<l;i++)
        dst[x*l+i] = (double)(src[x*l+i]>>11)/(1l << 53);";
     needed := [] |};
  {| name := "philox2x64_10_normal";
     args := [KCBuffer "src" CU64; KCBuffer "dst" CF64];
     src := random random_philox2x64_10
      "    for(uint i = 0;i<l;i+=2) {
        double u1 = (double)(src[x*l+i]>>11)/(1l << 53);
        double u2 = (double)(src[x*l+i+1]>>11)/(1l << 53);
        dst[x*l+i] = sqrt(-2*log(u1))*cos(2*M_PI*u2);
        dst[x*l+i+1] = sqrt(-2*log(u1))*sin(2*M_PI*u2);
    }";
     needed := [] |};
  {| name := "philox4x64_10";
     args := [KCBuffer "src" CU64];
     src := random_philox4x64_10;
     needed := [] |};
  {| name := "philox4x64_10_unit";
     args := [KCBuffer "src" CU64; KCBuffer "dst" CF64];
     src := random random_philox4x64_10
      "    for(uint i = 0;i<l;i++)
        dst[x*l+i] = (double)(src[x*l+i]>>11)/(1l << 53);";
     needed := [] |};
  {| name := "philox4x64_10_normal";
     args := [KCBuffer "src" CU64; KCBuffer "dst" CF64];
     src := random random_philox4x64_10
      "    for(uint i = 0;i<l;i+=2) {
        double u1 = (double)(src[x*l+i]>>11)/(1l << 53);
        double u2 = (double)(src[x*l+i+1]>>11)/(1l << 53);
        dst[x*l+i] = sqrt(-2*log(u1))*cos(2*M_PI*u2);
        dst[x*l+i+1] = sqrt(-2*log(u1))*sin(2*M_PI*u2);
    }";
     needed := [] |};
  {| name := "philox4x32_10";
     args := [KCBuffer "src" CU32];
     src := random_philox4x32_10;
     needed := [] |};
  {| name := "philox4x32_10_unit";
     args := [KCBuffer "src" CU32; KCBuffer "dst" CF64];
     src := random random_philox4x32_10
      "    const uint l2 = l/2;
    for(uint i = 0;i<l2;i++)
        dst[x*l2+i] = (double)(((((ulong)src[x*l+i*2])<<32)+src[x*l+i*2+1])>>11)/(1l << 53);";
     needed := [] |};
  {| name := "philox4x32_10_normal";
     args := [KCBuffer "src" CU32; KCBuffer "dst" CF64];
     src := random random_philox4x32_10
      "    const uint l2 = l/2;
    for(uint i = 0;i<l2;i+=2) {
        double u1 = (double)(((((ulong)src[x*l+i])<<32)+src[x*l+i+1])>>11)/(1l << 53);
        double u2 = (double)(((((ulong)src[x*l+i+2])<<32)+src[x*l+i+3])>>11)/(1l << 53);
        dst[x*l2+i] = sqrt(-2*log(u1))*cos(2*M_PI*u2);
        dst[x*l2+i+1] = sqrt(-2*log(u1))*sin(2*M_PI*u2);
    }";
     needed := [] |}
].

(** The elementwise, slice-move and complex descriptors (lines 176-303). *)
Definition other_kernels : list Kernel := [
  {| name := "plus";
     args := [KCBuffer "a" CF64; KCBuffer "b" CF64; KCBuffer "dst" CF64];
     src := "    dst[x] = a[x]+b[x];";
     needed := [] |};
  {| name := "minus";
     args := [KCBuffer "a" CF64; KCBuffer "b" CF64; KCBuffer "dst" CF64];
     src := "    dst[x] = a[x]-b[x];";
     needed := [] |};
  {| name := "times";
     args := [KCBuffer "a" CF64; KCBuffer "b" CF64; KCBuffer "dst" CF64];
     src := "    dst[x] = a[x]*b[x];";
     needed := [] |};
  {| name := "divides";
     args := [KCBuffer "a" CF64; KCBuffer "b" CF64; KCBuffer "dst" CF64];
     src := "    dst[x] = a[x]/b[x];";
     needed := [] |};
  {| name := "cplus";
     args := [KCBuffer "src" CF64; KCParam "c" CF64; KCBuffer "dst" CF64];
     src := "    dst[x] = src[x]+c;";
     needed := [] |};
  {| name := "cminus";
     args := [KCBuffer "src" CF64; KCParam "c" CF64; KCBuffer "dst" CF64];
     src := "    dst[x] = src[x]-c;";
     needed := [] |};
  {| name := "ctimes";
     args := [KCBuffer "src" CF64; KCParam "c" CF64; KCBuffer "dst" CF64];
     src := "    dst[x] = src[x]*c;";
     needed := [] |};
  {| name := "cdivides";
     args := [KCBuffer "src" CF64; KCParam "c" CF64; KCBuffer "dst" CF64];
     src := "    dst[x] = src[x]/c;";
     needed := [] |};
  {| name := "move";
     args := [KCBuffer "src" CF64; KCBuffer "dst" CF64; KCParam "size" CU32_4; KCParam "offset" CU32];
     src := "    dst[x+x_size*(y+y_size*z) + offset] = src[x+size.x*(y+size.y*z)];";
     needed := [] |};
  {| name := "smove";
     args := [KCBuffer "src" CF64; KCBuffer "dst" CF64; KCParam "size" CU32_4; KCParam "offset" CU32];
     src := "    dst[x+size.x*(y+size.y*z) + offset] = src[x+x_size*(y+y_size*z)];";
     needed := [] |};
  {| name := "dmove";
     args := [KCBuffer "src" CF64; KCBuffer "dst" CF64; KCParam "size" CU32_4; KCParam "dst_size" CU32_4];
     src := "    dst[dst_size.x*(x+dst_size.y*(y+dst_size.z*z)) + dst_size.w] = src[x+size.x*(y+size.y*z)];";
     needed := [] |};
  {| name := "rdmove";
     args := [KCBuffer "src" CF64; KCBuffer "dst" CF64; KCParam "size" CU32_4; KCParam "dst_size" CU32_4];
     src := "    dst[x+dst_size.y*(y+dst_size.z*(z+dst_size.x*dst_size.w))] = src[x+size.x*(y+size.y*z)];";
     needed := [] |};
  {| name := "complex_from_real";
     args := [KCBuffer "src" CF64; KCBuffer "dst" CF64_2];
     src := "    dst[x] = (double2)(src[x],0);";
     needed := [] |};
  {| name := "complex_from_image";
     args := [KCBuffer "src" CF64; KCBuffer "dst" CF64_2];
     src := "    dst[x] = (double2)(0,src[x]);";
     needed := [] |};
  {| name := "real_from_complex";
     args := [KCBuffer "src" CF64_2; KCBuffer "dst" CF64];
     src := "    dst[x] = src[x].x;";
     needed := [] |};
  {| name := "image_from_complex";
     args := [KCBuffer "src" CF64_2; KCBuffer "dst" CF64];
     src := "    dst[x] = src[x].y;";
     needed := [] |};
  {| name := "kc_sqrmod";
     args := [KCBuffer "src" CF64_2; KCBuffer "dst" CF64];
     src := "    dst[x] = c_sqrmod(src[x]);";
     needed := [FuncName "c_sqrmod"] |};
  {| name := "kc_mod";
     args := [KCBuffer "src" CF64_2; KCBuffer "dst" CF64];
     src := "    dst[x] = c_mod(src[x]);";
     needed := [FuncName "c_mod"] |};
  {| name := "kc_times";
     args := [KCBuffer "a" CF64_2; KCBuffer "b" CF64_2; KCBuffer "dst" CF64_2];
     src := "    dst[x] = c_times(a[x],b[x]);";
     needed := [FuncName "c_times"] |};
  {| name := "kc_times_conj";
     args := [KCBuffer "a" CF64_2; KCBuffer "b" CF64_2; KCBuffer "dst" CF64_2];
     src := "    dst[x] = c_times_conj(a[x],b[x]);";
     needed := [FuncName "c_times_conj"] |};
  {| name := "kc_divides";
     args := [KCBuffer "a" CF64_2; KCBuffer "b" CF64_2; KCBuffer "dst" CF64_2];
     src := "    dst[x] = c_divides(a[x],b[x]);";
     needed := [FuncName "c_divides"] |}
].

(** The [vec!] of [kernels()], in source order. *)
Definition kernels_vec : list Kernel := random_kernels ++ other_kernels.

(** [.into_iter().map(|k| (k.name,k)).collect()] into a [HashMap]:
    successive inserts, a later key replacing an earlier one. *)
Definition collect (l : list Kernel) : gmap string Kernel :=
  foldl (fun m k => <[name k := k]> m) ∅ l.

Definition kernels : gmap string Kernel := collect kernels_vec.

(** ** The query API and dependency resolution (spec 4.1, 6, 7) *)

Inductive CatalogError := UnknownKernelName (n : string).

Definition lookup_kernel (n : string) : CatalogError + Kernel :=
  match kernels !! n with Some k => inr k | None => inl (UnknownKernelName n) end.

Definition names : gset string := dom kernels.

(** The shared device functions of functions.rs that catalog entries
    declare. *)
Definition shared_functions : list string :=
  ["c_sqrmod"; "c_mod"; "c_times"; "c_times_conj"; "c_divides"].

Inductive BuildError := UnresolvedDependency (f : string).

(** The Handler resolves each [needed] name in a table of function
    sources and puts the sources ahead of the body. *)
Fixpoint resolve_needed (table : gmap string string) (ds : list Needed) : BuildError + string :=
  match ds with
  | [] => inr EmptyString
  | FuncName f :: ds =>
      match table !! f with
      | None => inl (UnresolvedDependency f)
      | Some code =>
          match resolve_needed table ds with
          | inl e => inl e
          | inr rest => inr (code +:+ rest)
          end
      end
  end.

Definition program_source (table : gmap string string) (k : Kernel) : BuildError + string :=
  match resolve_needed table (needed k) with
  | inl e => inl e
  | inr pre => inr (pre +:+ src k)
  end.

(** ** Scanning a body for an identifier *)

Definition ident_char (c : Ascii.ascii) : bool :=
  let n := Ascii.nat_of_ascii c in
  bool_decide (48 <= n <= 57)%nat || bool_decide (65 <= n <= 90)%nat ||
  bool_decide (97 <= n <= 122)%nat || bool_decide (n = 95)%nat.

Fixpoint starts_with (p s : string) : bool :=
  match p, s with
  | EmptyString, _ => true
  | String a p, String b s => bool_decide (a = b) && starts_with p s
  | String _ _, EmptyString => false
  end.

Fixpoint str_drop (n : nat) (s : string) : string :=
  match n, s with
  | O, _ => s
  | S n, String _ s => str_drop n s
  | S _, EmptyString => EmptyString
  end.

(** [id] occurs in [s] with no identifier character on either side;
    [prev_ok] says whether the character before [s] allows a start. *)
Fixpoint mentions_from (prev_ok : bool) (id s : string) : bool :=
  match s with
  | EmptyString => false
  | String c s' =>
      (prev_ok && starts_with id s &&
         match str_drop (String.length id) s with
         | EmptyString => true
         | String d _ => negb (ident_char d)
         end)
      || mentions_from (negb (ident_char c)) id s'
  end.

Definition mentions (id s : string) : bool := mentions_from true id s.

Definition arg_name (c : KernelConstructor) : string :=
  match c with KCBuffer n _ => n | KCParam n _ => n end.

Definition needed_name (d : Needed) : string :=
  match d with FuncName f => f end.

#[export] Instance CatalogError_eq_dec : EqDecision CatalogError.
Proof. solve_decision. Defined.

#[export] Instance BuildError_eq_dec : EqDecision BuildError.
Proof. solve_decision. Defined.

(** ** Lemmas *)

(** [collect] maps a name to the last entry carrying it. *)
Lemma collect_lookup l n : collect l !! n = last (filter (fun k => name k = n) l).
Proof.
  induction l as [|k l IH] using rev_ind; [done|].
  unfold collect in *. rewrite foldl_snoc, filter_app, filter_singleton by exact [].
  case_decide as Hk.
  - rewrite last_snoc. subst n. apply lookup_insert_eq.
  - rewrite app_nil_r, lookup_insert_ne by done. exact IH.
Qed.

Lemma collect_lookup_name l n k : collect l !! n = Some k -> name k = n.
Proof.
  rewrite collect_lookup. intros Hl. apply last_Some in Hl as [l' Hl'].
  assert (Hk : k ∈ filter (fun k => name k = n) l) by (rewrite Hl'; set_solver).
  by apply list_elem_of_filter in Hk as [? _].
Qed.




(** ** Properties *)

(** C12. Catalog integrity: the thirty names of [kernels()] are
    distinct, the map holds thirty entries, looking up the name of any
    entry returns that entry, every successful lookup returns a
    descriptor whose [name] is the key, and any other name is an
    [UnknownKernelName]. *)
Theorem catalog_integrity :
  NoDup (name <$> kernels_vec) /\ size kernels = 30%nat /\
  (forall k, k ∈ kernels_vec -> lookup_kernel (name k) = inr k) /\
  (forall n k, lookup_kernel n = inr k -> name k = n) /\
  (forall n, n ∉ names -> lookup_kernel n = inl (UnknownKernelName n)).
Proof.
  split_and!.
  - by_compute.
  - vm_compute. reflexivity.
  - apply Forall_forall. by_compute.
  - unfold lookup_kernel. intros n k. case_match eqn:E; [|done].
    intros [= <-]. by eapply collect_lookup_name.
  - intros n Hn. unfold lookup_kernel, names in *.
    by rewrite (proj1 (not_elem_of_dom _ _) Hn).
Qed.

Lemma catalog_integrity_witness :
  lookup_kernel "plus" =
    inr {| name := "plus"; args := [KCBuffer "a" CF64; KCBuffer "b" CF64; KCBuffer "dst" CF64];
           src := "    dst[x] = a[x]+b[x];"; needed := [] |} /\
  name {| name := "plus"; args := [KCBuffer "a" CF64; KCBuffer "b" CF64; KCBuffer "dst" CF64];
          src := "    dst[x] = a[x]+b[x];"; needed := [] |} = "plus" /\
  ("nope" ∉ names) /\ lookup_kernel "nope" = inl (UnknownKernelName "nope").
Proof.
  assert (E : lookup_kernel "plus" =
    inr {| name := "plus"; args := [KCBuffer "a" CF64; KCBuffer "b" CF64; KCBuffer "dst" CF64];
           src := "    dst[x] = a[x]+b[x];"; needed := [] |}) by (vm_compute; reflexivity).
  assert (N : ("nope" ∉ names)) by by_compute.
  split; [exact E|]. split; [exact (proj1 (proj2 (proj2 (proj2 catalog_integrity))) _ _ E)|].
  split; [exact N | exact (proj2 (proj2 (proj2 (proj2 catalog_integrity))) _ N)].
Defined.


(** C13. Dependency closure: for every catalog entry and every shared
    function [f], the entry declares [f] in [needed] exactly when its
    body mentions the identifier [f].  Every declared name is a shared
    function, and no entry declares more than one. *)
Theorem catalog_dependencies_exact :
  Forall (fun k =>
    Forall (fun f => FuncName f ∈ needed k <-> mentions f (src k) = true) shared_functions /\
    Forall (fun d => needed_name d ∈ shared_functions) (needed k) /\
    (length (needed k) <= 1)%nat) kernels_vec.
Proof. by_compute. Qed.

(** C14. Argument lists are well formed: within every catalog entry the
    argument names are distinct, and each argument is mentioned in the
    body as an identifier. *)
Theorem catalog_args_wellformed :
  Forall (fun k =>
    NoDup (arg_name <$> args k) /\
    Forall (fun a => mentions (arg_name a) (src k) = true) (args k)) kernels_vec.
Proof. by_compute. Qed.




