(* ===== verification/Elementwise.v ===== *)
(** * The elementwise, move and complex kernels (kernels.rs 178-302)

    Each of these kernels is one OpenCL statement run by every thread of
    a launch.  The statement reads the cells of its input buffers at the
    thread's index and writes one cell of [dst].

    - [double] arithmetic goes through [double_ops], the four operators
      and the literal [0] the bodies use.  The theorems hold for any
      implementation of them, IEEE doubles included.
    - [double2] is a pair; [.x] and [.y] are its projections.  The
      shared device functions [c_sqrmod], [c_mod], [c_times],
      [c_times_conj] and [c_divides] are defined outside src/, so they
      are the fields of [complex_fns] and nothing is assumed of them.
    - The one-dimensional kernels run on a store of named buffers
      ([gmap string (list V)]).  The binder may pass the same buffer as
      [a] and [dst], and the model then has one buffer, not two copies.
    - The index variables [x], [y], [z] and the extents [x_size],
      [y_size] of the launch are bound by the Handler's kernel prologue
      ([get_global_id], [get_global_size]), outside src/.  They are
      modelled from the spec as [uint] values, and the index expressions
      of the move kernels use [uint] arithmetic with its wrap-around.
    - [run_d1] and [run_d3] run the threads of a [Dim::D1] or [Dim::D3]
      launch one after the other.

    Theorems: each one-dimensional kernel computes the pointwise
    operation on the first [n] cells, even when [dst] is one of its
    inputs.  The complex packing kernels invert each other. *)

From Stdlib Require Import ZArith Lia.
From stdpp Require Import base list gmap strings.
From S2P Require Import Prelude Word.

(** ** Launches (the Handler's dispatch, spec section 6) *)

(** [gpu.run(name, Dim::D1(n))]: threads [x = 0 .. n-1]. *)
Definition run_d1 {A} (n : nat) (thread : nat -> A -> A) (a : A) : A :=
  foldl (fun a x => thread x a) a (seq 0 n).

Record double_ops (F : Type) := {
  d_zero : F;               (** the literal [0] of [(double2)(src[x],0)] *)
  d_add : F -> F -> F;
  d_sub : F -> F -> F;
  d_mul : F -> F -> F;
  d_div : F -> F -> F;
}.
Arguments d_zero {F}. Arguments d_add {F}. Arguments d_sub {F}.
Arguments d_mul {F}. Arguments d_div {F}.

(** The shared functions the [kc_*] kernels declare in [needed]. *)
Record complex_fns (F : Type) := {
  c_sqrmod : F * F -> F;
  c_mod : F * F -> F;
  c_times : F * F -> F * F -> F * F;
  c_times_conj : F * F -> F * F -> F * F;
  c_divides : F * F -> F * F -> F * F;
}.
Arguments c_sqrmod {F}. Arguments c_mod {F}. Arguments c_times {F}.
Arguments c_times_conj {F}. Arguments c_divides {F}.

(** ** One-dimensional kernels on a store of buffers *)

Section OneDim.
Context {V : Type} `{Inhabited V}.

(** [dst[x] = f(a[x], b[x]);] with [a], [b], [dst] the buffers bound to
    the three arguments.  Both reads happen before the write. *)
Definition ew_thread (f : V -> V -> V) (a b dst : string) (x : nat) (m : gmap string (list V)) : gmap string (list V) :=
  let v := f ((m !!! a) !!! x) ((m !!! b) !!! x) in
  <[dst := <[x := v]> (m !!! dst)]> m.

(** [dst[x] = f(src[x], c);] with the scalar parameter [c]. *)
Definition ec_thread (f : V -> V -> V) (src : string) (c : V) (dst : string) (x : nat)
    (m : gmap string (list V)) : gmap string (list V) :=
  <[dst := <[x := f ((m !!! src) !!! x) c]> (m !!! dst)]> m.
End OneDim.

(** Conversions between buffers of two element types: [dst[x] = f(src[x]);]. *)
Definition conv_thread {V W : Type} `{Inhabited V} (f : V -> W) (x : nat)
    (src : list V) (dst : list W) : list W :=
  <[x := f (src !!! x)]> dst.

Section Kernels.
Context {F : Type} `{Inhabited F} (o : double_ops F) (cf : complex_fns F).

(** Lines 178-201: [dst[x] = a[x]+b[x];] and its three siblings. *)
Definition plus := ew_thread o.(d_add).
Definition minus := ew_thread o.(d_sub).
Definition times := ew_thread o.(d_mul).
Definition divides := ew_thread o.(d_div).

(** Lines 202-225: [dst[x] = src[x]+c;] and its three siblings. *)
Definition cplus := ec_thread o.(d_add).
Definition cminus := ec_thread o.(d_sub).
Definition ctimes := ec_thread o.(d_mul).
Definition cdivides := ec_thread o.(d_div).

(** Lines 250-273. *)
Definition complex_from_real := conv_thread (fun r : F => (r, o.(d_zero))).
Definition complex_from_image := conv_thread (fun i : F => (o.(d_zero), i)).
Definition real_from_complex := conv_thread (@fst F F).
Definition image_from_complex := conv_thread (@snd F F).

(** Lines 274-285. *)
Definition kc_sqrmod := conv_thread cf.(c_sqrmod).
Definition kc_mod := conv_thread cf.(c_mod).

(** Lines 286-301, on a store of [double2] buffers. *)
Definition kc_times := ew_thread cf.(c_times).
Definition kc_times_conj := ew_thread cf.(c_times_conj).
Definition kc_divides := ew_thread cf.(c_divides).
End Kernels.

(** ** The move kernels (lines 226-249) *)

(** OpenCL [uint4]: the [size] and [dst_size] parameters. *)
Record uint4 := mk_uint4 { s_x : Z; s_y : Z; s_z : Z; s_w : Z }.

(** The threads of [Dim::D3(x_size, y_size, z_size)], [x] varying
    fastest. *)
Definition grid (gx gy gz : nat) : list (Z * Z * Z) :=
  z ← seq 0 gz; y ← seq 0 gy; (fun x => (Z.of_nat x, Z.of_nat y, Z.of_nat z)) <$> seq 0 gx.

(** Each thread sees the extents [x_size] and [y_size] of the launch. *)
Definition run_d3 {A} (gx gy gz : nat) (thread : Z -> Z -> Z * Z * Z -> A -> A) (a : A) : A :=
  foldl (fun a p => thread (Z.of_nat gx) (Z.of_nat gy) p a) a (grid gx gy gz).

(** The index expression [x+a*(y+b*z)] in [uint] arithmetic. *)
Definition lin (a b : Z) (p : Z * Z * Z) : Z :=
  let '(x, y, z) := p in add 32 x (mul 32 a (add 32 y (mul 32 b z))).

Section Move.
Context {F : Type} `{Inhabited F}.

(** [dst[x+x_size*(y+y_size*z) + offset] = src[x+size.x*(y+size.y*z)];]
    copies the launch box out of a [size]-shaped array into a packed
    array at [offset]. *)
Definition move (size : uint4) (offset : Z) (x_size y_size : Z) (p : Z * Z * Z)
    (src dst : list F) : list F :=
  <[Z.to_nat (add 32 (lin x_size y_size p) offset) := src !!! Z.to_nat (lin (s_x size) (s_y size) p)]> dst.

(** [dst[x+size.x*(y+size.y*z) + offset] = src[x+x_size*(y+y_size*z)];]
    copies a packed array into the launch box of a [size]-shaped array. *)
Definition smove (size : uint4) (offset : Z) (x_size y_size : Z) (p : Z * Z * Z)
    (src dst : list F) : list F :=
  <[Z.to_nat (add 32 (lin (s_x size) (s_y size) p) offset) := src !!! Z.to_nat (lin x_size y_size p)]> dst.

(** [dst[dst_size.x*(x+dst_size.y*(y+dst_size.z*z)) + dst_size.w] = src[x+size.x*(y+size.y*z)];] *)
Definition dmove (size dst_size : uint4) (x_size y_size : Z) (p : Z * Z * Z)
    (src dst : list F) : list F :=
  <[Z.to_nat (add 32 (mul 32 (s_x dst_size) (lin (s_y dst_size) (s_z dst_size) p)) (s_w dst_size))
      := src !!! Z.to_nat (lin (s_x size) (s_y size) p)]> dst.

(** [dst[x+dst_size.y*(y+dst_size.z*(z+dst_size.x*dst_size.w))] = src[x+size.x*(y+size.y*z)];] *)
Definition rdmove (size dst_size : uint4) (x_size y_size : Z) (p : Z * Z * Z)
    (src dst : list F) : list F :=
  let '(x, y, z) := p in
  <[Z.to_nat (lin (s_y dst_size) (s_z dst_size) (x, y, add 32 z (mul 32 (s_x dst_size) (s_w dst_size))))
      := src !!! Z.to_nat (lin (s_x size) (s_y size) p)]> dst.
End Move.

(** ** Lemmas: a launch fills the first [n] cells of [dst] in order *)

Section Prefix.
Context {A B V : Type} `{Inhabited A, Inhabited B, Inhabited V}.
Context (f : A -> B -> V) (la : list A) (lb : list B) (ld : list V).

(** After threads [0 .. k-1], [dst] holds [f] of the first [k] input
    cells, followed by its own untouched cells. *)
Definition filled (k : nat) : list V := zip_with f (take k la) (take k lb) ++ drop k ld.

Lemma length_filled k :
  (k <= length la)%nat -> (k <= length lb)%nat -> (k <= length ld)%nat ->
  length (filled k) = length ld.
Proof.
  intros. unfold filled. rewrite length_app, length_zip_with, !length_take, length_drop. lia.
Qed.

Lemma filled_step k :
  (k < length la)%nat -> (k < length lb)%nat -> (k < length ld)%nat ->
  <[k := f (la !!! k) (lb !!! k)]> (filled k) = filled (S k).
Proof.
  intros Ha Hb Hd. unfold filled.
  rewrite (take_S_r la k (la !!! k)), (take_S_r lb k (lb !!! k))
    by (apply list_lookup_lookup_total_lt; lia).
  rewrite zip_with_app by (rewrite !length_take; lia).
  rewrite (drop_S _ (ld !!! k)) by (apply list_lookup_lookup_total_lt; lia).
  rewrite insert_app_r_alt by (rewrite length_zip_with, !length_take; lia).
  rewrite length_zip_with, !length_take.
  replace (k - min (min k (length la)) (min k (length lb)))%nat with 0%nat by lia.
  by rewrite <- app_assoc.
Qed.

Lemma filled_lookup_ge k j :
  (k <= j)%nat -> (k <= length la)%nat -> (k <= length lb)%nat -> (k <= length ld)%nat ->
  filled k !!! j = ld !!! j.
Proof.
  intros. unfold filled. rewrite !list_lookup_total_alt, lookup_app_r
    by (rewrite length_zip_with, !length_take; lia).
  rewrite lookup_drop, length_zip_with, !length_take. f_equal. f_equal. lia.
Qed.
End Prefix.

Section OneDimLaunch.
Context {V : Type} `{Inhabited V} (f : V -> V -> V).
Context (a b d : string) (m : gmap string (list V)) (la lb ld : list V).
Hypothesis (Ha : m !! a = Some la) (Hb : m !! b = Some lb) (Hd : m !! d = Some ld).

(** A thread reads an input at its own index: before the write, that
    cell still holds its initial value even when the input is [dst]. *)
Lemma read_filled {A B} `{Inhabited A, Inhabited B} (g : A -> B -> V) (xa : list A) (xb : list B)
    (l : list V) c k n :
  m !! c = Some l -> (k < n)%nat -> (n <= length xa)%nat -> (n <= length xb)%nat ->
  (n <= length ld)%nat ->
  (<[d := filled g xa xb ld k]> m !!! c) !!! k = l !!! k.
Proof.
  intros Hc Hk ???. destruct (decide (c = d)) as [->|Hne].
  - rewrite lookup_total_insert_eq, filled_lookup_ge by lia. congruence.
  - rewrite lookup_total_insert_ne by done. by rewrite (lookup_total_correct _ _ _ Hc).
Qed.

Lemma ew_run n :
  (n <= length la)%nat -> (n <= length lb)%nat -> (n <= length ld)%nat ->
  run_d1 n (ew_thread f a b d) m = <[d := filled f la lb ld n]> m.
Proof.
  intros. unfold run_d1. induction n as [|n IH].
  - cbn. unfold filled. rewrite !take_0, drop_0. symmetry. by apply insert_id.
  - rewrite seq_S, foldl_app, IH by lia. cbn [foldl Nat.add]. unfold ew_thread.
    rewrite (read_filled f la lb la a n (S n)), (read_filled f la lb lb b n (S n)) by (done || lia).
    rewrite lookup_total_insert_eq, insert_insert_eq, filled_step by lia. done.
Qed.

Lemma ec_run (c : V) n :
  (n <= length la)%nat -> (n <= length ld)%nat ->
  run_d1 n (ec_thread f a c d) m = <[d := filled (fun u _ => f u c) la la ld n]> m.
Proof.
  intros. unfold run_d1. induction n as [|n IH].
  - cbn. unfold filled. rewrite !take_0, drop_0. symmetry. by apply insert_id.
  - rewrite seq_S, foldl_app, IH by lia. cbn [foldl Nat.add]. unfold ec_thread.
    rewrite (read_filled (fun u _ => f u c) la la la a n (S n)) by (done || lia).
    rewrite lookup_total_insert_eq, insert_insert_eq.
    by rewrite <- (filled_step (fun u _ => f u c) la la ld) by lia.
Qed.
End OneDimLaunch.

Lemma zip_with_diag {A B} (g : A -> B) (l : list A) : zip_with (fun u _ => g u) l l = g <$> l.
Proof. induction l; simpl; by f_equal. Qed.

Lemma conv_run {V W} `{Inhabited V, Inhabited W} (g : V -> W) (src : list V) (dst : list W) n :
  (n <= length src)%nat -> (n <= length dst)%nat ->
  run_d1 n (fun x => conv_thread g x src) dst = (g <$> take n src) ++ drop n dst.
Proof.
  intros. rewrite <- zip_with_diag. change (_ ++ _) with (filled (fun u _ => g u) src src dst n).
  unfold run_d1. induction n as [|n IH]; [by cbn; unfold filled; rewrite drop_0|].
  rewrite seq_S, foldl_app, IH by lia. cbn [foldl Nat.add]. unfold conv_thread.
  by rewrite (filled_step (fun u _ => g u)) by lia.
Qed.

Lemma take_conv_run {V W} `{Inhabited V, Inhabited W} (g : V -> W) (src : list V) (dst : list W) n :
  (n <= length src)%nat -> (n <= length dst)%nat ->
  take n (run_d1 n (fun x => conv_thread g x src) dst) = g <$> take n src.
Proof.
  intros. rewrite conv_run by done. apply take_app_length'.
  rewrite length_fmap, length_take. lia.
Qed.

Lemma length_conv_run {V W} `{Inhabited V, Inhabited W} (g : V -> W) (src : list V) (dst : list W) n :
  (n <= length src)%nat -> (n <= length dst)%nat ->
  length (run_d1 n (fun x => conv_thread g x src) dst) = length dst.
Proof.
  intros. rewrite conv_run by done. rewrite length_app, length_fmap, length_take, length_drop. lia.
Qed.

(** Extracting with [h] what [g] packed gives back the source cells. *)
Lemma conv_run_roundtrip {U V} `{Inhabited U, Inhabited V}
    (g : U -> V) (h : V -> U) (src : list U) (tmp : list V) (dst : list U) n :
  (forall u, h (g u) = u) ->
  (n <= length src)%nat -> (n <= length tmp)%nat -> (n <= length dst)%nat ->
  run_d1 n (fun x => conv_thread h x (run_d1 n (fun x => conv_thread g x src) tmp)) dst
    = take n src ++ drop n dst.
Proof.
  intros Hhg ???. rewrite conv_run by (rewrite ?length_conv_run; lia).
  rewrite take_conv_run by lia. rewrite <- list_fmap_compose. f_equal.
  rewrite <- (list_fmap_id (take n src)) at 2. apply list_fmap_ext. intros. apply Hhg.
Qed.

(** ** Lemmas on the move indices *)

(** The exact value of [x+a*(y+b*z)]. *)
Definition lin_val (a b : Z) (p : Z * Z * Z) : Z := let '(x, y, z) := p in (x + a * (y + b * z))%Z.

Lemma elem_of_grid gx gy gz x y z :
  (x, y, z) ∈ grid gx gy gz <->
  (0 <= x < Z.of_nat gx /\ 0 <= y < Z.of_nat gy /\ 0 <= z < Z.of_nat gz)%Z.
Proof.
  unfold grid. rewrite list_elem_of_bind. setoid_rewrite list_elem_of_bind.
  setoid_rewrite list_elem_of_fmap. setoid_rewrite elem_of_seq. split.
  - intros (z' & (y' & (x' & [= -> -> ->] & ?) & ?) & ?). lia.
  - intros (? & ? & ?). exists (Z.to_nat z). split; [|lia]. exists (Z.to_nat y). split; [|lia].
    exists (Z.to_nat x). split; [|lia]. repeat f_equal; lia.
Qed.

Lemma lin_wrap a b p : lin a b p = wrap 32 (lin_val a b p).
Proof.
  destruct p as [[x y] z]. unfold lin, lin_val. by wrap_norm.
Qed.

(** Mixed-radix digits are unique. *)
Lemma radix_inj a x1 x2 q1 q2 :
  (0 <= x1 < a -> 0 <= x2 < a -> x1 + a * q1 = x2 + a * q2 -> x1 = x2 /\ q1 = q2)%Z.
Proof. intros. assert (q1 = q2) by (destruct (Z.lt_total q1 q2) as [|[|]]; nia). subst. lia. Qed.

Lemma lin_val_inj a b x1 y1 z1 x2 y2 z2 :
  (0 <= x1 < a -> 0 <= x2 < a -> 0 <= y1 < b -> 0 <= y2 < b ->
   lin_val a b (x1, y1, z1) = lin_val a b (x2, y2, z2) -> (x1, y1, z1) = (x2, y2, z2))%Z.
Proof.
  cbn. intros ???? E. apply radix_inj in E as [-> E]; [|lia..].
  apply radix_inj in E as [-> E]; [|lia..]. f_equal. nia.
Qed.

Lemma lin_val_bound a b c x y z :
  (0 <= x < a -> 0 <= y < b -> 0 <= z < c -> 0 <= lin_val a b (x, y, z) < a * b * c)%Z.
Proof. cbn. intros. assert (0 <= y + b * z < b * c)%Z by nia. nia. Qed.

(** A three-dimensional launch whose threads write distinct cells
    [e p], all below [2^32] and inside [dst]. *)
Lemma grid_scatter {F} gx gy gz (e : Z * Z * Z -> Z) (v : Z * Z * Z -> F) (dst : list F) :
  (forall p, p ∈ grid gx gy gz -> 0 <= e p < 2 ^ 32)%Z ->
  (forall p q, p ∈ grid gx gy gz -> q ∈ grid gx gy gz -> e p = e q -> p = q) ->
  (forall p, p ∈ grid gx gy gz -> Z.to_nat (e p) < length dst)%nat ->
  let out := scatter (fun p => Z.to_nat (wrap 32 (e p))) v (grid gx gy gz) dst in
  length out = length dst /\
  (forall p, p ∈ grid gx gy gz -> out !! Z.to_nat (e p) = Some (v p)) /\
  (forall j, (forall p, p ∈ grid gx gy gz -> Z.to_nat (e p) <> j) -> out !! j = dst !! j).
Proof.
  intros Hw Hinj Hlen out. unfold out. split_and!.
  - apply length_scatter.
  - intros p Hp. rewrite <- (wrap_small 32 (e p)) at 1 by (apply Hw, Hp).
    apply (scatter_hit (fun p => Z.to_nat (wrap 32 (e p))) v _ _ p Hp); [|rewrite wrap_small by (apply Hw, Hp); auto].
    intros q Hq E. rewrite !wrap_small in E by (apply Hw; done).
    f_equal. apply Hinj; [done..|]. apply Z2Nat.inj in E; [done|apply Hw; done..].
  - intros j Hj. apply scatter_miss. intros p Hp.
    rewrite wrap_small by (apply Hw, Hp). auto.
Qed.

(** Each move launch is a scatter whose index is one truncation of the
    exact index expression. *)
Section MoveScatter.
Context {F : Type} `{Inhabited F} (size ds : uint4) (off : Z) (gx gy gz : nat) (src dst : list F).

Definition move_val (p : Z * Z * Z) : F := src !!! Z.to_nat (lin (s_x size) (s_y size) p).

Lemma run_move :
  run_d3 gx gy gz (fun xs ys p => move size off xs ys p src) dst =
  scatter (fun p => Z.to_nat (wrap 32 (lin_val (Z.of_nat gx) (Z.of_nat gy) p + off))) move_val
    (grid gx gy gz) dst.
Proof.
  apply foldl_ext. intros d [[x y] z]. unfold move, lin, lin_val, move_val. f_equal. f_equal. by wrap_norm.
Qed.

Lemma run_smove :
  run_d3 gx gy gz (fun xs ys p => smove size off xs ys p src) dst =
  scatter (fun p => Z.to_nat (wrap 32 (lin_val (s_x size) (s_y size) p + off)))
    (fun p => src !!! Z.to_nat (lin (Z.of_nat gx) (Z.of_nat gy) p)) (grid gx gy gz) dst.
Proof.
  apply foldl_ext. intros d [[x y] z]. unfold smove, lin at 1, lin_val. f_equal. f_equal. by wrap_norm.
Qed.

Lemma run_dmove :
  run_d3 gx gy gz (fun xs ys p => dmove size ds xs ys p src) dst =
  scatter (fun p => Z.to_nat (wrap 32 (s_x ds * lin_val (s_y ds) (s_z ds) p + s_w ds))) move_val
    (grid gx gy gz) dst.
Proof.
  apply foldl_ext. intros d [[x y] z]. unfold dmove, lin at 1, lin_val, move_val. f_equal. f_equal.
  by wrap_norm.
Qed.

Lemma run_rdmove :
  run_d3 gx gy gz (fun xs ys p => rdmove size ds xs ys p src) dst =
  scatter (fun p => Z.to_nat (wrap 32 (lin_val (s_y ds) (s_z ds) (p.1.1, p.1.2, (p.2 + s_x ds * s_w ds)%Z))))
    move_val (grid gx gy gz) dst.
Proof.
  apply foldl_ext. intros d [[x y] z]. unfold rdmove, lin at 1, lin_val, move_val. f_equal. f_equal.
  by wrap_norm.
Qed.
End MoveScatter.

(** [grid_bound a b c] introduces a grid point and the range of
    [x+a*(y+b*z)] over the box [a*b*c] containing the grid. *)
Ltac grid_bound a b c :=
  let x := fresh "x" in let y := fresh "y" in let z := fresh "z" in let Hp := fresh "Hp" in
  intros [[x y] z] Hp%elem_of_grid;
  pose proof (lin_val_bound a b c x y z ltac:(lia) ltac:(lia) ltac:(lia));
  cbn [lin_val fst snd] in *.

(** [grid_inj a b] proves two grid points equal from equal indices. *)
Ltac grid_inj a b :=
  let x1 := fresh "x" in let y1 := fresh "y" in let z1 := fresh "z" in
  let x2 := fresh "x" in let y2 := fresh "y" in let z2 := fresh "z" in
  let H1 := fresh "H" in let H2 := fresh "H" in let E := fresh "E" in
  intros [[x1 y1] z1] [[x2 y2] z2] H1%elem_of_grid H2%elem_of_grid E;
  apply (lin_val_inj a b); cbn [lin_val fst snd] in *; nia.

(** Integer instances of the double and complex operations, used to
    run the kernels on concrete buffers. *)
Definition z_ops : double_ops Z :=
  {| d_zero := 0%Z; d_add := Z.add; d_sub := Z.sub; d_mul := Z.mul; d_div := Z.div |}.

Definition z_cfns : complex_fns Z :=
  {| c_sqrmod := fun u => (u.1 * u.1 + u.2 * u.2)%Z;
     c_mod := fun u => Z.sqrt (u.1 * u.1 + u.2 * u.2);
     c_times := fun u v => (u.1 * v.1 - u.2 * v.2, u.1 * v.2 + u.2 * v.1)%Z;
     c_times_conj := fun u v => (u.1 * v.1 + u.2 * v.2, u.2 * v.1 - u.1 * v.2)%Z;
     c_divides := fun u v => (u.1 / v.1, u.2 / v.2)%Z |}.

(** ** Properties *)

(** C15. The buffer-buffer kernels [plus], [minus], [times], [divides]
    and the complex [kc_times], [kc_times_conj], [kc_divides], launched
    on [n] threads, set the first [n] cells of [dst] to the operation
    applied to the first [n] cells of [a] and [b].  The rest of [dst] and
    every other buffer stay unchanged.  This holds when [dst] is bound
    to the same buffer as [a] or [b]: each thread reads its own cell
    before it writes it. *)
Theorem elementwise_kernels_spec {F} `{Inhabited F} (o : double_ops F) (cf : complex_fns F)
    (a b d : string) (m : gmap string (list F)) (mc : gmap string (list (F * F)))
    la lb ld ca cb cd n :
  m !! a = Some la -> m !! b = Some lb -> m !! d = Some ld ->
  mc !! a = Some ca -> mc !! b = Some cb -> mc !! d = Some cd ->
  (n <= length la)%nat -> (n <= length lb)%nat -> (n <= length ld)%nat ->
  (n <= length ca)%nat -> (n <= length cb)%nat -> (n <= length cd)%nat ->
  run_d1 n (plus o a b d) m = <[d := zip_with (d_add o) (take n la) (take n lb) ++ drop n ld]> m /\
  run_d1 n (minus o a b d) m = <[d := zip_with (d_sub o) (take n la) (take n lb) ++ drop n ld]> m /\
  run_d1 n (times o a b d) m = <[d := zip_with (d_mul o) (take n la) (take n lb) ++ drop n ld]> m /\
  run_d1 n (divides o a b d) m = <[d := zip_with (d_div o) (take n la) (take n lb) ++ drop n ld]> m /\
  run_d1 n (kc_times cf a b d) mc =
    <[d := zip_with (c_times cf) (take n ca) (take n cb) ++ drop n cd]> mc /\
  run_d1 n (kc_times_conj cf a b d) mc =
    <[d := zip_with (c_times_conj cf) (take n ca) (take n cb) ++ drop n cd]> mc /\
  run_d1 n (kc_divides cf a b d) mc =
    <[d := zip_with (c_divides cf) (take n ca) (take n cb) ++ drop n cd]> mc.
Proof. intros. split_and!; by apply ew_run. Qed.

(** C16. The buffer-scalar kernels [cplus], [cminus], [ctimes] and
    [cdivides] set the first [n] cells of [dst] to [src[x] op c], also
    when [dst] is [src]. *)
Theorem scalar_kernels_spec {F} `{Inhabited F} (o : double_ops F) (s d : string)
    (m : gmap string (list F)) (c : F) ls ld n :
  m !! s = Some ls -> m !! d = Some ld -> (n <= length ls)%nat -> (n <= length ld)%nat ->
  run_d1 n (cplus o s c d) m = <[d := ((fun u => d_add o u c) <$> take n ls) ++ drop n ld]> m /\
  run_d1 n (cminus o s c d) m = <[d := ((fun u => d_sub o u c) <$> take n ls) ++ drop n ld]> m /\
  run_d1 n (ctimes o s c d) m = <[d := ((fun u => d_mul o u c) <$> take n ls) ++ drop n ld]> m /\
  run_d1 n (cdivides o s c d) m = <[d := ((fun u => d_div o u c) <$> take n ls) ++ drop n ld]> m.
Proof.
  intros. split_and!; rewrite <- zip_with_diag;
    apply (ec_run _ s d m ls ld); done.
Qed.

(** C17. The complex packing kernels invert each other: packing the
    first [n] reals as real parts ([complex_from_real]) or imaginary
    parts ([complex_from_image]), then extracting them with
    [real_from_complex] or [image_from_complex], gives back those
    reals.  [kc_sqrmod] and [kc_mod] apply their shared function
    cell by cell. *)
Theorem complex_packing_roundtrip {F} `{Inhabited F} (o : double_ops F) (cf : complex_fns F)
    (src : list F) (tmp : list (F * F)) (dst : list F) n :
  (n <= length src)%nat -> (n <= length tmp)%nat -> (n <= length dst)%nat ->
  run_d1 n (fun x => real_from_complex x (run_d1 n (fun x => complex_from_real o x src) tmp)) dst
    = take n src ++ drop n dst /\
  run_d1 n (fun x => image_from_complex x (run_d1 n (fun x => complex_from_image o x src) tmp)) dst
    = take n src ++ drop n dst /\
  run_d1 n (fun x => kc_sqrmod cf x tmp) dst = (c_sqrmod cf <$> take n tmp) ++ drop n dst /\
  run_d1 n (fun x => kc_mod cf x tmp) dst = (c_mod cf <$> take n tmp) ++ drop n dst.
Proof.
  intros. unfold real_from_complex, image_from_complex, complex_from_real, complex_from_image.
  split_and!; try (by apply conv_run);
    (by apply conv_run_roundtrip).
Qed.

Local Open Scope Z_scope.

Lemma elementwise_kernels_spec_witness :
  let m : gmap string (list Z) := {[ "a" := [1; 2; 3]; "b" := [10; 20; 30] ]}%Z in
  let mc : gmap string (list (Z * Z)) := {[ "a" := [(1, 1); (2, 0)]; "b" := [(0, 1); (3, 3)] ]}%Z in
  run_d1 2 (plus z_ops "a" "b" "a") m = <[ "a" := [11; 22; 3] ]> m /\
  run_d1 2 (minus z_ops "a" "b" "a") m = <[ "a" := [-9; -18; 3] ]> m /\
  run_d1 2 (times z_ops "a" "b" "a") m = <[ "a" := [10; 40; 3] ]> m /\
  run_d1 2 (divides z_ops "a" "b" "a") m = <[ "a" := [0; 0; 3] ]> m /\
  run_d1 2 (kc_times z_cfns "a" "b" "a") mc = <[ "a" := [(-1, 1); (6, 6)] ]> mc /\
  run_d1 2 (kc_times_conj z_cfns "a" "b" "a") mc = <[ "a" := [(1, -1); (6, -6)] ]> mc /\
  run_d1 2 (kc_divides z_cfns "a" "b" "a") mc = <[ "a" := [(0, 1); (0, 0)] ]> mc.
Proof.
  intros m mc.
  apply (elementwise_kernels_spec z_ops z_cfns "a" "b" "a" m mc [1; 2; 3] [10; 20; 30] [1; 2; 3]
           [(1, 1); (2, 0)] [(0, 1); (3, 3)] [(1, 1); (2, 0)] 2); reflexivity || (simpl; lia).
Defined.

Lemma scalar_kernels_spec_witness :
  let m : gmap string (list Z) := {[ "src" := [1; 2; 3] ]}%Z in
  run_d1 3 (cplus z_ops "src" 4 "src") m = <[ "src" := [5; 6; 7] ]> m /\
  run_d1 3 (cminus z_ops "src" 4 "src") m = <[ "src" := [-3; -2; -1] ]> m /\
  run_d1 3 (ctimes z_ops "src" 4 "src") m = <[ "src" := [4; 8; 12] ]> m /\
  run_d1 3 (cdivides z_ops "src" 4 "src") m = <[ "src" := [0; 0; 0] ]> m.
Proof.
  intros m.
  apply (scalar_kernels_spec z_ops "src" "src" m 4 [1; 2; 3] [1; 2; 3] 3); reflexivity || (simpl; lia).
Defined.

Lemma complex_packing_roundtrip_witness :
  run_d1 2 (fun x => real_from_complex x
    (run_d1 2 (fun x => complex_from_real z_ops x [7; 8; 9]%Z) [(3, 4); (1, 2)]%Z)) [0; 0; 5]%Z
    = [7; 8; 5]%Z /\
  run_d1 2 (fun x => image_from_complex x
    (run_d1 2 (fun x => complex_from_image z_ops x [7; 8; 9]%Z) [(3, 4); (1, 2)]%Z)) [0; 0; 5]%Z
    = [7; 8; 5]%Z /\
  run_d1 2 (fun x => kc_sqrmod z_cfns x [(3, 4); (1, 2)]%Z) [0; 0; 5]%Z = [25; 5; 5]%Z /\
  run_d1 2 (fun x => kc_mod z_cfns x [(3, 4); (1, 2)]%Z) [0; 0; 5]%Z = [5; 2; 5]%Z.
Proof.
  apply (complex_packing_roundtrip z_ops z_cfns [7; 8; 9]%Z [(3, 4); (1, 2)]%Z [0; 0; 5]%Z 2);
    simpl; lia.
Defined.

(** The facts of [grid_scatter] for [move]. *)
Lemma move_scatter {F} `{Inhabited F} (size : uint4) (off : Z) (gx gy gz : nat) (src dst : list F) :
  0 <= off ->
  off + Z.of_nat gx * Z.of_nat gy * Z.of_nat gz <= Z.of_nat (length dst) ->
  off + Z.of_nat gx * Z.of_nat gy * Z.of_nat gz <= 2 ^ 32 ->
  let out := run_d3 gx gy gz (fun xs ys p => move size off xs ys p src) dst in
  length out = length dst /\
  (forall p, p ∈ grid gx gy gz ->
     out !! Z.to_nat (lin_val (Z.of_nat gx) (Z.of_nat gy) p + off) = Some (move_val size src p)) /\
  (forall j, (forall p, p ∈ grid gx gy gz -> Z.to_nat (lin_val (Z.of_nat gx) (Z.of_nat gy) p + off) <> j) ->
     out !! j = dst !! j).
Proof.
  intros Hoff Hlen H32 out. unfold out. rewrite run_move.
  apply grid_scatter.
  - grid_bound (Z.of_nat gx) (Z.of_nat gy) (Z.of_nat gz). lia.
  - grid_inj (Z.of_nat gx) (Z.of_nat gy).
  - grid_bound (Z.of_nat gx) (Z.of_nat gy) (Z.of_nat gz). lia.
Qed.

(** C18. [move] copies the launch box out of a [size]-shaped array into
    a packed block of [dst]: the thread at [(x,y,z)] writes cell
    [offset+x+x_size*(y+y_size*z)] with the source cell
    [x+size.x*(y+size.y*z)].  No cell outside
    [offset .. offset+x_size*y_size*z_size) changes.  The hypotheses
    say that the block fits in [dst] and that the [uint] index does not
    wrap. *)
Theorem move_fills_block {F} `{Inhabited F} (size : uint4) (off : Z) (gx gy gz : nat)
    (src dst : list F) :
  0 <= off ->
  off + Z.of_nat gx * Z.of_nat gy * Z.of_nat gz <= Z.of_nat (length dst) ->
  off + Z.of_nat gx * Z.of_nat gy * Z.of_nat gz <= 2 ^ 32 ->
  let out := run_d3 gx gy gz (fun xs ys p => move size off xs ys p src) dst in
  length out = length dst /\
  (forall x y z, 0 <= x < Z.of_nat gx -> 0 <= y < Z.of_nat gy -> 0 <= z < Z.of_nat gz ->
     out !! Z.to_nat (off + (x + Z.of_nat gx * (y + Z.of_nat gy * z))) =
       Some (src !!! Z.to_nat (lin (s_x size) (s_y size) (x, y, z)))) /\
  (forall j, (j < Z.to_nat off \/ Z.to_nat (off + Z.of_nat gx * Z.of_nat gy * Z.of_nat gz) <= j)%nat ->
     out !! j = dst !! j).
Proof.
  intros Hoff Hlen H32 out.
  destruct (move_scatter size off gx gy gz src dst) as (Hl & Hhit & Hmiss); [done..|].
  split_and!; [done| |].
    + intros x y z ???. rewrite (Z.add_comm off).
      apply (Hhit (x, y, z)), elem_of_grid. lia.
    + intros j Hj. apply Hmiss. grid_bound (Z.of_nat gx) (Z.of_nat gy) (Z.of_nat gz). lia.
Qed.

Lemma move_fills_block_witness :
  let src := [10; 11; 12; 13; 14; 15; 16; 17; 18] in
  let size := mk_uint4 3 3 1 0 in
  (0 <= 1 /\ 1 + 2 * 2 * 1 <= Z.of_nat (length [0; 0; 0; 0; 0; 0]) /\ 1 + 2 * 2 * 1 <= 2 ^ 32) /\
  run_d3 2 2 1 (fun xs ys p => move size 1 xs ys p src) [0; 0; 0; 0; 0; 0] = [0; 10; 11; 13; 14; 0] /\
  (let out := run_d3 2 2 1 (fun xs ys p => move size 1 xs ys p src) [0; 0; 0; 0; 0; 0] in
   length out = length [0; 0; 0; 0; 0; 0] /\
   (forall x y z, 0 <= x < Z.of_nat 2 -> 0 <= y < Z.of_nat 2 -> 0 <= z < Z.of_nat 1 ->
      out !! Z.to_nat (1 + (x + Z.of_nat 2 * (y + Z.of_nat 2 * z))) =
        Some (src !!! Z.to_nat (lin (s_x size) (s_y size) (x, y, z)))) /\
   (forall j, (j < Z.to_nat 1 \/ Z.to_nat (1 + Z.of_nat 2 * Z.of_nat 2 * Z.of_nat 1) <= j)%nat ->
      out !! j = [0; 0; 0; 0; 0; 0] !! j)).
Proof.
  intros src size. split_and!; [lia | cbn; lia | lia | reflexivity |].
  apply (move_fills_block size 1 2 2 1 src [0; 0; 0; 0; 0; 0]); cbn; lia.
Defined.

(** C19. [dmove] and [rdmove] scatter the launch box into a
    [dst_size]-shaped array without write conflicts.
    - [dmove] writes cell [dst_size.x*(x+dst_size.y*(y+dst_size.z*z)) + dst_size.w]
      when the stride [dst_size.x] is positive.
    - [rdmove] writes cell [x+dst_size.y*(y+dst_size.z*(z+dst_size.x*dst_size.w))].
    In both, the box must fit the destination extents [dst_size.y],
    [dst_size.z].  Each thread's cell then receives the thread's source
    cell, and every other cell of [dst] is unchanged. *)
Theorem dmove_rdmove_spec {F} `{Inhabited F} (size ds : uint4) (gx gy gz : nat) (src dst : list F) :
  (0 < s_x ds -> 0 <= s_w ds -> Z.of_nat gx <= s_y ds -> Z.of_nat gy <= s_z ds ->
   s_x ds * (s_y ds * s_z ds * Z.of_nat gz) + s_w ds <= Z.of_nat (length dst) ->
   s_x ds * (s_y ds * s_z ds * Z.of_nat gz) + s_w ds <= 2 ^ 32 ->
   let out := run_d3 gx gy gz (fun xs ys p => dmove size ds xs ys p src) dst in
   length out = length dst /\
   (forall p, p ∈ grid gx gy gz ->
      out !! Z.to_nat (s_x ds * lin_val (s_y ds) (s_z ds) p + s_w ds) =
        Some (src !!! Z.to_nat (lin (s_x size) (s_y size) p))) /\
   (forall j, (forall p, p ∈ grid gx gy gz -> Z.to_nat (s_x ds * lin_val (s_y ds) (s_z ds) p + s_w ds) <> j) ->
      out !! j = dst !! j)) /\
  (0 <= s_x ds -> 0 <= s_w ds -> Z.of_nat gx <= s_y ds -> Z.of_nat gy <= s_z ds ->
   s_y ds * s_z ds * (Z.of_nat gz + s_x ds * s_w ds) <= Z.of_nat (length dst) ->
   s_y ds * s_z ds * (Z.of_nat gz + s_x ds * s_w ds) <= 2 ^ 32 ->
   let out := run_d3 gx gy gz (fun xs ys p => rdmove size ds xs ys p src) dst in
   length out = length dst /\
   (forall p, p ∈ grid gx gy gz ->
      out !! Z.to_nat (lin_val (s_y ds) (s_z ds) (p.1.1, p.1.2, p.2 + s_x ds * s_w ds)) =
        Some (src !!! Z.to_nat (lin (s_x size) (s_y size) p))) /\
   (forall j, (forall p, p ∈ grid gx gy gz ->
                 Z.to_nat (lin_val (s_y ds) (s_z ds) (p.1.1, p.1.2, p.2 + s_x ds * s_w ds)) <> j) ->
      out !! j = dst !! j)).
Proof.
  split.
  - intros Hx Hw Hy Hz Hlen H32 out. unfold out. rewrite run_dmove. apply grid_scatter.
    + grid_bound (s_y ds) (s_z ds) (Z.of_nat gz). nia.
    + grid_inj (s_y ds) (s_z ds).
    + grid_bound (s_y ds) (s_z ds) (Z.of_nat gz). nia.
  - intros Hx Hw Hy Hz Hlen H32 out. unfold out. rewrite run_rdmove. apply grid_scatter.
    + intros [[x y] z] Hp%elem_of_grid. cbn [fst snd].
      pose proof (lin_val_bound (s_y ds) (s_z ds) (Z.of_nat gz + s_x ds * s_w ds) x y
                    (z + s_x ds * s_w ds) ltac:(lia) ltac:(lia) ltac:(nia)). lia.
    + intros [[x1 y1] z1] [[x2 y2] z2] H1%elem_of_grid H2%elem_of_grid E. cbn [fst snd] in E.
      apply (lin_val_inj (s_y ds) (s_z ds)) in E; [|lia..]. simplify_eq. f_equal. f_equal. lia.
    + intros [[x y] z] Hp%elem_of_grid. cbn [fst snd].
      pose proof (lin_val_bound (s_y ds) (s_z ds) (Z.of_nat gz + s_x ds * s_w ds) x y
                    (z + s_x ds * s_w ds) ltac:(lia) ltac:(lia) ltac:(nia)). lia.
Qed.

Lemma dmove_rdmove_spec_witness :
  let size := mk_uint4 2 2 1 0 in
  let ds := mk_uint4 1 2 2 3 in
  let src := [1; 2; 3; 4] in
  let dst := repeat 0 16 in
  run_d3 2 2 1 (fun xs ys p => dmove size ds xs ys p src) dst =
    [0; 0; 0; 1; 2; 3; 4; 0; 0; 0; 0; 0; 0; 0; 0; 0] /\
  run_d3 2 2 1 (fun xs ys p => rdmove size ds xs ys p src) dst =
    [0; 0; 0; 0; 0; 0; 0; 0; 0; 0; 0; 0; 1; 2; 3; 4] /\
  ((0 < s_x ds -> 0 <= s_w ds -> Z.of_nat 2 <= s_y ds -> Z.of_nat 2 <= s_z ds ->
    s_x ds * (s_y ds * s_z ds * Z.of_nat 1) + s_w ds <= Z.of_nat (length dst) ->
    s_x ds * (s_y ds * s_z ds * Z.of_nat 1) + s_w ds <= 2 ^ 32 ->
    let out := run_d3 2 2 1 (fun xs ys p => dmove size ds xs ys p src) dst in
    length out = length dst /\
    (forall p, p ∈ grid 2 2 1 ->
       out !! Z.to_nat (s_x ds * lin_val (s_y ds) (s_z ds) p + s_w ds) =
         Some (src !!! Z.to_nat (lin (s_x size) (s_y size) p))) /\
    (forall j, (forall p, p ∈ grid 2 2 1 -> Z.to_nat (s_x ds * lin_val (s_y ds) (s_z ds) p + s_w ds) <> j) ->
       out !! j = dst !! j)) /\
   (0 <= s_x ds -> 0 <= s_w ds -> Z.of_nat 2 <= s_y ds -> Z.of_nat 2 <= s_z ds ->
    s_y ds * s_z ds * (Z.of_nat 1 + s_x ds * s_w ds) <= Z.of_nat (length dst) ->
    s_y ds * s_z ds * (Z.of_nat 1 + s_x ds * s_w ds) <= 2 ^ 32 ->
    let out := run_d3 2 2 1 (fun xs ys p => rdmove size ds xs ys p src) dst in
    length out = length dst /\
    (forall p, p ∈ grid 2 2 1 ->
       out !! Z.to_nat (lin_val (s_y ds) (s_z ds) (p.1.1, p.1.2, p.2 + s_x ds * s_w ds)) =
         Some (src !!! Z.to_nat (lin (s_x size) (s_y size) p))) /\
    (forall j, (forall p, p ∈ grid 2 2 1 ->
                  Z.to_nat (lin_val (s_y ds) (s_z ds) (p.1.1, p.1.2, p.2 + s_x ds * s_w ds)) <> j) ->
       out !! j = dst !! j))) /\
  (0 < s_x ds /\ 0 <= s_w ds /\ Z.of_nat 2 <= s_y ds /\ Z.of_nat 2 <= s_z ds /\
   s_x ds * (s_y ds * s_z ds * Z.of_nat 1) + s_w ds <= Z.of_nat (length dst) /\
   s_y ds * s_z ds * (Z.of_nat 1 + s_x ds * s_w ds) <= Z.of_nat (length dst)).
Proof.
  intros size ds src dst. split_and!; [reflexivity | reflexivity | | |cbn; lia..].
  - apply (dmove_rdmove_spec size ds 2 2 1 src dst).
  - apply (dmove_rdmove_spec size ds 2 2 1 src dst).
Defined.

(** C20. [smove] undoes [move]: copying the launch box out of a
    [size]-shaped array [big] into a packed buffer with [move], then
    back with [smove] (both at offset 0), leaves [big] unchanged.  The
    box must fit [size] and the packed buffer, and [big] must be below
    [2^32] cells. *)
Theorem smove_move_roundtrip {F} `{Inhabited F} (size : uint4) (gx gy gz : nat) (big tmp : list F) :
  Z.of_nat gx <= s_x size -> Z.of_nat gy <= s_y size -> Z.of_nat gz <= s_z size ->
  s_x size * s_y size * s_z size <= Z.of_nat (length big) ->
  s_x size * s_y size * s_z size <= 2 ^ 32 ->
  Z.of_nat gx * Z.of_nat gy * Z.of_nat gz <= Z.of_nat (length tmp) ->
  run_d3 gx gy gz
    (fun xs ys p => smove size 0 xs ys p (run_d3 gx gy gz (fun xs ys p => move size 0 xs ys p big) tmp))
    big = big.
Proof.
  intros Hx Hy Hz Hbig H32 Htmp.
  assert (Z.of_nat gx * Z.of_nat gy <= s_x size * s_y size) by nia.
  assert (Hg : Z.of_nat gx * Z.of_nat gy * Z.of_nat gz <= s_x size * s_y size * s_z size) by nia.
  destruct (move_scatter size 0 gx gy gz big tmp) as (_ & Hhit & _); [lia..|].
  rewrite run_smove. apply (@scatter_id _ F _ _ _). intros [[x y] z] Hp. pose proof Hp as Hp'.
  apply elem_of_grid in Hp'.
  pose proof (lin_val_bound (s_x size) (s_y size) (s_z size) x y z ltac:(lia) ltac:(lia) ltac:(lia)).
  pose proof (lin_val_bound (Z.of_nat gx) (Z.of_nat gy) (Z.of_nat gz) x y z ltac:(lia) ltac:(lia) ltac:(lia)).
  rewrite Z.add_0_r, lin_wrap, (wrap_small 32 (lin_val (Z.of_nat gx) _ _)) by (unfold word; lia).
  split; [|unfold wrap; rewrite Z.mod_small; lia].
  specialize (Hhit _ Hp). rewrite Z.add_0_r in Hhit.
  apply list_lookup_total_correct. rewrite Hhit. unfold move_val. by rewrite lin_wrap.
Qed.

Lemma smove_move_roundtrip_witness :
  let size := mk_uint4 3 2 1 0 in
  let big := [1; 2; 3; 4; 5; 6] in
  (Z.of_nat 2 <= s_x size /\ Z.of_nat 2 <= s_y size /\ Z.of_nat 1 <= s_z size /\
   s_x size * s_y size * s_z size <= Z.of_nat (length big) /\
   s_x size * s_y size * s_z size <= 2 ^ 32 /\
   Z.of_nat 2 * Z.of_nat 2 * Z.of_nat 1 <= Z.of_nat (length [0; 0; 0; 0])) /\
  run_d3 2 2 1 (fun xs ys p => move size 0 xs ys p big) [0; 0; 0; 0] = [1; 2; 4; 5] /\
  run_d3 2 2 1
    (fun xs ys p => smove size 0 xs ys p (run_d3 2 2 1 (fun xs ys p => move size 0 xs ys p big) [0; 0; 0; 0]))
    big = big.
Proof.
  intros size big. split_and!; [cbn; lia.. | reflexivity |].
  apply (smove_move_roundtrip size 2 2 1 big [0; 0; 0; 0]); cbn; lia.
Defined.
