(* ===== verification/Launch.v ===== *)
(** * The benchmark of src/examples/random.rs

    [main] builds a [Handler] with six buffers.  It loads the three
    normal Philox kernels under the aliases [noise], [noise4] and
    [noise32] and binds their arguments.  Then, for each kernel, it runs
    it [n] times on [Dim::D1] launches, with the [moments] algorithm
    after each run.

    The Handler ([gpgpu::Handler], [gpgpu::descriptors]) is not under
    src/.  Its builder and binder are modelled from the spec.
    - Buffers carry an element type ([Type]) and a length.
    - [load_kernel_named] looks a descriptor up in the catalog ([lookup]
      of spec 6).
    - [set_arg] is the binder of spec 4.2 and 7.  It matches the
      bindings against the descriptor's [args] in order and checks
      their count, kind and element type: a buffer argument takes a
      buffer ([Buffer], or [BufArg] naming that argument), a parameter
      argument takes a [Param] of its name.  A disagreement is an
      [ArgumentMismatch].
    - A [Dim::D1(n)] run of a kernel is [run_d1 n] of its model in
      [Transforms].

    [random_setup] translates lines 8-27 of [main], each [?] as a step of
    the error monad.  [load_algorithm("moments")], the timing, the
    printing and the moments computation are not modelled: the moments
    algorithm and [moments_to_cumulants] are outside src/ and the spec
    leaves them out of scope.  The benchmark loops themselves are in
    [Bench].

    Under this binder the setup stops at line 27 with an
    [ArgumentMismatch] for [noise32]: the buffer [src] holds [U64]
    values, but the first argument of [philox4x32_10_normal] is a [CU32]
    buffer (recorded as a finding, not as a theorem).

    Theorem: the thread counts of lines 35, 47 and 59 make every run write
      every cell of [num].  So the moments never read a value left over
      from an earlier run or from the initial fill, and this holds for
      every buffer length that is a multiple of 4, [2^17] included. *)

From Stdlib Require Import ZArith QArith Lia.
From stdpp Require Import base list gmap strings.
From S2P Require Import Prelude Word Philox Transforms Descriptor Catalog Elementwise.

Local Open Scope string_scope.
Local Open Scope err_scope.

(** ** The Handler, as the spec describes it *)

(** [gpgpu::descriptors::Type]: a value of one of the element types of
    [ConstructorTypes]. *)
Inductive Ty :=
  | U32 (v : Z) | U64 (v : Z) | F64 (v : Q)
  | U32x4 (a b c d : Z) | F64x2 (re im : Q).

(** [BufferConstructor::Len(value, len)]. *)
Inductive BufferConstructor := Len (t : Ty) (n : nat).

(** [KernelArg::Buffer(b)] binds buffer [b]; [BufArg(b, a)] binds buffer
    [b] to the argument named [a]; [Param(p, v)] binds the value [v] to
    the scalar parameter named [p]. *)
Inductive KernelArg := Buffer (b : string) | BufArg (b a : string) | Param (p : string) (v : Ty).

(** What an argument is bound to. *)
Inductive Bound := BoundBuffer (b : string) | BoundParam (v : Ty).

Inductive HandlerError :=
  | UnknownKernel (name : string)
  | UnknownAlias (alias : string)
  | UnknownBuffer (b : string)
  | ArgumentMismatch (alias : string).

Record Handler := mk_handler {
  h_buffers : gmap string (ConstructorTypes * nat);
  h_kernels : gmap string Kernel;
  h_args : gmap string (list Bound);
}.

#[export] Instance HandlerError_eq_dec : EqDecision HandlerError.
Proof. solve_decision. Defined.

(** [Handler::builder()] *)
Definition builder : Handler := mk_handler ∅ ∅ ∅.

Definition ty_tag (t : Ty) : ConstructorTypes :=
  match t with
  | U32 _ => CU32 | U64 _ => CU64 | F64 _ => CF64 | U32x4 _ _ _ _ => CU32_4 | F64x2 _ _ => CF64_2
  end.

(** [.add_buffer(name, Len(t, n))] *)
Definition add_buffer (name : string) (c : BufferConstructor) (h : Handler) : Handler :=
  match c with
  | Len t n => mk_handler (<[name := (ty_tag t, n)]> (h_buffers h)) (h_kernels h) (h_args h)
  end.

(** [.load_kernel_named(kernel, alias)] *)
Definition load_kernel_named (kname alias : string) (h : Handler) : HandlerError + Handler :=
  match lookup_kernel kname with
  | inl _ => inl (UnknownKernel kname)
  | inr k => inr (mk_handler (h_buffers h) (<[alias := k]> (h_kernels h)) (h_args h))
  end.

(** The binder of spec 4.2 and 7: bindings are matched with the
    descriptor's [args] in order.  A buffer argument takes a buffer of
    its element type, by [Buffer] or by [BufArg] naming that argument;
    a parameter argument takes a [Param] of its name and element type.
    Anything else, including a different count, is an
    [ArgumentMismatch]. *)
Fixpoint bind_args (alias : string) (bufs : gmap string (ConstructorTypes * nat))
    (ps : list KernelConstructor) (xs : list KernelArg) : HandlerError + list Bound :=
  let bind_buffer b ty ps xs :=
    match bufs !! b with
    | None => inl (UnknownBuffer b)
    | Some (ty', _) =>
        if decide (ty' = ty) then
          let? bs := bind_args alias bufs ps xs in inr (BoundBuffer b :: bs)
        else inl (ArgumentMismatch alias)
    end in
  match ps, xs with
  | [], [] => inr []
  | KCBuffer _ ty :: ps, Buffer b :: xs => bind_buffer b ty ps xs
  | KCBuffer n ty :: ps, BufArg b a :: xs =>
      if decide (a = n) then bind_buffer b ty ps xs else inl (ArgumentMismatch alias)
  | KCParam n ty :: ps, Param p v :: xs =>
      if decide (p = n /\ ty_tag v = ty) then
        let? bs := bind_args alias bufs ps xs in inr (BoundParam v :: bs)
      else inl (ArgumentMismatch alias)
  | _, _ => inl (ArgumentMismatch alias)
  end.

(** [gpu.set_arg(alias, args)] *)
Definition set_arg (alias : string) (xs : list KernelArg) (h : Handler) : HandlerError + Handler :=
  match h_kernels h !! alias with
  | None => inl (UnknownAlias alias)
  | Some k =>
      let? bs := bind_args alias (h_buffers h) (args k) xs in
      inr (mk_handler (h_buffers h) (h_kernels h) (<[alias := bs]> (h_args h)))
  end.


(** ** [main], lines 8-27 *)

Definition random_len : nat := Nat.pow 2 17.
Definition random_n : nat := Nat.pow 2 11.
Definition random_nmom : nat := 4.

Definition random_setup (time : Z) : HandlerError + Handler :=
  let len := random_len in
  let h := builder in
  let h := add_buffer "src" (Len (U64 time) len) h in
  let h := add_buffer "num" (Len (F64 0) len) h in
  let h := add_buffer "tmp" (Len (F64 0) len) h in
  let h := add_buffer "sum" (Len (F64 0) len) h in
  let h := add_buffer "dstsum" (Len (F64 0) len) h in
  let h := add_buffer "dst" (Len (F64 0) random_nmom) h in
  let? h := load_kernel_named "philox2x64_10_normal" "noise" h in
  let? h := load_kernel_named "philox4x64_10_normal" "noise4" h in
  let? h := load_kernel_named "philox4x32_10_normal" "noise32" h in
  let? h := set_arg "noise" [Buffer "src"; BufArg "num" "dst"] h in
  let? h := set_arg "noise4" [Buffer "src"; BufArg "num" "dst"] h in
  set_arg "noise32" [Buffer "src"; BufArg "num" "dst"] h.

(** ** The launches of lines 35, 47 and 59 *)

(** [gpu.run("noise", Dim::D1(len/2))] *)
Definition noise_threads (len : nat) : nat := len / 2.
(** [gpu.run("noise4", Dim::D1(len/4))] *)
Definition noise4_threads (len : nat) : nat := len / 4.
(** [gpu.run("noise32", Dim::D1(len/2))] *)
Definition noise32_threads (len : nat) : nat := len / 2.


(** ** Lemmas: a launch whose threads fill consecutive blocks *)

Local Close Scope string_scope.

(** Filling the block at [base] extends the filled prefix. *)
Lemma take_splice {A} base (vs l : list A) :
  (base + length vs <= length l)%nat -> take (base + length vs) (splice base vs l) = take base l ++ vs.
Proof.
  intros Hfit. rewrite splice_app, app_assoc by done.
  apply take_app_length'. rewrite length_app, length_take. lia.
Qed.

(** Thread [x] rewrites its [ls] state words and fills block [x] of
    [k] output cells with values computed from the state alone. *)
Section Cover.
Context {A B : Type} (K : nat -> list A * list B -> list A * list B) (ls k : nat).
Context (G : nat -> list A -> list A) (out : nat -> list A -> list B).
Hypothesis HK : forall x s d, (x * ls + ls <= length s)%nat -> (x * k + k <= length d)%nat ->
  K x (s, d) = (G x s, splice (x * k) (out x s) d).
Hypothesis Hout : forall x s, length (out x s) = k.
Hypothesis HG : forall x s, (x * ls + ls <= length s)%nat -> length (G x s) = length s.

Lemma run_cover_prefix n s d1 d2 m :
  (m <= n)%nat -> (n * ls <= length s)%nat -> length d1 = (n * k)%nat -> length d2 = (n * k)%nat ->
  (run_d1 m K (s, d1)).1 = (run_d1 m K (s, d2)).1 /\
  length (run_d1 m K (s, d1)).1 = length s /\
  length (run_d1 m K (s, d1)).2 = (n * k)%nat /\ length (run_d1 m K (s, d2)).2 = (n * k)%nat /\
  take (m * k) (run_d1 m K (s, d1)).2 = take (m * k) (run_d1 m K (s, d2)).2.
Proof.
  intros Hm Hs H1 H2. induction m as [|m IH]; [by rewrite !take_0|].
  destruct IH as (Es & Ls & La & Lb & Ht); [lia|].
  unfold run_d1 in *. rewrite !seq_S, !foldl_app. cbn [foldl Nat.add].
  destruct (foldl _ (s, d1) _) as [s1 a], (foldl _ (s, d2) _) as [s2 b]. cbn in *. subst s2.
  rewrite !HK by nia. cbn [fst snd]. rewrite !length_splice, HG by nia.
  split_and!; [done..|].
  replace (k + m * k)%nat with (m * k + length (out m s1))%nat by (rewrite Hout; lia).
  rewrite !take_splice by (rewrite Hout; nia). by f_equal.
Qed.

(** When the blocks tile the output buffer, the launch writes every
    cell: the result does not depend on what the buffer held. *)
Lemma run_cover n s d1 d2 :
  (n * ls <= length s)%nat -> length d1 = (n * k)%nat -> length d2 = (n * k)%nat ->
  (run_d1 n K (s, d1)).2 = (run_d1 n K (s, d2)).2.
Proof.
  intros Hs H1 H2. destruct (run_cover_prefix n s d1 d2 n) as (_ & _ & La & Lb & Ht); [done..|].
  by rewrite <- (take_ge _ (n * k)), Ht, take_ge by lia.
Qed.
(** The whole result, state included, ignores the output buffer. *)
Lemma run_cover_pair n s d1 d2 :
  (n * ls <= length s)%nat -> length d1 = (n * k)%nat -> length d2 = (n * k)%nat ->
  run_d1 n K (s, d1) = run_d1 n K (s, d2).
Proof.
  intros Hs H1 H2. destruct (run_cover_prefix n s d1 d2 n) as (E1 & _); [done..|].
  rewrite (surjective_pairing (run_d1 n K (s, d1))), (surjective_pairing (run_d1 n K (s, d2))).
  f_equal; [done|]. by apply run_cover.
Qed.

(** A cell property that each thread's state step keeps holds of the
    whole state buffer after the launch; the lengths do not change. *)
Lemma run_cover_Forall (P : A -> Prop) n s d m :
  (forall x s, (x * ls + ls <= length s)%nat -> Forall P s -> Forall P (G x s)) ->
  (m <= n)%nat -> (n * ls <= length s)%nat -> length d = (n * k)%nat -> Forall P s ->
  Forall P (run_d1 m K (s, d)).1 /\ length (run_d1 m K (s, d)).1 = length s /\
  length (run_d1 m K (s, d)).2 = (n * k)%nat.
Proof.
  intros HP Hm Hs Hd Hs0. induction m as [|m IH]; [done|].
  destruct IH as (Fs & Ls & Ld); [lia|].
  unfold run_d1 in *. rewrite seq_S, foldl_app. cbn [foldl Nat.add].
  destruct (foldl _ (s, d) _) as [s1 a]. cbn in *.
  rewrite HK by nia. cbn [fst snd]. rewrite length_splice, HG by nia.
  split_and!; [apply HP; [nia | done] | done..].
Qed.
End Cover.

(** ** Properties *)

(** The state words and output cells of one thread of each normal
    kernel. *)
Lemma normal2x64_block {F} (o : float_ops F) :
  forall x s d, (x * 2 + 2 <= length s)%nat -> (x * 2 + 2 <= length d)%nat ->
  philox2x64_normal o x (s, d) =
    (P2x64.kernel x s,
     splice (x * 2)
       (let st := P2x64.philox x (get_lanes P2x64.codec (x * 2) s) in
        let u1 := o.(f_of_Q) (to_unit (P2x64.s0 st)) in
        let u2 := o.(f_of_Q) (to_unit (P2x64.s1 st)) in
        [bm_cos o u1 u2; bm_sin o u1 u2]) d).
Proof. intros. by rewrite normal2x64_thread. Qed.

Lemma normal4x64_block {F} (o : float_ops F) :
  forall x s d, (x * 4 + 4 <= length s)%nat -> (x * 4 + 4 <= length d)%nat ->
  philox4x64_normal o x (s, d) =
    (P4x64.kernel x s,
     splice (x * 4)
       (let st := P4x64.philox x (get_lanes P4.codec (x * 4) s) in
        let u := fun w => o.(f_of_Q) (to_unit w) in
        [bm_cos o (u (P4.s0 st)) (u (P4.s1 st)); bm_sin o (u (P4.s0 st)) (u (P4.s1 st));
         bm_cos o (u (P4.s2 st)) (u (P4.s3 st)); bm_sin o (u (P4.s2 st)) (u (P4.s3 st))]) d).
Proof. intros. by rewrite normal4x64_thread. Qed.

Lemma normal4x32_block {F} (o : float_ops F) :
  forall x s d, (x * 4 + 4 <= length s)%nat -> (x * 2 + 2 <= length d)%nat ->
  philox4x32_normal o x (s, d) =
    (P4x32.kernel x s,
     splice (x * 2)
       (let st := P4x32.philox x (get_lanes P4.codec (x * 4) s) in
        let u1 := o.(f_of_Q) (to_unit (join32 (P4.s0 st) (P4.s1 st))) in
        let u2 := o.(f_of_Q) (to_unit (join32 (P4.s2 st) (P4.s3 st))) in
        [bm_cos o u1 u2; bm_sin o u1 u2]) d).
Proof. intros. by rewrite normal4x32_thread. Qed.

(** C21. The launch sizes of random.rs tile [num].  With [len] a
    multiple of 4 and [num] of [len] cells:
    - [noise] runs [len/2] threads, each with 2 state words and 2
      outputs;
    - [noise4] runs [len/4] threads, each with 4 state words and 4
      outputs;
    - [noise32] runs [len/2] threads, each with 4 [uint] state words
      (the [2*len] [uint] halves of [src]) and [l/2 = 2] outputs.
    After each run, [num] is the same whatever it held before: every
    cell has been written. *)
Theorem random_runs_fill_num {F} (o : float_ops F) (len : nat) src src32 num num' :
  len mod 4 = 0 -> length src = len -> length src32 = (2 * len)%nat ->
  length num = len -> length num' = len ->
  (run_d1 (noise_threads len) (philox2x64_normal o) (src, num)).2 =
    (run_d1 (noise_threads len) (philox2x64_normal o) (src, num')).2 /\
  (run_d1 (noise4_threads len) (philox4x64_normal o) (src, num)).2 =
    (run_d1 (noise4_threads len) (philox4x64_normal o) (src, num')).2 /\
  (run_d1 (noise32_threads len) (philox4x32_normal o) (src32, num)).2 =
    (run_d1 (noise32_threads len) (philox4x32_normal o) (src32, num')).2.
Proof.
  intros Hlen Hs Hs32 Hn Hn'. unfold noise_threads, noise4_threads, noise32_threads.
  apply Nat.Div0.mod_divides in Hlen as [q ->].
  replace (4 * q / 2)%nat with (2 * q)%nat by (apply Nat.div_unique with 0%nat; lia).
  replace (4 * q / 4)%nat with q by (apply Nat.div_unique with 0%nat; lia).
  split_and!.
  - apply (run_cover _ 2 2 _ _ (normal2x64_block o)); [done|apply kernel2x64_length|lia..].
  - apply (run_cover _ 4 4 _ _ (normal4x64_block o)); [done|apply kernel4x64_length|lia..].
  - apply (run_cover _ 4 2 _ _ (normal4x32_block o)); [done|apply kernel4x32_length|lia..].
Qed.

Lemma random_runs_fill_num_witness :
  let src := repeat 0%Z random_len in
  let src32 := repeat 0%Z (2 * random_len) in
  let num := repeat (FLit 0) random_len in
  let num' := repeat (FLit 1) random_len in
  (random_len mod 4 = 0 /\ length src = random_len /\ length src32 = (2 * random_len)%nat /\
   length num = random_len /\ length num' = random_len) /\
  (run_d1 (noise_threads random_len) (philox2x64_normal fexpr_ops) (src, num)).2 =
    (run_d1 (noise_threads random_len) (philox2x64_normal fexpr_ops) (src, num')).2 /\
  (run_d1 (noise4_threads random_len) (philox4x64_normal fexpr_ops) (src, num)).2 =
    (run_d1 (noise4_threads random_len) (philox4x64_normal fexpr_ops) (src, num')).2 /\
  (run_d1 (noise32_threads random_len) (philox4x32_normal fexpr_ops) (src32, num)).2 =
    (run_d1 (noise32_threads random_len) (philox4x32_normal fexpr_ops) (src32, num')).2.
Proof.
  intros src src32 num num'.
  assert (H4 : random_len mod 4 = 0) by (vm_compute; reflexivity).
  split; [split_and!; [exact H4 | apply List.repeat_length..]|].
  apply (random_runs_fill_num fexpr_ops random_len src src32 num num' H4); apply List.repeat_length.
Defined.
