(* ===== verification/Bench.v ===== *)
(** * The benchmark loops of src/examples/random.rs (lines 29-67)

    After the setup, [main] runs three benchmarks, one per normal
    kernel, on the same device buffers.  Each benchmark
    - resets [moms] to [nmom] zeros;
    - repeats [n] times: run the kernel on [src] and [num]
      ([gpu.run]); run the [moments] algorithm, which reads [num] and
      writes [nmom] values into the buffer [dst]; read [dst] back
      ([gpu.get]) and add it to [moms] cell by cell
      ([.iter().enumerate().map(|(i,v)| moms[i]+v)]);
    - divides [moms] by [n].

    The model threads one device state ([bench_state]: [src], [num],
    [dst]) through the three benchmarks, as the program does: the
    second benchmark starts from the [src] the first one left.  The
    kernels of the 64-bit benchmarks read [src] as [ulong]s.  The 4x32
    kernel reads the same memory as [uint]s: [u32_view] gives the two
    halves of each word, low half first (a little-endian device), and
    [u64_view] puts them back.

    Not under src/: the [moments] algorithm, a parameter here (a
    function from [num] to the values it writes into [dst]), and
    [moments_to_cumulants], which only prints.  [moms[i]] panics past
    the end of [moms]; [accumulate] returns [None] there.  The model
    describes the loops as written, given that the Handler accepted the
    bindings of lines 25-27; the spec's binder rejects the third one
    ([Launch.random_setup]).

    Theorems: the loop computes the [n]-fold launch and the sum of the
    [n] moment vectors (equivalence with a reference); the accumulation
    panics exactly when [dst] is longer than [moms]; the results do not
    depend on what [num] and [dst] held at the start. *)

From Stdlib Require Import ZArith QArith Lia.
From stdpp Require Import base list relations.
From S2P Require Import Prelude Word Philox Transforms Elementwise Launch.

(** ** The shared [src] buffer through a [uint] pointer *)

(** [(uint* )src]: each [ulong] is its low half, then its high half. *)
Definition u32_view (l : list Z) : list Z :=
  l ≫= fun w => [wrap 32 w; wrap 32 (Z.shiftr w 32)].

(** [(ulong* )src]: two [uint] halves back into one word, [(hi<<32)+lo]. *)
Fixpoint u64_view (l : list Z) : list Z :=
  match l with
  | lo :: hi :: l => join32 hi lo :: u64_view l
  | _ => []
  end.

Section Bench.
Context {F : Type} `{Inhabited F} (fo : float_ops F) (dop : double_ops F).
(** [n as f64] *)
Context (f64_of_nat : nat -> F).
(** [gpu.run_algorithm("moments", ...)] followed by [gpu.get("dst")]:
    the values the moments algorithm writes into [dst]. *)
Context (moments : list F -> list F).

(** The device buffers the loops use. *)
Record bench_state := mk_bench { b_src : list Z; b_num : list F; b_dst : list F }.

(** The three launches: [gpu.run(alias, Dim::D1(threads))]. *)
Definition launch2x64 (len : nat) : list Z * list F -> list Z * list F :=
  run_d1 (noise_threads len) (philox2x64_normal fo).
Definition launch4x64 (len : nat) : list Z * list F -> list Z * list F :=
  run_d1 (noise4_threads len) (philox4x64_normal fo).
Definition launch4x32 (len : nat) (b : list Z * list F) : list Z * list F :=
  let '(s, d) := run_d1 (noise32_threads len) (philox4x32_normal fo) (u32_view b.1, b.2) in
  (u64_view s, d).

(** [moms = dst.iter().enumerate().map(|(i,v)| moms[i]+v).collect()] *)
Fixpoint accumulate_from (i : nat) (moms vals : list F) : option (list F) :=
  match vals with
  | [] => Some []
  | v :: vals =>
      m ← moms !! i;
      rest ← accumulate_from (S i) moms vals;
      Some (d_add dop m v :: rest)
  end.

Definition accumulate (moms vals : list F) : option (list F) := accumulate_from 0 moms vals.

(** One pass of [for _ in 0..n { ... }]. *)
Definition bench_iter (run : list Z * list F -> list Z * list F) (s : bench_state * list F)
    : option (bench_state * list F) :=
  let '(d, moms) := s in
  let '(src, num) := run (b_src d, b_num d) in
  let dst := moments num in
  moms' ← accumulate moms dst;
  Some (mk_bench src num dst, moms').

Fixpoint bench_loop (run : list Z * list F -> list Z * list F) (k : nat) (s : bench_state * list F)
    : option (bench_state * list F) :=
  match k with
  | O => Some s
  | S k => s' ← bench_iter run s; bench_loop run k s'
  end.

(** One benchmark: [moms = vec![0.0;nmom]], the loop, [v/n as f64]. *)
Definition bench (run : list Z * list F -> list Z * list F) (n nmom : nat) (d : bench_state)
    : option (bench_state * list F) :=
  match bench_loop run n (d, repeat (d_zero dop) nmom) with
  | Some (d', moms) => Some (d', (fun v => d_div dop v (f64_of_nat n)) <$> moms)
  | None => None
  end.

(** Lines 29-67: the three benchmarks on the shared buffers. *)
Definition random_benchmarks (len n nmom : nat) (d : bench_state) : option (list F * list F * list F) :=
  match bench (launch2x64 len) n nmom d with
  | None => None
  | Some (d, m1) =>
      match bench (launch4x64 len) n nmom d with
      | None => None
      | Some (d, m2) =>
          match bench (launch4x32 len) n nmom d with
          | None => None
          | Some (_, m3) => Some (m1, m2, m3)
          end
      end
  end.

(** ** What the loop needs of a launch *)

(** What the loop needs of a launch: it keeps the state buffer's cells
    in [P] and the buffer lengths, and it writes all of [num], so the
    result does not depend on what [num] held. *)
Record launch_laws (run : list Z * list F -> list Z * list F) (P : Z -> Prop) (ns nd : nat) : Prop := {
  ll_shape s d : Forall P s -> length s = ns -> length d = nd ->
    Forall P (run (s, d)).1 /\ length (run (s, d)).1 = ns /\ length (run (s, d)).2 = nd;
  ll_num s d1 d2 : Forall P s -> length s = ns -> length d1 = nd -> length d2 = nd ->
    run (s, d1) = run (s, d2);
}.


(** The reference: [k] launches in a row, and the sum of the moment
    vectors of the [k] outputs. *)
Definition ref_step (run : list Z * list F -> list Z * list F) (x : (list Z * list F) * list F)
    : (list Z * list F) * list F :=
  let b := run x.1 in (b, zip_with (d_add dop) x.2 (moments b.2)).
End Bench.

(** ** Lemmas *)

Section Accumulate.
Context {F : Type} (dop : double_ops F).

Lemma accumulate_from_ok i (moms vals : list F) :
  (i + length vals <= length moms)%nat ->
  accumulate_from dop i moms vals = Some (zip_with (d_add dop) (drop i moms) vals).
Proof.
  revert i. induction vals as [|v vals IH]; intros i Hi; [by rewrite zip_with_nil_r|].
  cbn [accumulate_from length] in *.
  destruct (lookup_lt_is_Some_2 moms i) as [m Hm]; [lia|]. rewrite Hm. cbn.
  rewrite IH by lia. cbn. by rewrite (drop_S moms m i Hm).
Qed.

Lemma accumulate_from_panic i (moms vals : list F) :
  (i <= length moms)%nat -> (length moms < i + length vals)%nat ->
  accumulate_from dop i moms vals = None.
Proof.
  revert i. induction vals as [|v vals IH]; intros i Hle Hi; cbn [length] in Hi; [lia|].
  cbn [accumulate_from]. destruct (moms !! i) eqn:Hm; [|done]. cbn.
  apply lookup_lt_Some in Hm. rewrite IH by lia. done.
Qed.
End Accumulate.

Lemma length_u32_view l : length (u32_view l) = (2 * length l)%nat.
Proof.
  induction l as [|w l IH]; [done|]. unfold u32_view in *. rewrite bind_cons, length_app, IH. cbn. lia.
Qed.

Lemma u32_view_words l : Forall (word 32) (u32_view l).
Proof.
  induction l as [|w l IH]; [constructor|]. unfold u32_view in *. rewrite bind_cons.
  repeat constructor; [apply word_wrap; lia..|done].
Qed.

Lemma length_u64_view l m : length l = (2 * m)%nat -> length (u64_view l) = m.
Proof.
  revert l. induction m as [|m IH]; intros [|lo [|hi l]] Hl; cbn in *; try lia.
  f_equal. apply IH. lia.
Qed.

Lemma u64_view_words l : Forall (word 64) (u64_view l).
Proof.
  induction l as [l IH] using (induction_ltof1 _ (@length Z)).
  destruct l as [|lo [|hi l]]; cbn; try constructor.
  - unfold join32. apply word_add. lia.
  - apply IH. unfold ltof. cbn. lia.
Qed.



(** A launch of [n] threads, each owning [ls] state words and [k]
    output cells, satisfies [launch_laws]. *)
Lemma run_d1_laws {F} (K : nat -> list Z * list F -> list Z * list F) (ls k : nat)
    (G : nat -> list Z -> list Z) (out : nat -> list Z -> list F) (P : Z -> Prop) n :
  (forall x s d, (x * ls + ls <= length s)%nat -> (x * k + k <= length d)%nat ->
     K x (s, d) = (G x s, splice (x * k) (out x s) d)) ->
  (forall x s, length (out x s) = k) ->
  (forall x s, (x * ls + ls <= length s)%nat -> length (G x s) = length s) ->
  (forall x s, (x * ls + ls <= length s)%nat -> Forall P s -> Forall P (G x s)) ->
  launch_laws (run_d1 n K) P (n * ls) (n * k).
Proof.
  intros HK Hout HG HP. split.
  - intros s d Hs Ls Ld.
    destruct (run_cover_Forall K ls k G out HK HG P n s d n HP) as (? & ? & ?); [lia..|done|].
    split_and!; [done|lia|lia].
  - intros s d1 d2 Hs Ls L1 L2. apply (run_cover_pair K ls k G out HK Hout HG); lia.
Qed.

(** The thread counts of random.rs for a length that is a multiple of 4. *)
Lemma quarter_half q : (4 * q / 2 = 2 * q)%nat /\ (4 * q / 4 = q)%nat.
Proof. split; symmetry; apply Nat.div_unique with 0%nat; lia. Qed.

Lemma launch2x64_laws {F} `{Inhabited F} (fo : float_ops F) q :
  launch_laws (launch2x64 fo (4 * q)) (word 64) (4 * q) (4 * q).
Proof.
  unfold launch2x64, noise_threads. rewrite (proj1 (quarter_half q)).
  replace (4 * q)%nat with (2 * q * 2)%nat by lia.
  apply (run_d1_laws _ 2 2 _ _ _ _ (normal2x64_block fo)); [done|apply kernel2x64_length|apply kernel2x64_words].
Qed.

Lemma launch4x64_laws {F} `{Inhabited F} (fo : float_ops F) q :
  launch_laws (launch4x64 fo (4 * q)) (word 64) (4 * q) (4 * q).
Proof.
  unfold launch4x64, noise4_threads. rewrite (proj2 (quarter_half q)).
  replace (4 * q)%nat with (q * 4)%nat by lia.
  apply (run_d1_laws _ 4 4 _ _ _ _ (normal4x64_block fo)); [done|apply kernel4x64_length|apply kernel4x64_words].
Qed.

(** The 4x32 launch on the [uint] view: [2q] threads, 4 words and 2
    outputs each. *)
Lemma noise32_view_laws {F} `{Inhabited F} (fo : float_ops F) q :
  launch_laws (run_d1 (2 * q) (philox4x32_normal fo)) (word 32) (2 * q * 4) (2 * q * 2).
Proof.
  apply (run_d1_laws _ 4 2 _ _ _ _ (normal4x32_block fo));
    [done|apply kernel4x32_length|apply kernel4x32_words].
Qed.

Lemma launch4x32_laws {F} `{Inhabited F} (fo : float_ops F) q :
  launch_laws (launch4x32 fo (4 * q)) (word 64) (4 * q) (4 * q).
Proof.
  unfold launch4x32, noise32_threads. rewrite (proj1 (quarter_half q)).
  pose proof (noise32_view_laws fo q) as L.
  split.
  - intros s d Hs Ls Ld. cbn [fst snd].
    destruct (ll_shape _ _ _ _ L (u32_view s) d) as (F32 & L32 & Ld');
      [apply u32_view_words | rewrite length_u32_view; lia | lia |].
    destruct (run_d1 _ _ _) as [s' d']. cbn in *.
    split_and!; [apply u64_view_words | apply length_u64_view; lia | lia].
  - intros s d1 d2 Hs Ls L1 L2. cbn [fst snd].
    rewrite (ll_num _ _ _ _ L (u32_view s) d1 d2); [done|apply u32_view_words|rewrite length_u32_view|..]; lia.
Qed.

Section Loop.
Context {F : Type} `{Inhabited F} (dop : double_ops F) (moments : list F -> list F).
Context (run : list Z * list F -> list Z * list F).

Lemma accumulate_ok (moms vals : list F) :
  length vals = length moms -> accumulate dop moms vals = Some (zip_with (d_add dop) moms vals).
Proof. intros. unfold accumulate. rewrite accumulate_from_ok by lia. by rewrite drop_0. Qed.

Lemma bench_iter_ok d moms :
  length (moments (run (b_src d, b_num d)).2) = length moms ->
  bench_iter dop moments run (d, moms) =
    Some (mk_bench (run (b_src d, b_num d)).1 (run (b_src d, b_num d)).2 (moments (run (b_src d, b_num d)).2),
          zip_with (d_add dop) moms (moments (run (b_src d, b_num d)).2)).
Proof.
  unfold bench_iter. destruct (run (b_src d, b_num d)) as [s n]. cbn. intros Hl.
  by rewrite accumulate_ok.
Qed.

Lemma length_zip_with_same (ms vs : list F) :
  length vs = length ms -> length (zip_with (d_add dop) ms vs) = length ms.
Proof. intros. rewrite length_zip_with. lia. Qed.

(** The loop is the reference iteration: [k] launches, and the sum of
    the moment vectors of their outputs. *)
Lemma bench_loop_ref k d moms :
  (forall v, length (moments v) = length moms) ->
  exists d', bench_loop dop moments run k (d, moms) =
               Some (d', (Nat.iter k (ref_step dop moments run) ((b_src d, b_num d), moms)).2) /\
             (b_src d', b_num d') = (Nat.iter k (ref_step dop moments run) ((b_src d, b_num d), moms)).1.
Proof.
  revert d moms. induction k as [|k IH]; intros d moms Hm; [by exists d|].
  cbn [bench_loop]. rewrite bench_iter_ok by apply Hm. cbn [mbind option_bind].
  rewrite !Nat.iter_succ_r.
  assert (E : ref_step dop moments run (b_src d, b_num d, moms) =
    ((run (b_src d, b_num d)), zip_with (d_add dop) moms (moments (run (b_src d, b_num d)).2))) by done.
  rewrite E. destruct (run (b_src d, b_num d)) as [s n]. cbn [fst snd].
  apply (IH (mk_bench s n (moments n))). intros v. rewrite length_zip_with_same; apply Hm.
Qed.

Lemma ref_iter_fst k x moms :
  (Nat.iter k (ref_step dop moments run) (x, moms)).1 = Nat.iter k run x.
Proof.
  revert x moms. induction k as [|k IH]; intros x moms; [done|].
  rewrite !Nat.iter_succ_r. apply IH.
Qed.

(** After one iteration the state no longer depends on [num] or [dst]. *)
Lemma bench_iter_num P ns nd d1 d2 moms :
  launch_laws run P ns nd -> b_src d1 = b_src d2 -> Forall P (b_src d1) -> length (b_src d1) = ns ->
  length (b_num d1) = nd -> length (b_num d2) = nd ->
  bench_iter dop moments run (d1, moms) = bench_iter dop moments run (d2, moms).
Proof.
  intros L Es Hs Ls L1 L2. unfold bench_iter. rewrite <- Es.
  by rewrite (ll_num _ _ _ _ L (b_src d1) (b_num d1) (b_num d2)).
Qed.


End Loop.


(** States that differ only in [num] and [dst] give the same loop after
    one iteration, and the same averages. *)
Lemma bench_num {F} `{Inhabited F} (dop : double_ops F) (of_nat : nat -> F) (moments : list F -> list F)
    run P ns nd n nmom d1 d2 :
  launch_laws run P ns nd -> b_src d1 = b_src d2 -> Forall P (b_src d1) -> length (b_src d1) = ns ->
  length (b_num d1) = nd -> length (b_num d2) = nd ->
  (exists k, n = S k) ->
  bench dop of_nat moments run n nmom d1 = bench dop of_nat moments run n nmom d2.
Proof.
  intros L Es Hs Ls L1 L2 [k ->]. unfold bench. cbn [bench_loop].
  by rewrite (bench_iter_num dop moments run P ns nd d1 d2).
Qed.

(** A toy integer instance of the double operations, to run the
    benchmarks on concrete data. *)
Definition z_float_ops : float_ops Z :=
  {| f_of_Q := fun q => Qnum q; f_lit := fun z => z; f_pi := 3%Z; f_mul := Z.mul;
     f_sqrt := Z.sqrt; f_log := Z.log2; f_cos := fun _ => 1%Z; f_sin := fun _ => 0%Z |}.

(** ** Properties *)

(** C22. The three benchmarks of random.rs compute, with [r1], [r2],
    [r3] the reference iterations of [ref_step]:
    - the 2x64 benchmark's moments are the average over [n] runs of
      the moments of each run's [num];
    - its state buffer after the loop is the [n]-fold launch of the
      initial one, so each run permutes the previous output;
    - the 4x64 benchmark starts from the state the 2x64 benchmark left,
      and the 4x32 benchmark from the one the 4x64 benchmark left.
    So the loops never panic: the moments algorithm always returns the
    [nmom] values that [moms] holds. *)
Theorem random_benchmarks_spec {F} `{Inhabited F} (fo : float_ops F) (dop : double_ops F)
    (of_nat : nat -> F) (moments : list F -> list F) len n nmom d :
  (forall v, length (moments v) = nmom) ->
  let avg m := (fun v => d_div dop v (of_nat n)) <$> m in
  let r1 := Nat.iter n (ref_step dop moments (launch2x64 fo len))
              ((b_src d, b_num d), repeat (d_zero dop) nmom) in
  let r2 := Nat.iter n (ref_step dop moments (launch4x64 fo len)) (r1.1, repeat (d_zero dop) nmom) in
  let r3 := Nat.iter n (ref_step dop moments (launch4x32 fo len)) (r2.1, repeat (d_zero dop) nmom) in
  random_benchmarks fo dop of_nat moments len n nmom d = Some (avg r1.2, avg r2.2, avg r3.2) /\
  r1.1 = Nat.iter n (launch2x64 fo len) (b_src d, b_num d) /\
  r2.1 = Nat.iter n (launch4x64 fo len) r1.1.
Proof.
  intros Hm avg r1 r2 r3.
  assert (Hz : forall v, length (moments v) = length (repeat (d_zero dop) nmom))
    by (intros; by rewrite repeat_length).
  split_and!; [|apply ref_iter_fst..].
  unfold random_benchmarks, bench.
  destruct (bench_loop_ref dop moments (launch2x64 fo len) n d _ Hz) as (d1 & -> & E1).
  destruct (bench_loop_ref dop moments (launch4x64 fo len) n d1 _ Hz) as (d2 & -> & E2).
  destruct (bench_loop_ref dop moments (launch4x32 fo len) n d2 _ Hz) as (d3 & -> & _).
  unfold r3, r2, r1. by rewrite E2, E1.
Qed.

Lemma random_benchmarks_spec_witness :
  let d := mk_bench [1; 2; 3; 4]%Z [0; 0; 0; 0]%Z [0]%Z in
  let moments v := [foldr Z.add 0 v]%Z in
  let avg m := (fun v => d_div z_ops v (Z.of_nat 1)) <$> m in
  let r1 := Nat.iter 1 (ref_step z_ops moments (launch2x64 z_float_ops 4))
              ((b_src d, b_num d), repeat (d_zero z_ops) 1) in
  let r2 := Nat.iter 1 (ref_step z_ops moments (launch4x64 z_float_ops 4)) (r1.1, repeat (d_zero z_ops) 1) in
  let r3 := Nat.iter 1 (ref_step z_ops moments (launch4x32 z_float_ops 4)) (r2.1, repeat (d_zero z_ops) 1) in
  (forall v, length (moments v) = 1%nat) /\
  (random_benchmarks z_float_ops z_ops Z.of_nat moments 4 1 1 d = Some (avg r1.2, avg r2.2, avg r3.2) /\
   r1.1 = Nat.iter 1 (launch2x64 z_float_ops 4) (b_src d, b_num d) /\
   r2.1 = Nat.iter 1 (launch4x64 z_float_ops 4) r1.1).
Proof.
  intros d moments avg r1 r2 r3.
  assert (Hm : forall v, length (moments v) = 1%nat) by (intros; reflexivity).
  split; [exact Hm|]. exact (random_benchmarks_spec z_float_ops z_ops Z.of_nat moments 4 1 1 d Hm).
Defined.





(** C23. [.iter().enumerate().map(|(i,v)| moms[i]+v)] panics exactly
    when [dst] has more values than [moms]; otherwise it adds [dst] to
    the first cells of [moms], and the result has as many cells as
    [dst]. *)
Theorem accumulate_spec {F} (dop : double_ops F) (moms vals : list F) :
  (length moms < length vals -> accumulate dop moms vals = None) /\
  (length vals <= length moms -> accumulate dop moms vals = Some (zip_with (d_add dop) moms vals)).
Proof.
  split; intros; unfold accumulate.
  - apply accumulate_from_panic; lia.
  - rewrite accumulate_from_ok by lia. by rewrite drop_0.
Qed.

(** C24. The results of the three benchmarks do not depend on what
    [num] and [dst] hold at the start: each run writes every cell of
    [num] before the moments algorithm reads it, and the algorithm
    writes [dst] before [gpu.get] reads it. *)
Theorem random_benchmarks_ignore_num {F} `{Inhabited F} (fo : float_ops F) (dop : double_ops F)
    (of_nat : nat -> F) (moments : list F -> list F) q n nmom src num num' dst dst' :
  Forall (word 64) src -> length src = (4 * q)%nat ->
  length num = (4 * q)%nat -> length num' = (4 * q)%nat ->
  random_benchmarks fo dop of_nat moments (4 * q) n nmom (mk_bench src num dst) =
  random_benchmarks fo dop of_nat moments (4 * q) n nmom (mk_bench src num' dst').
Proof.
  intros Hs Ls L1 L2. destruct n as [|k].
  - reflexivity.
  - unfold random_benchmarks.
    by rewrite (bench_num dop of_nat moments _ (word 64) (4 * q) (4 * q) (S k) nmom
                  (mk_bench src num dst) (mk_bench src num' dst') (launch2x64_laws fo q))
      by (cbn; eauto).
Qed.

Lemma random_benchmarks_ignore_num_witness :
  let moments (v : list Z) := [foldr Z.add 0 v]%Z in
  (Forall (word 64) [1; 2; 3; 4]%Z /\ length [1; 2; 3; 4]%Z = (4 * 1)%nat /\
   length [0; 0; 0; 0]%Z = (4 * 1)%nat /\ length [5; 6; 7; 8]%Z = (4 * 1)%nat) /\
  random_benchmarks z_float_ops z_ops Z.of_nat moments (4 * 1) 2 1 (mk_bench [1; 2; 3; 4] [0; 0; 0; 0] [0])%Z =
  random_benchmarks z_float_ops z_ops Z.of_nat moments (4 * 1) 2 1 (mk_bench [1; 2; 3; 4] [5; 6; 7; 8] [9])%Z.
Proof.
  intros moments.
  assert (Hw : Forall (word 64) [1; 2; 3; 4]%Z) by (unfold word; repeat constructor; lia).
  split; [split_and!; [exact Hw|reflexivity..]|].
  apply (random_benchmarks_ignore_num z_float_ops z_ops Z.of_nat moments 1 2 1); [exact Hw|reflexivity..].
Defined.

Lemma accumulate_spec_witness :
  ((length [1; 2]%Z < length [1; 2; 3]%Z)%nat -> accumulate z_ops [1; 2]%Z [1; 2; 3]%Z = None) /\
  ((length [1; 2; 3]%Z <= length [1; 2]%Z)%nat ->
     accumulate z_ops [1; 2]%Z [1; 2; 3]%Z = Some (zip_with (d_add z_ops) [1; 2]%Z [1; 2; 3]%Z)) /\
  accumulate z_ops [1; 2]%Z [1; 2; 3]%Z = None.
Proof.
  pose proof (accumulate_spec z_ops [1; 2]%Z [1; 2; 3]%Z) as [H1 H2].
  split_and!; [exact H1 | exact H2 | apply H1; cbn; lia].
Defined.


