(* ===== verification/NormalR.v ===== *)
(** * The normal kernels read over the real numbers

    [Transforms] writes the Box-Muller lines against [float_ops], any
    implementation of the double operations.  Here they are read in
    the exact arithmetic of the real numbers ([real_ops]: [sqrt], [ln],
    [cos], [sin] of the Standard Library and [PI] for [M_PI]).  Double
    rounding is not modelled.

    Theorem: a thread of each normal kernel writes pairs of cells whose
    squared norm is [-2 ln u1], the defining property of the
    Box-Muller transform, whenever its [u1] is positive.  [u1] is
    positive when the lane it comes from is at least [2^11]. *)

From Stdlib Require Import ZArith QArith Qreals Reals Lra Lia.
From stdpp Require Import base list.
From S2P Require Import Prelude Word Philox Transforms.

(** The double operations of the Box-Muller lines in exact real
    arithmetic. *)
Definition real_ops : float_ops R :=
  {| f_of_Q := Q2R; f_lit := IZR; f_pi := PI; f_mul := Rmult;
     f_sqrt := sqrt; f_log := ln; f_cos := cos; f_sin := sin |}.

#[local] Instance R_inhabited : Inhabited R := populate 0%R.

(** ** Lemmas *)

Local Open Scope R_scope.

(** [(r cos t)^2 + (r sin t)^2 = r^2 = -2 ln u1] for [0 < u1 <= 1]. *)
Lemma bm_norm u1 u2 :
  0 < u1 <= 1 -> Rsqr (bm_cos real_ops u1 u2) + Rsqr (bm_sin real_ops u1 u2) = -2 * ln u1.
Proof.
  intros Hu. unfold bm_cos, bm_sin, bm_radius, bm_angle. cbn.
  assert (Hln : ln u1 <= 0).
  { destruct (Req_dec u1 1) as [->|Hne]; [rewrite ln_1; lra|].
    left. rewrite <- ln_1. apply ln_increasing; lra. }
  rewrite !Rsqr_mult, Rsqr_sqrt by lra.
  replace (IZR (-2) * ln u1) with (-2 * ln u1) by (cbn; lra).
  rewrite <- Rmult_plus_distr_l, Rplus_comm, sin2_cos2. lra.
Qed.

(** [(double)(w>>11)/(1l << 53)] is in [(0, 1]] for a word at least [2^11]. *)
Lemma to_unit_pos w :
  (2 ^ 11 <= w < 2 ^ 64)%Z -> 0 < Q2R (to_unit w) <= 1.
Proof.
  intros Hw. unfold to_unit, Q2R. cbn [Qnum Qden].
  rewrite Z.shiftr_div_pow2 by lia. rewrite Pos2Z.inj_pow.
  assert (H1 : (1 <= w / 2 ^ 11)%Z) by (apply Z.div_le_lower_bound; lia).
  assert (H2 : (w / 2 ^ 11 < 2 ^ 53)%Z) by (apply Z.div_lt_upper_bound; lia).
  apply IZR_le in H1. apply IZR_lt in H2.
  assert (Hp : 0 < IZR (Z.pos 2 ^ 53)) by (apply IZR_lt; lia).
  split.
  - apply Rmult_lt_0_compat; [lra | by apply Rinv_0_lt_compat].
  - apply (Rmult_le_reg_r (IZR (Z.pos 2 ^ 53))); [done|].
    rewrite Rmult_assoc, Rinv_l, Rmult_1_r, Rmult_1_l by lra. lra.
Qed.

(** A Box-Muller pair written at [base + length pre] by a splice has
    the norm. *)
Lemma splice_pair_norm base pre (dst : list R) (u1 u2 : R) vs :
  (base + length pre + 2 + length vs <= length dst)%nat -> 0 < u1 <= 1 ->
  let out := splice base (pre ++ [bm_cos real_ops u1 u2; bm_sin real_ops u1 u2] ++ vs) dst in
  Rsqr (out !!! (base + length pre)%nat) + Rsqr (out !!! (base + length pre + 1)%nat) = -2 * ln u1.
Proof.
  intros Hlen Hu out. unfold out. rewrite <- Nat.add_assoc.
  rewrite !lookup_total_splice_in by (rewrite ?length_app; cbn; lia).
  rewrite !list_lookup_total_alt, (lookup_app_r pre _ (length pre)),
    (lookup_app_r pre _ (length pre + 1)) by lia.
  replace (length pre - length pre)%nat with 0%nat by lia.
  replace (length pre + 1 - length pre)%nat with 1%nat by lia.
  apply bm_norm, Hu.
Qed.

Lemma splice_pair_norm0 base (dst : list R) (u1 u2 : R) vs :
  (base + 2 + length vs <= length dst)%nat -> 0 < u1 <= 1 ->
  let out := splice base ([bm_cos real_ops u1 u2; bm_sin real_ops u1 u2] ++ vs) dst in
  Rsqr (out !!! base) + Rsqr (out !!! (base + 1)%nat) = -2 * ln u1.
Proof.
  intros Hlen Hu. pose proof (splice_pair_norm base [] dst u1 u2 vs) as H.
  cbn [length app] in H. rewrite Nat.add_0_r in H. by apply H.
Qed.

(** ** Properties *)

(** C25. The Box-Muller identity for the values the normal kernels
    write, in real arithmetic, for every thread whose cells lie in the
    buffers.  Thread [x] of [philox2x64_10_normal]
    writes [dst[2x]] and [dst[2x+1]].  Their squares add up to
    [-2 ln u1], where [u1] is the unit value of the first permuted
    lane, whenever that lane is at least [2^11].  The same holds for
    both pairs of [philox4x64_10_normal], and for the pair of
    [philox4x32_10_normal] with [u1] rebuilt from lanes 0 and 1. *)
Theorem normal_kernels_box_muller x src dst :
  ((x * 2 + 2 <= length src)%nat -> (x * 2 + 2 <= length dst)%nat ->
   let s := P2x64.philox x (get_lanes P2x64.codec (x * 2) src) in
   let out := (philox2x64_normal real_ops x (src, dst)).2 in
   (2 ^ 11 <= P2x64.s0 s < 2 ^ 64)%Z ->
   Rsqr (out !!! (x * 2)%nat) + Rsqr (out !!! (x * 2 + 1)%nat) = -2 * ln (Q2R (to_unit (P2x64.s0 s)))) /\
  ((x * 4 + 4 <= length src)%nat -> (x * 4 + 4 <= length dst)%nat ->
   let s := P4x64.philox x (get_lanes P4.codec (x * 4) src) in
   let out := (philox4x64_normal real_ops x (src, dst)).2 in
   (2 ^ 11 <= P4.s0 s < 2 ^ 64)%Z -> (2 ^ 11 <= P4.s2 s < 2 ^ 64)%Z ->
   Rsqr (out !!! (x * 4)%nat) + Rsqr (out !!! (x * 4 + 1)%nat) = -2 * ln (Q2R (to_unit (P4.s0 s))) /\
   Rsqr (out !!! (x * 4 + 2)%nat) + Rsqr (out !!! (x * 4 + 3)%nat) = -2 * ln (Q2R (to_unit (P4.s2 s)))) /\
  ((x * 4 + 4 <= length src)%nat -> (x * 2 + 2 <= length dst)%nat ->
   let s := P4x32.philox x (get_lanes P4.codec (x * 4) src) in
   let out := (philox4x32_normal real_ops x (src, dst)).2 in
   (2 ^ 11 <= join32 (P4.s0 s) (P4.s1 s))%Z ->
   Rsqr (out !!! (x * 2)%nat) + Rsqr (out !!! (x * 2 + 1)%nat) =
     -2 * ln (Q2R (to_unit (join32 (P4.s0 s) (P4.s1 s))))).
Proof.
  split_and!.
  - intros Hs Hd s out Hw. unfold out. rewrite normal2x64_thread by lia. cbn [snd].
    apply (splice_pair_norm0 _ _ _ _ []); [cbn; lia | by apply to_unit_pos].
  - intros Hs Hd s out Hw0 Hw2. unfold out. rewrite normal4x64_thread by lia. cbn [snd]. split.
    + apply (splice_pair_norm0 _ _ _ _ [_; _]); [cbn; lia | by apply to_unit_pos].
    + set (u w := Q2R (to_unit w)).
      pose proof (splice_pair_norm (x * 4)
        [bm_cos real_ops (u (P4.s0 s)) (u (P4.s1 s)); bm_sin real_ops (u (P4.s0 s)) (u (P4.s1 s))]
        dst (u (P4.s2 s)) (u (P4.s3 s)) [] ltac:(cbn; lia) (to_unit_pos _ Hw2)) as H.
      cbn [length app] in H. rewrite <- Nat.add_assoc in H. exact H.
  - intros Hs Hd s out Hw. unfold out. rewrite normal4x32_thread by lia. cbn [snd].
    apply (splice_pair_norm0 _ _ _ _ []); [cbn; lia|].
    apply to_unit_pos. split; [done|]. apply (word_add 64). lia.
Qed.

Lemma normal_kernels_box_muller_witness :
  let src := [1; 2; 3; 4]%Z in
  let s2 := P2x64.philox 0 (get_lanes P2x64.codec 0 src) in
  let s4 := P4x64.philox 0 (get_lanes P4.codec 0 src) in
  let s32 := P4x32.philox 0 (get_lanes P4.codec 0 src) in
  let out2 := (philox2x64_normal real_ops 0 (src, repeat 0 4)).2 in
  let out4 := (philox4x64_normal real_ops 0 (src, repeat 0 4)).2 in
  let out32 := (philox4x32_normal real_ops 0 (src, repeat 0 4)).2 in
  ((2 ^ 11 <= P2x64.s0 s2 < 2 ^ 64)%Z /\ (2 ^ 11 <= P4.s0 s4 < 2 ^ 64)%Z /\
   (2 ^ 11 <= P4.s2 s4 < 2 ^ 64)%Z /\ (2 ^ 11 <= join32 (P4.s0 s32) (P4.s1 s32))%Z) /\
  Rsqr (out2 !!! 0%nat) + Rsqr (out2 !!! 1%nat) = -2 * ln (Q2R (to_unit (P2x64.s0 s2))) /\
  Rsqr (out4 !!! 2%nat) + Rsqr (out4 !!! 3%nat) = -2 * ln (Q2R (to_unit (P4.s2 s4))) /\
  Rsqr (out32 !!! 0%nat) + Rsqr (out32 !!! 1%nat) = -2 * ln (Q2R (to_unit (join32 (P4.s0 s32) (P4.s1 s32)))).
Proof.
  intros src s2 s4 s32 out2 out4 out32.
  assert (Hw : (2 ^ 11 <= P2x64.s0 s2 < 2 ^ 64)%Z /\ (2 ^ 11 <= P4.s0 s4 < 2 ^ 64)%Z /\
               (2 ^ 11 <= P4.s2 s4 < 2 ^ 64)%Z /\ (2 ^ 11 <= join32 (P4.s0 s32) (P4.s1 s32))%Z)
    by (vm_compute; split_and!; done).
  destruct Hw as (Hw2 & Hw40 & Hw42 & Hw32).
  destruct (normal_kernels_box_muller 0 src (repeat 0 4)) as (H2 & H4 & H32).
  split; [done|]. split; [apply (H2 ltac:(cbn; lia) ltac:(cbn; lia) Hw2)|].
  split; [apply (H4 ltac:(cbn; lia) ltac:(cbn; lia) Hw40 Hw42)|]. apply (H32 ltac:(cbn; lia) ltac:(cbn; lia) Hw32).
Defined.
